(** * docgen: a shallow embedding of the documentation generator

    The development follows [docgen/management/commands/docgen.py] and
    [docgen/defaults.py].

    - Text is a [string] of characters below code point 256; the [str]
      methods the generator calls are written out in [Text], with the white
      space and the line boundaries Python has in that range.  Case mapping
      is that of the ASCII letters.
    - What [yaml.safe_load] builds from a metadata block is a [pyval]: null,
      booleans, integers, text, lists, and mappings whose keys are text or
      integers.  A mapping is an association list in insertion order, as a
      Python [dict] is.  Values are trees: a block is taken not to use YAML
      anchors, so no two places of a loaded value are the same object.
    - Operations whose outcome depends on the run-time type of a value
      return a [result]: the value, or the exception Python raises.
    - The [Command] object is the record [command], threaded through a
      monad of state and exceptions.  An exception that the source catches
      is handled where the source handles it; any other one ends the run.
    - The modules, classes and functions that the generator reaches through
      imports and [getattr] are the record [application]: tables from names
      to declarations.  The YAML syntax itself is outside: a declaration
      carries what its docstring loads to ([docblock]).
    - [parse_serializer] calls itself through [parse_sub_serializer]; the
      depth of calls the interpreter allows is the [fuel] of the embedding,
      and running out of it is [RecursionError]. *)

From Stdlib Require Import List String Ascii Bool ZArith Arith Lia DecimalString.
Import ListNotations.
Local Open Scope string_scope.
Local Open Scope list_scope.
Local Open Scope nat_scope.

(** ** Text: the [str] methods the generator uses *)

Module Text.

Definition chr (n : nat) : ascii := ascii_of_nat n.

Definition TAB := chr 9.
Definition LF := chr 10.
Definition CR := chr 13.

(** [str.isspace] on the code points below 256. *)
Definition is_space (c : ascii) : bool :=
  let n := nat_of_ascii c in
  ((9 <=? n) && (n <=? 13)) || ((28 <=? n) && (n <=? 32))
  || (n =? 133) || (n =? 160).

(** The line boundaries of [str.splitlines] below code point 256. *)
Definition is_linebreak (c : ascii) : bool :=
  let n := nat_of_ascii c in
  ((10 <=? n) && (n <=? 13)) || ((28 <=? n) && (n <=? 30)) || (n =? 133).

Definition is_empty (s : string) : bool :=
  match s with EmptyString => true | String _ _ => false end.

Fixpoint drop (n : nat) (s : string) : string :=
  match n, s with
  | 0, _ => s
  | S _, EmptyString => EmptyString
  | S k, String _ s' => drop k s'
  end.

Fixpoint lstrip (s : string) : string :=
  match s with
  | EmptyString => EmptyString
  | String c s' => if is_space c then lstrip s' else s
  end.

Fixpoint rstrip (s : string) : string :=
  match s with
  | EmptyString => EmptyString
  | String c s' =>
      let r := rstrip s' in
      if is_space c && is_empty r then EmptyString else String c r
  end.

Definition strip (s : string) : string := rstrip (lstrip s).

Fixpoint spaces (n : nat) : string :=
  match n with 0 => EmptyString | S k => String " " (spaces k) end.

(** [str.expandtabs()] with the default tab size 8: the column restarts
    after a line feed or a carriage return. *)
Fixpoint expandtabs_from (col : nat) (s : string) : string :=
  match s with
  | EmptyString => EmptyString
  | String c s' =>
      if Ascii.eqb c TAB then
        let incr := 8 - col mod 8 in
        spaces incr ++ expandtabs_from (col + incr) s'
      else
        String c (expandtabs_from
                    (if Ascii.eqb c LF || Ascii.eqb c CR then 0 else S col) s')
  end.

Definition expandtabs (s : string) : string := expandtabs_from 0 s.

(** [str.splitlines()]: a line feed that directly follows a carriage
    return belongs to the same boundary, and no empty last line is
    produced for a text that ends in a boundary. *)
Fixpoint splitlines_from (after_cr : bool) (s : string) : list string :=
  match s with
  | EmptyString => []
  | String c s' =>
      if after_cr && Ascii.eqb c LF then splitlines_from false s'
      else if is_linebreak c then
        EmptyString :: splitlines_from (Ascii.eqb c CR) s'
      else
        match splitlines_from false s' with
        | [] => [String c EmptyString]
        | l :: ls => String c l :: ls
        end
  end.

Definition splitlines (s : string) : list string := splitlines_from false s.

Definition join (sep : string) (l : list string) : string :=
  String.concat sep l.

(** [needle in hay] for two strings. *)
Fixpoint contains (needle hay : string) : bool :=
  prefix needle hay
  || match hay with
     | EmptyString => false
     | String _ hay' => contains needle hay'
     end.

(** [s.split(sep)] for a separator of one character. *)
Fixpoint split_on (sep : ascii) (s : string) : list string :=
  match s with
  | EmptyString => [EmptyString]
  | String c s' =>
      if Ascii.eqb c sep then EmptyString :: split_on sep s'
      else match split_on sep s' with
           | [] => [String c EmptyString]
           | p :: ps => String c p :: ps
           end
  end.

(** [s.replace(old, new)]: occurrences are replaced from left to right and
    do not overlap; [skip] counts the characters of a match that are still
    to be passed over.  An empty [old] matches before every character and at
    the end. *)
Fixpoint replace_from (old new : string) (skip : nat) (s : string) : string :=
  match s with
  | EmptyString => EmptyString
  | String c s' =>
      match skip with
      | S k => replace_from old new k s'
      | 0 =>
          if prefix old s
          then new ++ replace_from old new (String.length old - 1) s'
          else String c (replace_from old new 0 s')
      end
  end.

Fixpoint interleave (new s : string) : string :=
  match s with
  | EmptyString => new
  | String c s' => new ++ String c (interleave new s')
  end.

Definition replace (old new s : string) : string :=
  if is_empty old then interleave new s else replace_from old new 0 s.

Definition is_lower (c : ascii) : bool :=
  let n := nat_of_ascii c in (97 <=? n) && (n <=? 122).
Definition is_upper (c : ascii) : bool :=
  let n := nat_of_ascii c in (65 <=? n) && (n <=? 90).
Definition to_lower (c : ascii) : ascii :=
  if is_upper c then chr (nat_of_ascii c + 32) else c.
Definition to_upper (c : ascii) : ascii :=
  if is_lower c then chr (nat_of_ascii c - 32) else c.

Fixpoint lower (s : string) : string :=
  match s with
  | EmptyString => EmptyString
  | String c s' => String (to_lower c) (lower s')
  end.

(** [str.capitalize()] on ASCII letters. *)
Definition capitalize (s : string) : string :=
  match s with
  | EmptyString => EmptyString
  | String c s' => String (to_upper c) (lower s')
  end.

(** [s.split()]: the maximal runs of characters that are not white space. *)
Fixpoint split_ws (s : string) : list string :=
  match s with
  | EmptyString => []
  | String c s' =>
      if is_space c then split_ws s'
      else match s' with
           | EmptyString => [String c EmptyString]
           | String c' _ =>
               if is_space c' then String c EmptyString :: split_ws s'
               else match split_ws s' with
                    | [] => [String c EmptyString]
                    | w :: ws => String c w :: ws
                    end
           end
  end.

(** [[a-z_]] and the longest run of it at the head of a string. *)
Definition is_name_char (c : ascii) : bool :=
  is_lower c || Ascii.eqb c "_".

Fixpoint take_while (p : ascii -> bool) (s : string) : string :=
  match s with
  | EmptyString => EmptyString
  | String c s' => if p c then String c (take_while p s') else EmptyString
  end.

Definition head_is (c : ascii) (s : string) : bool :=
  match s with
  | EmptyString => false
  | String c' _ => Ascii.eqb c c'
  end.

Definition last_or (d : string) (l : list string) : string := List.last l d.

(** *** [doc_trim] *)

(** One round of the indentation loop: a line that is not blank lowers
    the indentation to its own; [None] stands for [float('inf')]. *)
Definition indent_step (indent : option nat) (line : string) : option nat :=
  let stripped := lstrip line in
  if is_empty stripped then indent
  else
    let n := String.length line - String.length stripped in
    match indent with
    | None => Some n
    | Some i => Some (Nat.min i n)
    end.

Definition min_indent (lines : list string) : option nat :=
  fold_left indent_step lines None.

(** [while trimmed and not trimmed[-1]: trimmed.pop()] *)
Fixpoint pop_trailing_blank (l : list string) : list string :=
  match l with
  | [] => []
  | x :: r =>
      match pop_trailing_blank r with
      | [] => if is_empty x then [] else [x]
      | r' => x :: r'
      end
  end.

(** [while trimmed and not trimmed[0]: trimmed.pop(0)] *)
Fixpoint pop_leading_blank (l : list string) : list string :=
  match l with
  | [] => []
  | x :: r => if is_empty x then pop_leading_blank r else l
  end.

Definition NEWLINE : string := String LF EmptyString.

(** [Command.doc_trim].  Both loops run over all of [lines], the first
    line included, as the source has them; [lines[0]] exists because the
    text is not empty. *)
Definition doc_trim (docstring : string) : string :=
  if is_empty docstring then EmptyString
  else
    let lines := splitlines (expandtabs docstring) in
    let indent := min_indent lines in
    let trimmed :=
      strip (hd EmptyString lines)
      :: match indent with
         | Some i => map (fun line => rstrip (drop i line)) lines
         | None => []
         end in
    join NEWLINE (pop_leading_blank (pop_trailing_blank trimmed)).

(** *** The two path-parameter patterns *)

(** A match of [\<[a-z]+:([a-z_]+)\>] at the head of [s]: the whole
    match and its inner group.  Each repetition is followed by a character
    outside its class, so only the longest run can match. *)
Definition match_django (s : string) : option (string * string) :=
  match s with
  | EmptyString => None
  | String c r =>
      if negb (Ascii.eqb c "<") then None
      else
        let conv := take_while is_lower r in
        if is_empty conv then None
        else
          match drop (String.length conv) r with
          | EmptyString => None
          | String c1 r2 =>
              if negb (Ascii.eqb c1 ":") then None
              else
                let name := take_while is_name_char r2 in
                if is_empty name then None
                else if head_is ">" (drop (String.length name) r2)
                then Some (String "<" (conv ++ String ":" (name ++ ">")), name)
                else None
          end
  end.

(** [DJANGO_PATH_PARAM_PATTERN.findall]: the matches from left to right,
    none overlapping the one before. *)
Fixpoint django_findall_from (skip : nat) (s : string) : list (string * string) :=
  match s with
  | EmptyString => []
  | String _ s' =>
      match skip with
      | S k => django_findall_from k s'
      | 0 =>
          match match_django s with
          | Some (full, name) =>
              (full, name) :: django_findall_from (String.length full - 1) s'
          | None => django_findall_from 0 s'
          end
      end
  end.

Definition django_findall (s : string) : list (string * string) :=
  django_findall_from 0 s.

(** A match of [{([a-z_]+)}] at the head of [s]: its group. *)
Definition match_doc_param (s : string) : option string :=
  match s with
  | EmptyString => None
  | String c r =>
      if negb (Ascii.eqb c "{") then None
      else
        let name := take_while is_name_char r in
        if is_empty name then None
        else if head_is "}" (drop (String.length name) r) then Some name
        else None
  end.

(** [DOC_PATH_PARAM_PATTERN.findall] *)
Fixpoint doc_findall_from (skip : nat) (s : string) : list string :=
  match s with
  | EmptyString => []
  | String _ s' =>
      match skip with
      | S k => doc_findall_from k s'
      | 0 =>
          match match_doc_param s with
          | Some name => name :: doc_findall_from (String.length name + 1) s'
          | None => doc_findall_from 0 s'
          end
      end
  end.

Definition doc_findall (s : string) : list string := doc_findall_from 0 s.

(** [Command.get_url] *)
Definition get_url (url_pattern : string) : string :=
  let path_params := django_findall url_pattern in
  if String.length url_pattern =? 0 then "/"
  else
    let url_pattern :=
      if head_is "/" url_pattern then url_pattern
      else String "/" url_pattern in
    fold_left
      (fun url (pn : string * string) =>
         replace (fst pn) (String "{" (snd pn ++ "}")) url)
      path_params url_pattern.

(** [Command.capitalise] *)
Definition capitalise (s : string) : string :=
  join " " (map capitalize (split_ws s)).

(** [os.path.basename] *)
Definition basename (p : string) : string :=
  last_or EmptyString (split_on "/" p).

(** [Command.get_service_name] *)
Definition get_service_name (file_path : string) : string :=
  capitalise (replace "_" " " (replace ".py" "" (basename file_path))).

End Text.
Import Text.

(** ** Python values, dictionaries and exceptions *)

Module Py.

(** The keys of a mapping loaded from YAML: text or integers. *)
Inductive key : Type :=
| KStr (s : string)
| KInt (z : Z).

(** The values [yaml.safe_load] builds from a metadata block.  A [dict]
    keeps its insertion order. *)
#[warnings="-register-all"]
Inductive pyval : Type :=
| VNone
| VBool (b : bool)
| VInt (z : Z)
| VStr (s : string)
| VList (l : list pyval)
| VDict (d : list (key * pyval)).

Definition dict : Type := list (key * pyval).

(** The exceptions the generator meets.  [YAMLError] stands for the errors
    of [yaml.safe_load] other than [yaml.scanner.ScannerError]:
    [yaml.parser.ParserError], [yaml.composer.ComposerError],
    [yaml.constructor.ConstructorError] and [yaml.reader.ReaderError]. *)
Inductive exn : Type :=
| AttributeError
| KeyError
| TypeError
| IndexError
| RecursionError
| ModuleNotFoundError
| YAMLError.

Inductive result (A : Type) : Type :=
| Ok (a : A)
| Raise (e : exn).
Arguments Ok {A} a.
Arguments Raise {A} e.

Definition key_eqb (a b : key) : bool :=
  match a, b with
  | KStr s, KStr t => String.eqb s t
  | KInt x, KInt y => Z.eqb x y
  | _, _ => false
  end.

(** [str(code)] *)
Definition str_of_key (k : key) : string :=
  match k with
  | KStr s => s
  | KInt z => NilZero.string_of_int (Z.to_int z)
  end.

(** *** Dictionaries *)

(** [d.get(k)] *)
Fixpoint dget (k : key) (d : dict) : option pyval :=
  match d with
  | [] => None
  | (k', v) :: r => if key_eqb k k' then Some v else dget k r
  end.

(** [k in d] *)
Definition dmem (k : key) (d : dict) : bool :=
  match dget k d with Some _ => true | None => false end.

(** [d[k] = v]: an existing key keeps its place, a new one goes last. *)
Fixpoint dset (k : key) (v : pyval) (d : dict) : dict :=
  match d with
  | [] => [(k, v)]
  | (k', v') :: r =>
      if key_eqb k k' then (k', v) :: r else (k', v') :: dset k v r
  end.

(** [del d[k]] for a key that may be absent. *)
Definition ddel (k : key) (d : dict) : dict :=
  filter (fun kv => negb (key_eqb k (fst kv))) d.

(** [d.setdefault(k, v)] *)
Definition dsetdefault (k : key) (v : pyval) (d : dict) : dict :=
  if dmem k d then d else dset k v d.

(** [d.update(e)] *)
Definition dupdate (d e : dict) : dict :=
  fold_left (fun acc kv => dset (fst kv) (snd kv) acc) e d.

Definition dkeys (d : dict) : list key := map fst d.

(** *** Operations that depend on the run-time type of their operand *)

Definition is_none (v : pyval) : bool :=
  match v with VNone => true | _ => false end.

(** [v == s] for a string [s] *)
Definition py_eq_str (v : pyval) (s : string) : bool :=
  match v with VStr t => String.eqb t s | _ => false end.

(** [v != {}] *)
Definition py_ne_empty_dict (v : pyval) : bool :=
  match v with VDict [] => false | _ => true end.

(** [bool(v)] *)
Definition py_truth (v : pyval) : bool :=
  match v with
  | VNone => false
  | VBool b => b
  | VInt z => negb (Z.eqb z 0)
  | VStr s => negb (is_empty s)
  | VList l => match l with [] => false | _ => true end
  | VDict d => match d with [] => false | _ => true end
  end.

(** [s in v] for a string [s]: key membership in a mapping, element
    membership in a list, substring test in a string. *)
Definition py_contains (s : string) (v : pyval) : result bool :=
  match v with
  | VDict d => Ok (dmem (KStr s) d)
  | VList l => Ok (existsb (fun x => py_eq_str x s) l)
  | VStr t => Ok (contains s t)
  | _ => Raise TypeError
  end.

(** [v[s]] for a string [s] *)
Definition py_getitem (v : pyval) (s : string) : result pyval :=
  match v with
  | VDict d =>
      match dget (KStr s) d with
      | Some x => Ok x
      | None => Raise KeyError
      end
  | _ => Raise TypeError
  end.

(** [v.keys()] *)
Definition py_keys (v : pyval) : result (list key) :=
  match v with
  | VDict d => Ok (dkeys d)
  | _ => Raise AttributeError
  end.

(** [v.get(s, default)] *)
Definition py_get (v : pyval) (s : string) (default : pyval) : result pyval :=
  match v with
  | VDict d =>
      Ok (match dget (KStr s) d with Some x => x | None => default end)
  | _ => Raise AttributeError
  end.

(** [v.pop(s, default)]: the popped value and what is left of [v].  A list
    has a [pop], but of one argument. *)
Definition py_pop (v : pyval) (s : string) (default : pyval)
  : result (pyval * dict) :=
  match v with
  | VDict d =>
      Ok (match dget (KStr s) d with Some x => x | None => default end,
          ddel (KStr s) d)
  | VList _ => Raise TypeError
  | _ => Raise AttributeError
  end.

(** [len(v)] *)
Definition py_len (v : pyval) : result nat :=
  match v with
  | VDict d => Ok (List.length d)
  | VList l => Ok (List.length l)
  | VStr s => Ok (String.length s)
  | _ => Raise TypeError
  end.

(** [v += s] for a string [s]: a list is extended by the characters. *)
Definition py_iadd_str (v : pyval) (s : string) : result pyval :=
  match v with
  | VStr t => Ok (VStr (t ++ s))
  | VList l =>
      Ok (VList (l ++ map (fun c => VStr (String c EmptyString))
                          (list_ascii_of_string s)))
  | _ => Raise TypeError
  end.

(** [v += l] for a list [l] *)
Definition py_iadd_list (v : pyval) (l : list pyval) : result pyval :=
  match v with
  | VList l0 => Ok (VList (l0 ++ l))
  | _ => Raise TypeError
  end.

(** [v.append(x)] *)
Definition py_append (v : pyval) (x : pyval) : result pyval :=
  match v with
  | VList l => Ok (VList (l ++ [x]))
  | _ => Raise AttributeError
  end.

(** [v[s] = x] for a string [s] *)
Definition py_setitem (v : pyval) (s : string) (x : pyval) : result pyval :=
  match v with
  | VDict d => Ok (VDict (dset (KStr s) x d))
  | _ => Raise TypeError
  end.

(** [v.split('/')[-1]] *)
Definition py_last_segment (v : pyval) : result string :=
  match v with
  | VStr s => Ok (last_or EmptyString (split_on "/" s))
  | _ => Raise AttributeError
  end.

(** [', '.join(keys)]: every item has to be a string. *)
Definition py_join_keys (ks : list key) : result string :=
  if forallb (fun k => match k with KStr _ => true | KInt _ => false end) ks
  then Ok (join ", " (map str_of_key ks))
  else Raise TypeError.

End Py.
Import Py.

Notation "k =: v" := (KStr k%string, v) (at level 69, no associativity).

(** ** [docgen/defaults.py] *)

Module Defaults.

Definition ref_to (target : string) : pyval := VDict ["$ref" =: VStr target].

Definition json_content (schema : pyval) : pyval :=
  VDict ["application/json" =: VDict ["schema" =: schema]].

Definition DEFAULT_INFO : dict :=
  ["contact" =: VDict ["email" =: VStr "developers@cloudcix.com"]].

Definition DEFAULT_SECURITY : pyval :=
  VList [VDict ["XAuthToken" =: VList []]].

Definition DEFAULT_RESPONSES : dict :=
  [ "400" =: VDict
      [ "description" =: VStr "Input data was invalid";
        "content" =: json_content
          (VDict ["oneOf" =: VList [ref_to "#/components/schemas/Error";
                                   ref_to "#/components/schemas/MultiError"]]) ];
    "401" =: VDict
      [ "description" =: VStr "No / invalid token provided";
        "content" =: json_content
          (VDict [ "type" =: VStr "object";
                   "properties" =: VDict
                     [ "detail" =: VDict
                         [ "type" =: VStr "string";
                           "description" =:
                             VStr "Verbose error message explaining the error" ] ] ]) ];
    "403" =: VDict
      [ "description" =: VStr "Permission denied for this user";
        "content" =: json_content (ref_to "#/components/schemas/Error") ];
    "404" =: VDict
      [ "description" =: VStr "One of the specified resources could not be found";
        "content" =: json_content (ref_to "#/components/schemas/Error") ] ].

Definition DEFAULT_SECURITY_SCHEMES : dict :=
  [ "XAuthToken" =: VDict [ "type" =: VStr "apiKey";
                            "in" =: VStr "header";
                            "name" =: VStr "X-Auth-Token" ] ].

Definition typed (type description : string) : pyval :=
  VDict ["type" =: VStr type; "description" =: VStr description].

Definition DEFAULT_SCHEMAS : dict :=
  [ "ListMetadata" =: VDict
      [ "type" =: VStr "object";
        "required" =: VList [VStr "total_records"; VStr "page"; VStr "limit";
                             VStr "order"; VStr "warnings"];
        "properties" =: VDict
          [ "total_records" =:
              typed "integer" "The total number of records found for the given search";
            "page" =:
              typed "integer" "The value of page that was used for the request";
            "limit" =:
              typed "integer" "The value of limit that was used for the request";
            "order" =:
              typed "string" "The value of order that was used for the request";
            "warnings" =: VDict
              [ "type" =: VStr "array";
                "items" =: VDict ["type" =: VStr "string"];
                "description" =: VStr
                  ("A list of warnings generated during execution. Any invalid search filters used "
                   ++ "will cause a warning to be generated, for example.") ] ] ];
    "Error" =: VDict
      [ "type" =: VStr "object";
        "required" =: VList [VStr "error_code"; VStr "detail"];
        "properties" =: VDict
          [ "error_code" =: typed "string" "CloudCIX error code for the error";
            "detail" =: typed "string" "Verbose version of the error message" ] ];
    "MultiError" =: VDict
      [ "description" =: VStr
          ("A map of field names to Error objects representing an error that was found with the data "
           ++ "supplied for that field");
        "type" =: VStr "object";
        "required" =: VList [VStr "errors"];
        "properties" =: VDict
          [ "errors" =: VDict
              [ "type" =: VStr "object";
                "additionalProperties" =: ref_to "#/components/schemas/Error" ] ] ] ].

Definition query_parameter (name description : string) (rest : dict) : pyval :=
  VDict ([ "name" =: VStr name; "in" =: VStr "query";
           "description" =: VStr description;
           "required" =: VBool false ] ++ rest).

Definition deep_object : dict :=
  [ "schema" =: VDict ["type" =: VStr "object"];
    "style" =: VStr "deepObject";
    "explode" =: VBool true ].

Definition DEFAULT_LIST_PARAMETERS : list pyval :=
  [ query_parameter "exclude"
      ("Filter the result to objects that do not match the specified filters. "
       ++ "Possible filters are outlined in the individual list method descriptions.")
      deep_object;
    query_parameter "limit"
      "The limit of the number of objects returned per page"
      [ "schema" =: VDict [ "type" =: VStr "number"; "minimum" =: VInt 0;
                            "maximum" =: VInt 100; "default" =: VInt 50 ] ];
    query_parameter "order"
      ("The field to use for ordering. Possible fields and the default are outlined in the "
       ++ "individual method descriptions.")
      [ "schema" =: VDict ["type" =: VStr "string"] ];
    query_parameter "page"
      "The page of records to return, assuming `limit` number of records per page."
      [ "schema" =: VDict [ "type" =: VStr "number"; "minimum" =: VInt 0;
                            "default" =: VInt 0 ] ];
    query_parameter "search"
      ("Filter the result to objects that match the specified filters. "
       ++ "Possible filters are outlined in the individual list method descriptions.")
      deep_object ].

End Defaults.
Import Defaults.

(** ** The declarations the generator walks over *)

Module Docgen.

(** What [yaml.safe_load(self.ensure_docstring(obj))] has to work with:
    the object has no docstring, or a docstring the YAML scanner rejects, or
    one that the scanner accepts and a later stage of the loader rejects
    (the parser, the composer, the constructor), or one that loads to a
    value. *)
Inductive docblock : Type :=
| NoDoc
| Malformed
| Unloadable
| Block (v : pyval).

(** A serpy serializer class: [__name__], [__doc__], the keys of
    [_field_map] in their order. *)
Record serializer : Type := {
  ser_name : string;
  ser_doc : docblock;
  field_map : list string
}.

(** A controller class: [__name__], [Meta.validation_order],
    [Meta.search_fields], [Meta.allowed_ordering] and the docstrings of
    the attributes the class has, by attribute name. *)
Record controller : Type := {
  ctl_name : string;
  validation_order : list string;
  search_fields : list (string * list string);
  allowed_ordering : list string;
  ctl_attrs : list (string * docblock)
}.

(** A view method: [__name__] and [__doc__]. *)
Record method : Type := {
  meth_name : string;
  meth_doc : docblock
}.

(** A view class: [__name__], [serializer_class] when it is set, and the
    attributes named after HTTP verbs. *)
Record view_class : Type := {
  cls_name : string;
  serializer_class : option serializer;
  cls_methods : list (string * method)
}.

(** A module as far as the generator looks at it: [__file__], [__doc__]. *)
Record pymodule : Type := {
  mod_file : string;
  mod_doc : option string
}.

(** A permission module: the methods of its [Permissions] class, when it
    has one, each with [__name__] and [__doc__]. *)
Record permission_file : Type := {
  Permissions : option (list (string * (string * option string)))
}.

Record urlpattern : Type := {
  lookup_str : string;
  pattern : string
}.

(** The application named on the command line, as the import machinery
    presents it: [module_name]; [module.__version__] when the attribute
    exists, and [module.__doc__]; the classes of [<module>.controllers] and
    of [<module>.serializers] by name; the modules among the attributes of
    [<module>.views] in the order of [dir()], and its view classes by name;
    the modules [import_module] finds for a dotted name; the permission
    modules by dotted name; and [<module>.urls.urlpatterns], each with its
    [lookup_str] and [str(pattern)]. *)
Record application : Type := {
  module_name : string;
  module_version : option pyval;
  module_doc : option string;
  controller_mod : list (string * controller);
  serializer_mod : list (string * serializer);
  view_files : list pymodule;
  view_module : list (string * view_class);
  importable : list (string * pymodule);
  permission_files : list (string * permission_file);
  urlpatterns : list urlpattern
}.

(** [getattr(obj, name, None)] on a table of attributes. *)
Fixpoint getattr {A : Type} (l : list (string * A)) (name : string) : option A :=
  match l with
  | [] => None
  | (n, x) :: r => if String.eqb name n then Some x else getattr r name
  end.

(** [obj[name] = x] on a table keyed by strings. *)
Fixpoint setitem {A : Type} (name : string) (x : A) (l : list (string * A))
  : list (string * A) :=
  match l with
  | [] => [(name, x)]
  | (n, y) :: r =>
      if String.eqb name n then (n, x) :: r else (n, y) :: setitem name x r
  end.

(** ** The [Command] object

    [errors] is the error flag; [info], [tags], [paths], [schemas],
    [servers] and [externalDocs] are the parts of [self.spec] that a run
    changes; the rest are the working references of the class.
    [method_spec] is the operation object the current method builds: in the
    source it is the very dictionary stored at
    [spec['paths'][url][method_name]], here [parse_view_method] writes it
    to that place when the method is done. *)
Record command : Type := mkCommand {
  errors : bool;
  info : dict;
  tags : list pyval;
  paths : list (string * list (string * dict));
  schemas : dict;
  servers : option pyval;
  externalDocs : option pyval;
  controller_class : option controller;
  get_is_list : bool;
  method_name : string;
  method_spec : dict;
  model_name : string;
  tag : string;
  url : string
}.

Definition with_errors (x : bool) (st : command) : command :=
  {| errors := x;
     info := info st;
     tags := tags st;
     paths := paths st;
     schemas := schemas st;
     servers := servers st;
     externalDocs := externalDocs st;
     controller_class := controller_class st;
     get_is_list := get_is_list st;
     method_name := method_name st;
     method_spec := method_spec st;
     model_name := model_name st;
     tag := tag st;
     url := url st |}.

Definition with_info (x : dict) (st : command) : command :=
  {| errors := errors st;
     info := x;
     tags := tags st;
     paths := paths st;
     schemas := schemas st;
     servers := servers st;
     externalDocs := externalDocs st;
     controller_class := controller_class st;
     get_is_list := get_is_list st;
     method_name := method_name st;
     method_spec := method_spec st;
     model_name := model_name st;
     tag := tag st;
     url := url st |}.

Definition with_tags (x : list pyval) (st : command) : command :=
  {| errors := errors st;
     info := info st;
     tags := x;
     paths := paths st;
     schemas := schemas st;
     servers := servers st;
     externalDocs := externalDocs st;
     controller_class := controller_class st;
     get_is_list := get_is_list st;
     method_name := method_name st;
     method_spec := method_spec st;
     model_name := model_name st;
     tag := tag st;
     url := url st |}.

Definition with_paths (x : list (string * list (string * dict))) (st : command) : command :=
  {| errors := errors st;
     info := info st;
     tags := tags st;
     paths := x;
     schemas := schemas st;
     servers := servers st;
     externalDocs := externalDocs st;
     controller_class := controller_class st;
     get_is_list := get_is_list st;
     method_name := method_name st;
     method_spec := method_spec st;
     model_name := model_name st;
     tag := tag st;
     url := url st |}.

Definition with_schemas (x : dict) (st : command) : command :=
  {| errors := errors st;
     info := info st;
     tags := tags st;
     paths := paths st;
     schemas := x;
     servers := servers st;
     externalDocs := externalDocs st;
     controller_class := controller_class st;
     get_is_list := get_is_list st;
     method_name := method_name st;
     method_spec := method_spec st;
     model_name := model_name st;
     tag := tag st;
     url := url st |}.

Definition with_servers (x : option pyval) (st : command) : command :=
  {| errors := errors st;
     info := info st;
     tags := tags st;
     paths := paths st;
     schemas := schemas st;
     servers := x;
     externalDocs := externalDocs st;
     controller_class := controller_class st;
     get_is_list := get_is_list st;
     method_name := method_name st;
     method_spec := method_spec st;
     model_name := model_name st;
     tag := tag st;
     url := url st |}.

Definition with_externalDocs (x : option pyval) (st : command) : command :=
  {| errors := errors st;
     info := info st;
     tags := tags st;
     paths := paths st;
     schemas := schemas st;
     servers := servers st;
     externalDocs := x;
     controller_class := controller_class st;
     get_is_list := get_is_list st;
     method_name := method_name st;
     method_spec := method_spec st;
     model_name := model_name st;
     tag := tag st;
     url := url st |}.

Definition with_controller_class (x : option controller) (st : command) : command :=
  {| errors := errors st;
     info := info st;
     tags := tags st;
     paths := paths st;
     schemas := schemas st;
     servers := servers st;
     externalDocs := externalDocs st;
     controller_class := x;
     get_is_list := get_is_list st;
     method_name := method_name st;
     method_spec := method_spec st;
     model_name := model_name st;
     tag := tag st;
     url := url st |}.

Definition with_get_is_list (x : bool) (st : command) : command :=
  {| errors := errors st;
     info := info st;
     tags := tags st;
     paths := paths st;
     schemas := schemas st;
     servers := servers st;
     externalDocs := externalDocs st;
     controller_class := controller_class st;
     get_is_list := x;
     method_name := method_name st;
     method_spec := method_spec st;
     model_name := model_name st;
     tag := tag st;
     url := url st |}.

Definition with_method_name (x : string) (st : command) : command :=
  {| errors := errors st;
     info := info st;
     tags := tags st;
     paths := paths st;
     schemas := schemas st;
     servers := servers st;
     externalDocs := externalDocs st;
     controller_class := controller_class st;
     get_is_list := get_is_list st;
     method_name := x;
     method_spec := method_spec st;
     model_name := model_name st;
     tag := tag st;
     url := url st |}.

Definition with_method_spec (x : dict) (st : command) : command :=
  {| errors := errors st;
     info := info st;
     tags := tags st;
     paths := paths st;
     schemas := schemas st;
     servers := servers st;
     externalDocs := externalDocs st;
     controller_class := controller_class st;
     get_is_list := get_is_list st;
     method_name := method_name st;
     method_spec := x;
     model_name := model_name st;
     tag := tag st;
     url := url st |}.

Definition with_model_name (x : string) (st : command) : command :=
  {| errors := errors st;
     info := info st;
     tags := tags st;
     paths := paths st;
     schemas := schemas st;
     servers := servers st;
     externalDocs := externalDocs st;
     controller_class := controller_class st;
     get_is_list := get_is_list st;
     method_name := method_name st;
     method_spec := method_spec st;
     model_name := x;
     tag := tag st;
     url := url st |}.

Definition with_tag (x : string) (st : command) : command :=
  {| errors := errors st;
     info := info st;
     tags := tags st;
     paths := paths st;
     schemas := schemas st;
     servers := servers st;
     externalDocs := externalDocs st;
     controller_class := controller_class st;
     get_is_list := get_is_list st;
     method_name := method_name st;
     method_spec := method_spec st;
     model_name := model_name st;
     tag := x;
     url := url st |}.

Definition with_url (x : string) (st : command) : command :=
  {| errors := errors st;
     info := info st;
     tags := tags st;
     paths := paths st;
     schemas := schemas st;
     servers := servers st;
     externalDocs := externalDocs st;
     controller_class := controller_class st;
     get_is_list := get_is_list st;
     method_name := method_name st;
     method_spec := method_spec st;
     model_name := model_name st;
     tag := tag st;
     url := x |}.

Definition set_errors (st : command) : command := with_errors true st.

(** *** State and exceptions *)

Definition M (A : Type) : Type := command -> result (A * command).

Definition ret {A : Type} (a : A) : M A := fun st => Ok (a, st).

Definition bind {A B : Type} (m : M A) (k : A -> M B) : M B :=
  fun st =>
    match m st with
    | Ok (a, st') => k a st'
    | Raise e => Raise e
    end.

Definition raise {A : Type} (e : exn) : M A := fun _ => Raise e.

Definition lift {A : Type} (r : result A) : M A :=
  fun st => match r with Ok a => Ok (a, st) | Raise e => Raise e end.

Definition get : M command := fun st => Ok (st, st).

Definition modify (f : command -> command) : M unit :=
  fun st => Ok (tt, f st).

(** [self.logger.error(...); self.errors = True] *)
Definition log_error : M unit := modify set_errors.

Definition rbind {A B : Type} (r : result A) (k : A -> result B) : result B :=
  match r with
  | Ok a => k a
  | Raise e => Raise e
  end.

Notation "x <- m ;; k" := (bind m (fun x => k))
  (at level 61, m at next level, right associativity).
Notation "' p <- m ;; k" := (bind m (fun p => k))
  (at level 61, p pattern, m at next level, right associativity).
Notation "m ;; k" := (bind m (fun _ => k))
  (at level 61, right associativity).
Notation "'do' x <- m ; k" := (rbind m (fun x => k))
  (at level 10, x name, m at level 100, k at level 200).

Fixpoint for_each {A : Type} (l : list A) (body : A -> M unit) : M unit :=
  match l with
  | [] => ret tt
  | x :: r => body x ;; for_each r body
  end.

Definition set_method_spec (ms : dict) : M unit := modify (with_method_spec ms).

(** [Command.ensure_docstring], for a docstring that is used as text. *)
Definition ensure_docstring (doc : option string) : M string :=
  match doc with
  | None => log_error ;; ret (doc_trim EmptyString)
  | Some d => ret (doc_trim d)
  end.

(** [yaml.safe_load(self.ensure_docstring(obj))]: an object without a
    docstring sets the error flag and loads the empty text, which is
    [None]; [ScannerError] is the exception the callers catch, and the one
    YAML error they catch: any other leaves the generator. *)
Inductive loaded : Type :=
| ScannerError
| Loaded (v : pyval).

Definition load_docstring (doc : docblock) : M loaded :=
  match doc with
  | NoDoc => log_error ;; ret (Loaded VNone)
  | Malformed => ret ScannerError
  | Unloadable => raise YAMLError
  | Block v => ret (Loaded v)
  end.

(** ** Response normalisation *)

Definition DEFAULT_RESPONSE_DESCRIPTIONS : list (string * string) :=
  [ ("200", "OK");
    ("201", "Created");
    ("204", "No Content");
    ("400", "Input data was invalid");
    ("401", "No or invalid token provided");
    ("403", "No permission for user");
    ("404", "One of the resources specified could not be found") ].

(** [str(code)[0] == c] *)
Definition first_char_is (c : ascii) (s : string) : result bool :=
  match s with
  | EmptyString => Raise IndexError
  | String c' _ => Ok (Ascii.eqb c' c)
  end.

(** The last loop of the body: every key whose value is ['none'] goes. *)
Definition drop_none (details : pyval) : result pyval :=
  match details with
  | VDict d => Ok (VDict (filter (fun kv => negb (py_eq_str (snd kv) "none")) d))
  | _ => Raise AttributeError
  end.

(** The body of the loop of [install_default_response_data] for one
    [code, details] pair: what [responses[code]] is when the round ends. *)
Definition normalize_response (method_name : string) (get_is_list : bool)
    (model_name : string) (code : key) (details : pyval) : result pyval :=
  let code_s := str_of_key code in
  do four <- first_char_is "4" code_s;
  do reuse <- (if four then do n <- py_len details; Ok (n =? 0) else Ok false);
  if reuse then Ok (ref_to ("#/components/responses/" ++ code_s))
  else
    do has_description <- py_contains "description" details;
    do details <-
      (if has_description then Ok details
       else py_setitem details "description"
              (VStr (match getattr DEFAULT_RESPONSE_DESCRIPTIONS code_s with
                     | Some d => d
                     | None => "none"
                     end)));
    do has_content <- py_contains "content" details;
    do details <-
      (if has_content then Ok details
       else if String.eqb code_s "201"
               || (String.eqb code_s "200"
                   && (negb (String.eqb method_name "get") || negb get_is_list))
       then py_setitem details "content"
              (json_content (ref_to ("#/components/schemas/" ++ model_name ++ "Response")))
       else if String.eqb code_s "200" && String.eqb method_name "get" && get_is_list
       then py_setitem details "content"
              (json_content (ref_to ("#/components/schemas/" ++ model_name ++ "List")))
       else Ok details);
    drop_none details.

(** [for code, details in responses.items()]: a round changes the entry
    it visits and no other, so the loop maps the entries in their order. *)
Fixpoint normalize_responses (method_name : string) (get_is_list : bool)
    (model_name : string) (responses : dict) : result dict :=
  match responses with
  | [] => Ok []
  | (code, details) :: rest =>
      do details' <- normalize_response method_name get_is_list model_name code details;
      do rest' <- normalize_responses method_name get_is_list model_name rest;
      Ok ((code, details') :: rest')
  end.

Definition UNAUTHORIZED : pyval := ref_to "#/components/responses/401".

(** [Command.install_default_response_data] *)
Definition install_default_response_data : M unit :=
  st <- get ;;
  let ms := dsetdefault (KStr "responses") (VDict []) (method_spec st) in
  match dget (KStr "responses") ms with
  | Some (VDict responses) =>
      responses' <- lift (normalize_responses (method_name st) (get_is_list st)
                            (model_name st) responses) ;;
      set_method_spec
        (dset (KStr "responses")
              (VDict (dset (KInt 401) UNAUTHORIZED responses')) ms)
  | _ => raise AttributeError
  end.

(** ** Partial update *)

Definition PATCH_NOTE : string :=
  NEWLINE ++ NEWLINE
  ++ "The difference between `PUT` and `PATCH` is that you do not have to send all of the "
  ++ "record's data in order to update it. Therefore, treat all of the Update schema as optional.".

(** [spec['paths'][url][verb] = operation] *)
Definition set_operation (verb : string) (operation : dict) : M unit :=
  st <- get ;;
  match getattr (paths st) (url st) with
  | None => raise KeyError
  | Some url_spec =>
      modify (with_paths (setitem (url st) (setitem verb operation url_spec) (paths st)))
  end.

(** [Command.parse_patch_method].  Values here are never changed in
    place, so [deepcopy] is the identity. *)
Definition parse_patch_method : M unit :=
  st <- get ;;
  match getattr (paths st) (url st) with
  | None => raise KeyError
  | Some url_spec =>
      match getattr url_spec "put" with
      | None => log_error
      | Some put_spec =>
          set_operation "patch" put_spec ;;
          match dget (KStr "description") put_spec with
          | None => log_error
          | Some description =>
              description' <- lift (py_iadd_str description PATCH_NOTE) ;;
              set_operation "patch" (dset (KStr "description") description' put_spec)
          end
      end
  end.

(** ** Path parameters *)

Definition path_param_data (param : string) (param_type : pyval) : dict :=
  [ "in" =: VStr "path";
    "required" =: VBool true;
    "name" =: VStr param;
    "schema" =: VDict ["type" =: param_type] ].

(** [self.method_spec['parameters'].append(param_data)] *)
Definition append_parameter (param_data : dict) : M unit :=
  st <- get ;;
  parameters <- lift (py_getitem (VDict (method_spec st)) "parameters") ;;
  parameters' <- lift (py_append parameters (VDict param_data)) ;;
  set_method_spec (dset (KStr "parameters") parameters' (method_spec st)).

(** The loop over the placeholders of the URL; the result is what is left
    of [path_params]. *)
Fixpoint path_params_loop (params : list string) (path_params : pyval) : M pyval :=
  match params with
  | [] => ret path_params
  | param :: rest =>
      '(details, remaining) <- lift (py_pop path_params param VNone) ;;
      let path_params := VDict remaining in
      if is_none details then log_error ;; path_params_loop rest path_params
      else
        '(param_type, details) <- lift (py_pop details "type" VNone) ;;
        if is_none param_type then log_error ;; path_params_loop rest path_params
        else
          append_parameter (dupdate (path_param_data param param_type) details) ;;
          path_params_loop rest path_params
  end.

(** [Command.parse_path_params] *)
Definition parse_path_params (path_params : pyval) : M unit :=
  st <- get ;;
  set_method_spec (dsetdefault (KStr "parameters") (VList []) (method_spec st)) ;;
  path_params <- path_params_loop (doc_findall (url st)) path_params ;;
  if py_ne_empty_dict path_params then
    keys <- lift (py_keys path_params) ;;
    _ <- lift (py_join_keys keys) ;;
    log_error
  else ret tt.

(** ** Input schemas *)

Definition request_body (operation schema_name : string) : pyval :=
  VDict [ "description" =: VStr ("Data required to " ++ operation ++ " a record");
          "required" =: VBool true;
          "content" =: json_content (ref_to ("#/components/schemas/" ++ schema_name)) ].

(** The loop over [Meta.validation_order].  [None] is the [return] that
    leaves [parse_input_schema] from inside the loop; otherwise the result
    is [schema['required']] and [schema['properties']]. *)
Fixpoint input_schema_loop (controller_class : controller) (fields : list string)
    (required : list pyval) (properties : dict)
  : M (option (list pyval * dict)) :=
  match fields with
  | [] => ret (Some (required, properties))
  | field :: rest =>
      match getattr (ctl_attrs controller_class) ("validate_" ++ field) with
      | None =>
          log_error ;; input_schema_loop controller_class rest required properties
      | Some validator =>
          loaded <- load_docstring validator ;;
          match loaded with
          | ScannerError =>
              log_error ;; input_schema_loop controller_class rest required properties
          | Loaded field_data =>
              generative <- lift (py_get field_data "generative" (VBool false)) ;;
              if py_truth generative
              then input_schema_loop controller_class rest required properties
              else
                match py_pop field_data "required" (VBool true) with
                | Raise AttributeError => log_error ;; ret None
                | Raise e => raise e
                | Ok (is_required, field_data) =>
                    st <- get ;;
                    let required :=
                      if py_truth is_required
                         && negb (String.eqb (method_name st) "patch")
                      then required ++ [VStr field] else required in
                    if negb (dmem (KStr "description") field_data
                             && dmem (KStr "type") field_data)
                       && negb (dmem (KStr "$ref") field_data)
                    then log_error ;; ret None
                    else
                      input_schema_loop controller_class rest required
                        (dset (KStr field) (VDict field_data) properties)
                end
          end
      end
  end.

Definition input_schema (required : list pyval) (properties : dict) : pyval :=
  VDict (["type" =: VStr "object"]
         ++ match required with
            | [] => []
            | _ => ["required" =: VList required]
            end
         ++ ["properties" =: VDict properties]).

(** [Command.parse_input_schema] *)
Definition parse_input_schema : M unit :=
  st <- get ;;
  match controller_class st with
  | None => raise AttributeError
  | Some cc =>
      let controller_name := ctl_name cc in
      let schema_name := replace "Controller" "" controller_name in
      let operation := if contains "Create" schema_name then "create" else "update" in
      set_method_spec
        (dset (KStr "requestBody") (request_body operation schema_name) (method_spec st)) ;;
      r <- input_schema_loop cc (validation_order cc) [] [] ;;
      match r with
      | None => ret tt
      | Some (required, properties) =>
          st <- get ;;
          modify (with_schemas
                    (dset (KStr schema_name) (input_schema required properties)
                          (schemas st)))
      end
  end.

(** ** Serializers *)

Definition key_value (k : key) : pyval :=
  match k with
  | KStr s => VStr s
  | KInt z => VInt z
  end.

Definition key_in (k : key) (ks : list key) : bool := existsb (key_eqb k) ks.

Definition key_remove (k : key) (ks : list key) : list key :=
  filter (fun k' => negb (key_eqb k k')) ks.

(** The three schemas [parse_serializer] registers for a model. *)
Definition register_schemas (model_name : string) (required : list key)
    (serializer_items : pyval) (schemas : dict) : dict :=
  let bare := ref_to ("#/components/schemas/" ++ model_name) in
  dset (KStr (model_name ++ "List"))
    (VDict [ "type" =: VStr "object";
             "properties" =: VDict
               [ "content" =: VDict ["type" =: VStr "array"; "items" =: bare];
                 "_metadata" =: ref_to "#/components/schemas/ListMetadata" ] ])
    (dset (KStr (model_name ++ "Response"))
       (VDict [ "type" =: VStr "object";
                "properties" =: VDict ["content" =: bare] ])
       (dset (KStr model_name)
          (VDict [ "type" =: VStr "object";
                   "required" =: VList (map key_value required);
                   "properties" =: serializer_items ])
          schemas)).

(** The loop over [serializer._field_map]; [sub] is
    [self.parse_sub_serializer] and the result is what is left of
    [doc_fields]. *)
Fixpoint reconcile_fields (sub : string -> pyval -> M unit)
    (serializer_name : string) (serializer_items : pyval)
    (fields : list string) (doc_fields : list key) : M (list key) :=
  match fields with
  | [] => ret doc_fields
  | field_name :: rest =>
      let continue := reconcile_fields sub serializer_name serializer_items rest in
      if contains "old_" field_name then continue doc_fields
      else if negb (key_in (KStr field_name) doc_fields)
      then log_error ;; continue doc_fields
      else
        let doc_fields := key_remove (KStr field_name) doc_fields in
        field_items <- lift (py_getitem serializer_items field_name) ;;
        has_ref <- lift (py_contains "$ref" field_items) ;;
        if negb has_ref then
          has_description <- lift (py_contains "description" field_items) ;;
          has_type <- lift (py_contains "type" field_items) ;;
          if negb has_description || negb has_type
          then log_error ;; continue doc_fields
          else
            type <- lift (py_getitem field_items "type") ;;
            if py_eq_str type "array" then
              has_items <- lift (py_contains "items" field_items) ;;
              if negb has_items then log_error ;; continue doc_fields
              else
                items <- lift (py_getitem field_items "items") ;;
                items_ref <- lift (py_contains "$ref" items) ;;
                if items_ref then
                  ref <- lift (py_getitem items "$ref") ;;
                  sub serializer_name ref ;;
                  continue doc_fields
                else continue doc_fields
            else continue doc_fields
        else
          ref <- lift (py_getitem field_items "$ref") ;;
          sub serializer_name ref ;;
          continue doc_fields
  end.

Section Generator.

Variable a : application.

(** [Command.parse_sub_serializer], with [parse] for
    [self.parse_serializer]. *)
Definition parse_sub_serializer_with (parse : option serializer -> M unit)
    (serializer : string) (ref : pyval) : M unit :=
  sub_serializer_name <- lift (py_last_segment ref) ;;
  if String.eqb serializer sub_serializer_name then ret tt
  else
    let sub_serializer :=
      getattr (serializer_mod a) (sub_serializer_name ++ "Serializer") in
    st <- get ;;
    let parent_model := model_name st in
    modify (with_model_name sub_serializer_name) ;;
    parse sub_serializer ;;
    modify (with_model_name parent_model).

(** [Command.parse_serializer].  [fuel] is the depth of calls the
    interpreter still allows: when it is used up the call raises
    [RecursionError], which nothing in the generator catches. *)
Fixpoint parse_serializer (fuel : nat) (serializer : option serializer) : M unit :=
  match fuel with
  | 0 => raise RecursionError
  | S fuel' =>
      match serializer with
      | None => ret tt
      | Some ser =>
          let serializer_name := ser_name ser in
          st <- get ;;
          if dmem (KStr (model_name st)) (schemas st) then ret tt
          else
            loaded <- load_docstring (ser_doc ser) ;;
            match loaded with
            | ScannerError => log_error
            | Loaded serializer_items =>
                match py_keys serializer_items with
                | Raise _ => log_error
                | Ok required =>
                    doc_fields <-
                      reconcile_fields
                        (parse_sub_serializer_with (parse_serializer fuel'))
                        serializer_name serializer_items (field_map ser) required ;;
                    if negb (List.length doc_fields =? 0) then
                      _ <- lift (py_join_keys doc_fields) ;;
                      log_error
                    else
                      st <- get ;;
                      modify (with_schemas
                                (register_schemas (model_name st) required
                                   serializer_items (schemas st)))
                end
            end
      end
  end.

Definition parse_sub_serializer (fuel : nat) : string -> pyval -> M unit :=
  parse_sub_serializer_with (parse_serializer fuel).

(** ** Module information *)

Definition set_info (k : string) (v : pyval) : M unit :=
  modify (fun st => with_info (dset (KStr k) v (info st)) st).

(** [Command.parse_module].  [module.__version__] can be missing, and
    what is not a string has no [split]: both are the [AttributeError]
    of the source; a string that does not split into three parts is its
    [ValueError]. *)
Definition parse_module : M unit :=
  set_info "title" (VStr (capitalise (module_name a))) ;;
  match module_version a with
  | Some (VStr version) =>
      if negb (List.length (split_on "." version) =? 3) then log_error
      else
        set_info "version" (VStr version) ;;
        doc <- ensure_docstring (module_doc a) ;;
        set_info "description" (VStr (strip doc)) ;;
        modify (with_servers
                  (Some (VList [VDict ["url" =: VStr ("https://" ++ module_name a
                                                      ++ ".api.cloudcix.com/")]]))) ;;
        modify (with_externalDocs
                  (Some (VDict [ "description" =: VStr "View Docs in JSON format";
                                 "url" =: VStr ("https://" ++ module_name a
                                                ++ ".api.cloudcix.com/documentation/") ])))
  | _ => log_error
  end.

(** [Command.get_tag_name] *)
Definition get_tag_name (service_file : pymodule) : string :=
  get_service_name (mod_file service_file).

(** [Command.parse_view_file] *)
Definition parse_view_file (view_file : pymodule) : M unit :=
  let name := get_tag_name view_file in
  doc <- ensure_docstring (mod_doc view_file) ;;
  st <- get ;;
  modify (with_tags (tags st ++ [VDict [ "name" =: VStr name;
                                        "description" =: VStr (strip doc) ]])).

(** ** Controllers *)

(** [Command.get_list_details] *)
Definition get_list_details (controller_class : controller) : string :=
  let all_filters :=
    join NEWLINE
      (map (fun fm : string * list string =>
              if 0 <? List.length (snd fm)
              then ("- " ++ fst fm ++ " (" ++ join ", " (snd fm) ++ ")")%string
              else ("- " ++ fst fm)%string)
           (search_fields controller_class)) in
  let all_orders :=
    join NEWLINE
      (match allowed_ordering controller_class with
       | [] => []
       | field :: rest =>
           ("- " ++ field ++ " (default)")%string
           :: map (fun f => ("- " ++ f)%string) rest
       end) in
  doc_trim
    (join NEWLINE
       [ "";
         "## Filtering";
         "The following fields and modifiers can be used to filter records from the list;";
         "";
         all_filters;
         "";
         "To search, simply add `?search[field]=value` to include records that match the request, or `?exclude[field]=value` to";
         "exclude them. To use modifiers, simply add `?search[field__modifier]` and `?exclude[field__modifier]`";
         "";
         "## Ordering";
         "The following fields can be used to order the results of the list;";
         "";
         all_orders;
         "";
         "To reverse the ordering, simply prepend a `-` character to the request. So `?order=field` orders by `field` in ascending";
         "order, while `?order=-field` orders in descending order instead.";
         "" ]).

(** [getattr(self.controller_mod, name, None)] for the name the method
    block gives, or the conventional one when it gives none; [getattr]
    takes a string only. *)
Definition find_controller (explicit_controller_name : pyval)
    (conventional : string) : result (option controller) :=
  match explicit_controller_name with
  | VNone => Ok (getattr (controller_mod a) conventional)
  | VStr name => Ok (getattr (controller_mod a) name)
  | _ => Raise TypeError
  end.

(** [Command.parse_controller] *)
Definition parse_controller (explicit_controller_name : pyval) : M unit :=
  st <- get ;;
  if String.eqb (method_name st) "get" && get_is_list st then
    cc <- lift (find_controller explicit_controller_name
                  (model_name st ++ "ListController")) ;;
    modify (with_controller_class cc) ;;
    described <-
      match cc with
      | None => ret true
      | Some c =>
          match dget (KStr "description") (method_spec st) with
          | None => log_error ;; ret false
          | Some description =>
              description' <-
                lift (py_iadd_str description
                        (NEWLINE ++ NEWLINE ++ get_list_details c)) ;;
              set_method_spec
                (dset (KStr "description") description' (method_spec st)) ;;
              ret true
          end
      end ;;
    if described then
      st <- get ;;
      let ms := dsetdefault (KStr "parameters") (VList []) (method_spec st) in
      parameters <- lift (py_getitem (VDict ms) "parameters") ;;
      parameters' <- lift (py_iadd_list parameters DEFAULT_LIST_PARAMETERS) ;;
      set_method_spec (dset (KStr "parameters") parameters' ms)
    else ret tt
  else if String.eqb (method_name st) "post" || String.eqb (method_name st) "put" then
    let controller_type :=
      if String.eqb (method_name st) "post" then "Create" else "Update" in
    cc <- lift (find_controller explicit_controller_name
                  (model_name st ++ controller_type ++ "Controller")) ;;
    modify (with_controller_class cc) ;;
    match cc with
    | None => ret tt
    | Some _ => parse_input_schema
    end
  else ret tt.

(** ** Permissions *)

Definition METHOD_NAME_MAP : list (string * string) :=
  [ ("put", "update"); ("patch", "update"); ("delete", "delete"); ("post", "create") ].

(** [Command.get_permission_details] *)
Definition get_permission_details (permission_method : string * option string)
  : M string :=
  perm_doc <- ensure_docstring (snd permission_method) ;;
  if contains " -" perm_doc then log_error ;; ret EmptyString
  else ret (doc_trim (join NEWLINE [""; "## Permissions"; perm_doc; ""])).

(** [Command.parse_permissions]; the permission module of a model is
    [<module_name>.permissions.<model_name.lower()>]. *)
Definition parse_permissions : M unit :=
  st <- get ;;
  match getattr (permission_files a)
          (module_name a ++ ".permissions." ++ lower (model_name st)) with
  | None => ret tt
  | Some permission_file =>
      perm_method_name <-
        (if String.eqb (method_name st) "get"
         then ret (if get_is_list st then "list" else "read")
         else match getattr METHOD_NAME_MAP (method_name st) with
              | Some n => ret n
              | None => raise KeyError
              end) ;;
      match match Permissions permission_file with
            | None => None
            | Some methods => getattr methods perm_method_name
            end with
      | None => ret tt
      | Some permission_method =>
          description <- lift (py_getitem (VDict (method_spec st)) "description") ;;
          details <- get_permission_details permission_method ;;
          description' <- lift (py_iadd_str description (NEWLINE ++ NEWLINE ++ details)) ;;
          set_method_spec (dset (KStr "description") description' (method_spec st))
      end
  end.

(** ** View methods, view classes, routes *)

(** [paths[url][method_name] = method_spec]: the operation object of
    the current method, put where the source keeps it all along. *)
Definition store_method_spec : M unit :=
  st <- get ;;
  set_operation (method_name st) (method_spec st).

(** [Command.parse_view_method] after the branch for [patch]. *)
Definition analyse_method (m : method) : M unit :=
  loaded <- load_docstring (meth_doc m) ;;
  match loaded with
  | ScannerError => log_error
  | Loaded (VDict method_doc) =>
      if negb (forallb (fun k => dmem (KStr k) method_doc)
                 ["summary"; "description"; "responses"])
      then log_error
      else
        st <- get ;;
        let ms := dupdate (method_spec st) method_doc in
        let path_params :=
          match dget (KStr "path_params") ms with
          | Some v => v
          | None => VDict []
          end in
        set_method_spec (ddel (KStr "path_params") ms) ;;
        parse_path_params path_params ;;
        st <- get ;;
        let controller_name :=
          match dget (KStr "controller") (method_spec st) with
          | Some v => v
          | None => VNone
          end in
        set_method_spec (ddel (KStr "controller") (method_spec st)) ;;
        parse_controller controller_name ;;
        parse_permissions ;;
        install_default_response_data
  | Loaded _ => raise AttributeError
  end.

(** [Command.parse_view_method] *)
Definition parse_view_method (m : method) : M unit :=
  st <- get ;;
  set_operation (method_name st) [] ;;
  set_method_spec ["tags" =: VList [VStr (tag st)]] ;;
  store_method_spec ;;
  if String.eqb (method_name st) "patch" then parse_patch_method
  else analyse_method m ;; store_method_spec.

Definition HTTP_METHOD_NAMES : list string :=
  ["get"; "post"; "put"; "patch"; "delete"].

(** [Command.parse_view_class] *)
Definition parse_view_class (fuel : nat) (vc : view_class) : M unit :=
  let class_name := cls_name vc in
  modify (with_get_is_list (contains "Collection" class_name)) ;;
  let model := replace "Resource" "" (replace "Collection" "" class_name) in
  modify (with_model_name model) ;;
  let serializer :=
    match serializer_class vc with
    | Some ser => Some ser
    | None => getattr (serializer_mod a) (model ++ "Serializer")
    end in
  parse_serializer fuel serializer ;;
  for_each HTTP_METHOD_NAMES
    (fun name =>
       match getattr (cls_methods vc) name with
       | None => ret tt
       | Some m =>
           modify (with_method_name (meth_name m)) ;;
           parse_view_method m
       end).

(** [Command.parse_urlpattern] *)
Definition parse_urlpattern (fuel : nat) (up : urlpattern) : M unit :=
  let parts := split_on "." (lookup_str up) in
  let view_class_name := last_or EmptyString parts in
  let view_file_str := join "." (removelast parts) in
  modify (with_url (get_url (pattern up))) ;;
  st <- get ;;
  modify (with_paths (setitem (url st) [] (paths st))) ;;
  match getattr (importable a) view_file_str with
  | None => raise ModuleNotFoundError
  | Some service_file =>
      modify (with_tag (get_tag_name service_file)) ;;
      match getattr (view_module a) view_class_name with
      | None => raise AttributeError
      | Some vc => parse_view_class fuel vc
      end
  end.

(** [Command.handle] up to the check of the error flag. *)
Definition handle (fuel : nat) : M unit :=
  parse_module ;;
  for_each (view_files a) parse_view_file ;;
  for_each (urlpatterns a) (parse_urlpattern fuel).

End Generator.

(** ** The document *)

(** The object at the start of [handle]: [self.spec] is [DEFAULT_SPEC]
    and no working reference is set. *)
Definition initial : command :=
  {| errors := false;
     info := DEFAULT_INFO;
     tags := [];
     paths := [];
     schemas := DEFAULT_SCHEMAS;
     servers := None;
     externalDocs := None;
     controller_class := None;
     get_is_list := false;
     method_name := EmptyString;
     method_spec := [];
     model_name := EmptyString;
     tag := EmptyString;
     url := EmptyString |}.

Definition paths_value (ps : list (string * list (string * dict))) : pyval :=
  VDict (map (fun p : string * list (string * dict) =>
                (KStr (fst p),
                 VDict (map (fun o : string * dict => (KStr (fst o), VDict (snd o)))
                            (snd p))))
             ps).

(** [self.spec] as [json.dump] receives it. *)
Definition document (st : command) : pyval :=
  VDict ([ "openapi" =: VStr "3.0.0";
           "info" =: VDict (info st);
           "tags" =: VList (tags st);
           "security" =: DEFAULT_SECURITY;
           "paths" =: paths_value (paths st);
           "components" =: VDict [ "responses" =: VDict DEFAULT_RESPONSES;
                                   "securitySchemes" =: VDict DEFAULT_SECURITY_SCHEMES;
                                   "schemas" =: VDict (schemas st) ] ]
         ++ match servers st with Some v => ["servers" =: v] | None => [] end
         ++ match externalDocs st with Some v => ["externalDocs" =: v] | None => [] end).

(** [sorted(dct.items())], which [json.dump(..., sort_keys=True)] calls
    on every mapping, compares the keys: it works on keys that are all text
    or all integers, and raises [TypeError] on a mapping that has both. *)
Definition sortable_keys (ks : list key) : bool :=
  forallb (fun k => match k with KStr _ => true | KInt _ => false end) ks
  || forallb (fun k => match k with KInt _ => true | KStr _ => false end) ks.

(** The values [json.dump(self.spec, f, sort_keys=True)] writes out. *)
Fixpoint dumpable (v : pyval) : bool :=
  match v with
  | VList l => forallb dumpable l
  | VDict d =>
      sortable_keys (map fst d)
      && forallb (fun kv : key * pyval => dumpable (snd kv)) d
  | _ => true
  end.

(** How a run ends: [handle] writes the document; or the error flag is set
    and it leaves through [sys.exit(1)] without writing; or an exception that
    nothing catches ends it, the [TypeError] of [json.dump] among them. *)
Inductive outcome : Type :=
| Written (doc : pyval)
| Failed
| Uncaught (e : exn).

Definition run (a : application) (fuel : nat) : outcome :=
  match handle a fuel initial with
  | Ok (_, st) =>
      if errors st then Failed
      else if dumpable (document st) then Written (document st)
      else Uncaught TypeError
  | Raise e => Uncaught e
  end.

End Docgen.
Import Docgen.

(** * Specifications and sample inputs *)

(** ** C6: the version check of the module resolver *)

(** The check [parse_module] makes on [module.__version__]. *)
Definition three_part_version (a : application) : bool :=
  match module_version a with
  | Some (VStr v) => List.length (split_on "." v) =? 3
  | _ => false
  end.

(** The check the specification words: three parts, each a number. *)
Definition is_digit (c : ascii) : bool :=
  let n := nat_of_ascii c in (48 <=? n) && (n <=? 57).

Fixpoint all_digits (s : string) : bool :=
  match s with
  | EmptyString => true
  | String c s' => is_digit c && all_digits s'
  end.

Definition three_numeric_components (v : string) : bool :=
  let parts := split_on "." v in
  (List.length parts =? 3)
  && forallb (fun p => negb (is_empty p) && all_digits p) parts.

Definition app_with_version (v : string) : application :=
  {| module_name := "widgets";
     module_version := Some (VStr v);
     module_doc := Some "Widget service";
     controller_mod := [];
     serializer_mod := [];
     view_files := [];
     view_module := [];
     importable := [];
     permission_files := [];
     urlpatterns := [] |}.

(** ** C9 and C7: response normalisation *)

Definition state_with_responses (verb : string) (is_list : bool) (model : string)
    (responses : dict) : command :=
  with_method_spec ["responses" =: VDict responses]
    (with_model_name model (with_get_is_list is_list (with_method_name verb initial))).

Definition final_state (r : result (unit * command)) : command :=
  match r with
  | Ok (_, st) => st
  | Raise _ => initial
  end.

Definition declared_401 : command :=
  state_with_responses "delete" false "Widget"
    [ (KInt 204, VDict []);
      (KInt 401, VDict ["description" =: VStr "Go away"; "content" =: VStr "none"]) ].

Definition widget_list_get : command :=
  state_with_responses "get" true "Widget" [(KInt 200, VDict []); (KInt 400, VDict [])].

(** A metadata block that writes the code 401 in quotes: YAML loads the key
    as text. *)
Definition quoted_401 : command :=
  state_with_responses "delete" false "Widget"
    [ (KStr "401", VDict ["description" =: VStr "Go away"]) ].

(** An application whose one handler declares its 401 response that way. *)
Definition quoted_views : pymodule :=
  {| mod_file := "/srv/widgets/views/widget.py"; mod_doc := Some "Widgets" |}.

Definition quoted_delete : method :=
  {| meth_name := "delete";
     meth_doc := Block (VDict
       [ "summary" =: VStr "Delete a widget";
         "description" =: VStr "Delete one widget by its id.";
         "path_params" =: VDict ["id" =: VDict ["type" =: VStr "integer"]];
         "responses" =: VDict
           [ (KStr "401", VDict ["description" =: VStr "Go away"]) ] ]) |}.

Definition quoted_app : application :=
  {| module_name := "widgets";
     module_version := Some (VStr "1.0.0");
     module_doc := Some "Widgets";
     controller_mod := [];
     serializer_mod := [];
     view_files := [quoted_views];
     view_module :=
       [ ("WidgetResource",
          {| cls_name := "WidgetResource";
             serializer_class := None;
             cls_methods := [("delete", quoted_delete)] |}) ];
     importable := [("widgets.views.widget", quoted_views)];
     permission_files := [];
     urlpatterns := [ {| lookup_str := "widgets.views.widget.WidgetResource";
                         pattern := "widget/<int:id>/" |} ] |}.

(** A response map whose codes are not the empty string and whose entries
    are mappings is normalised without an exception. *)
Definition plain_responses (responses : dict) : bool :=
  forallb (fun kv : key * pyval =>
             negb (is_empty (str_of_key (fst kv)))
             && match snd kv with VDict _ => true | _ => false end)
          responses.

(** ** C4: partial update *)




(** ** C5: path-parameter reconciliation *)

(** The reconciliation in the words of the specification. *)









Definition declared_parameters (ms : dict) : option (list pyval) :=
  match dget (KStr "parameters") ms with
  | None => Some []
  | Some (VList l) => Some l
  | Some _ => None
  end.


(** ** C8: errors while an input schema is built *)

(** The result of a run with the state it ends in changed by [g]. *)
Definition map_state {A : Type} (g : command -> command) (r : result (A * command))
  : result (A * command) :=
  match r with
  | Ok (x, st) => Ok (x, g st)
  | Raise e => Raise e
  end.

(** The result of a run with the error flag set on the state it ends in. *)
Definition mark_error {A : Type} (r : result (A * command)) : result (A * command) :=
  map_state set_errors r.

(** A field whose validator is missing, or whose metadata block the YAML
    scanner rejects. *)
Definition unusable_field (cc : controller) (field : string) : bool :=
  match getattr (ctl_attrs cc) ("validate_" ++ field) with
  | None => true
  | Some Malformed => true
  | Some _ => false
  end.

(** The controller [cc] with another validation order. *)
Definition with_validation_order (order : list string) (cc : controller) : controller :=
  {| ctl_name := ctl_name cc;
     validation_order := order;
     search_fields := search_fields cc;
     allowed_ordering := allowed_ordering cc;
     ctl_attrs := ctl_attrs cc |}.

Definition widget_update : controller :=
  {| ctl_name := "WidgetUpdateController";
     validation_order := [];
     search_fields := [];
     allowed_ordering := [];
     ctl_attrs :=
       [ ("validate_name", Block (typed "string" "The name of the widget"));
         ("validate_colour", Malformed);
         ("validate_size", Block (VDict [ "description" =: VStr "The size";
                                          "type" =: VStr "integer";
                                          "required" =: VBool false ])) ] |}.

Definition widget_put_state : command :=
  with_method_spec ["tags" =: VList [VStr "Widget"]]
    (with_model_name "Widget" (with_method_name "put" initial)).

(** ** C2: registration twice, and declarations that refer to themselves *)

(** A category whose documentation refers to the schema of the category
    itself, and a folder whose documentation has an array of folders; both
    are found under the conventional name in the serializer module. *)
Definition category_serializer : serializer :=
  {| ser_name := "CategorySerializer";
     ser_doc := Block (VDict [ "id" =: typed "integer" "The id of the category";
                               "parent" =: ref_to "#/components/schemas/Category" ]);
     field_map := ["id"; "parent"] |}.

Definition folder_serializer : serializer :=
  {| ser_name := "FolderSerializer";
     ser_doc := Block (VDict [ "name" =: typed "string" "The name of the folder";
                               "children" =: VDict
                                 [ "description" =: VStr "The folders inside";
                                   "type" =: VStr "array";
                                   "items" =: ref_to "#/components/schemas/Folder" ] ]);
     field_map := ["name"; "children"] |}.

Definition tree_views : pymodule :=
  {| mod_file := "/srv/shop/views/tree.py"; mod_doc := Some "Trees" |}.

Definition tree_list : method :=
  {| meth_name := "get";
     meth_doc := Block (VDict [ "summary" =: VStr "List the records";
                                "description" =: VStr "Every record, page by page.";
                                "responses" =: VDict [(KInt 200, VDict [])] ]) |}.

(** An application with one route, to the collection view of [model], and
    one serializer, under the conventional name. *)
Definition tree_app (model : string) (ser : serializer) : application :=
  {| module_name := "shop";
     module_version := Some (VStr "1.0.0");
     module_doc := Some "Shop";
     controller_mod := [];
     serializer_mod := [((model ++ "Serializer")%string, ser)];
     view_files := [tree_views];
     view_module :=
       [ ((model ++ "Collection")%string,
          {| cls_name := (model ++ "Collection")%string;
             serializer_class := None;
             cls_methods := [("get", tree_list)] |}) ];
     importable := [("shop.views.tree", tree_views)];
     permission_files := [];
     urlpatterns := [ {| lookup_str := ("shop.views.tree." ++ model ++ "Collection")%string;
                         pattern := (lower model ++ "/")%string |} ] |}.

(** A widget whose documentation refers to the schema of its owner, a
    declaration of its own. *)
Definition owner_serializer : serializer :=
  {| ser_name := "OwnerSerializer";
     ser_doc := Block (VDict [ "name" =: typed "string" "The name of the owner" ]);
     field_map := ["name"] |}.

Definition owned_widget_serializer : serializer :=
  {| ser_name := "WidgetSerializer";
     ser_doc := Block (VDict [ "id" =: typed "integer" "The id of the widget";
                               "owner" =: ref_to "#/components/schemas/Owner" ]);
     field_map := ["id"; "owner"] |}.

Definition owned_widget_app : application :=
  {| module_name := "widgets";
     module_version := Some (VStr "1.0.0");
     module_doc := Some "Widgets";
     controller_mod := [];
     serializer_mod := [ ("WidgetSerializer", owned_widget_serializer);
                         ("OwnerSerializer", owner_serializer) ];
     view_files := [];
     view_module := [];
     importable := [];
     permission_files := [];
     urlpatterns := [] |}.

(** ** C1: implemented fields against documented keys *)

(** The fields a serializer implements, without those kept for backwards
    compatibility. *)
Definition implemented (fields : list string) : list string :=
  filter (fun f => negb (contains "old_" f)) fields.

(** Some implemented field is not a documented key. *)
Definition undocumented (ser : serializer) (documented : list key) : bool :=
  existsb (fun f => negb (key_in (KStr f) documented)) (implemented (field_map ser)).

(** Some documented key is not an implemented field. *)
Definition unimplemented (ser : serializer) (documented : list key) : bool :=
  existsb (fun k => negb (key_in k (map KStr (implemented (field_map ser))))) documented.

(** A declaration whose documentation is a mapping with no key that is not
    implemented: the only kind [parse_serializer] registers schemas for. *)
Definition complete (ser : serializer) : bool :=
  match ser_doc ser with
  | Block (VDict items) => negb (unimplemented ser (dkeys items))
  | _ => false
  end.

Fixpoint take (n : nat) (s : string) : string :=
  match n, s with
  | S k, String c s' => String c (take k s')
  | _, _ => EmptyString
  end.

(** The model a serializer of the serializer module is looked up for:
    its attribute name without the ending "Serializer". *)
Definition base_of (attribute : string) : string :=
  take (String.length attribute - String.length "Serializer") attribute.

(** The three keys under which the schemas of a model are registered. *)
Definition is_name_of (model : string) (k : key) : bool :=
  key_eqb k (KStr model)
  || key_eqb k (KStr (model ++ "Response"))
  || key_eqb k (KStr (model ++ "List")).

(** No complete declaration of the serializer module is looked up for a
    model whose schemas would be registered under the name [model]. *)
Definition no_other_source (a : application) (model : string) : bool :=
  forallb (fun entry : string * serializer =>
             negb (complete (snd entry))
             || negb (is_name_of (base_of (fst entry)) (KStr model)))
          (serializer_mod a).

(** A key that a complete declaration of the serializer module accounts
    for. *)
Definition produced (a : application) (k : key) : Prop :=
  exists n ser, In (n, ser) (serializer_mod a)
                /\ complete ser = true
                /\ is_name_of (base_of n) k = true.

(** What a call leaves of the state it started in: the current model is the
    same, the error flag is not taken back, and every key of the registry is
    an old one, or comes from the serializer module, or is one of [own]. *)
Definition extends (a : application) (own : key -> Prop) (st st' : command) : Prop :=
  model_name st' = model_name st
  /\ (errors st = true -> errors st' = true)
  /\ forall k, dmem k (schemas st') = true ->
               dmem k (schemas st) = true \/ produced a k \/ own k.

Definition nothing : key -> Prop := fun _ => False.

(** The keys of the declaration a call of [parse_serializer] is given. *)
Definition own_keys (so : option serializer) (model : string) : key -> Prop :=
  fun k => exists ser, so = Some ser /\ complete ser = true
                       /\ is_name_of model k = true.

(** What the loop asks of [parse_sub_serializer], and what
    [parse_sub_serializer] asks of [parse_serializer]. *)
Definition sub_ok (a : application) (sub : string -> pyval -> M unit) : Prop :=
  forall name ref st st', sub name ref st = Ok (tt, st') -> extends a nothing st st'.

Definition parse_ok (a : application) (parse : option serializer -> M unit) : Prop :=
  forall so st st',
    parse so st = Ok (tt, st') -> extends a (own_keys so (model_name st)) st st'.

(** A widget that documents [name] and does not implement it. *)
Definition widget_missing_field : serializer :=
  {| ser_name := "WidgetSerializer";
     ser_doc := Block (VDict [ "id" =: typed "integer" "The id of the widget";
                               "name" =: typed "string" "The name of the widget" ]);
     field_map := ["id"] |}.

(** A widget that implements [name] and does not document it. *)
Definition widget_missing_doc : serializer :=
  {| ser_name := "WidgetSerializer";
     ser_doc := Block (VDict [ "id" =: typed "integer" "The id of the widget" ]);
     field_map := ["id"; "name"] |}.

Definition widget_app (ser : serializer) : application :=
  {| module_name := "widgets";
     module_version := Some (VStr "1.0.0");
     module_doc := Some "Widgets";
     controller_mod := [];
     serializer_mod := [("WidgetSerializer", ser)];
     view_files := [];
     view_module := [];
     importable := [];
     permission_files := [];
     urlpatterns := [] |}.

Definition widget_state : command := with_model_name "Widget" initial.

(** ** C3: references and the components area *)

(** Every string stored under the key [$ref], anywhere in a value. *)
Fixpoint refs_of (v : pyval) : list string :=
  match v with
  | VList l => flat_map refs_of l
  | VDict d =>
      flat_map (fun kv : key * pyval =>
                  let (k, x) := kv in
                  match k, x with
                  | KStr "$ref", VStr target => [target]
                  | _, _ => []
                  end ++ refs_of x) d
  | _ => []
  end.

(** The value a path of keys leads to; a key of the document is compared by
    the text it has in the JSON output. *)
Fixpoint walk (segments : list string) (v : pyval) : bool :=
  match segments with
  | [] => true
  | s :: rest =>
      match v with
      | VDict d =>
          match find (fun kv : key * pyval => String.eqb (str_of_key (fst kv)) s) d with
          | Some (_, x) => walk rest x
          | None => false
          end
      | _ => false
      end
  end.

(** A reference [#/a/b/c] resolves in a document that has a value at
    [a], [b], [c]. *)
Definition resolves (doc : pyval) (ref : string) : bool :=
  match split_on "/" ref with
  | "#" :: segments => walk segments doc
  | _ => false
  end.


(** A handler without a field-mapping declaration. *)
Definition gadget_views : pymodule :=
  {| mod_file := "/srv/gadgets/views/gadget.py"; mod_doc := Some "Gadgets" |}.

Definition gadget_read : method :=
  {| meth_name := "get";
     meth_doc := Block (VDict
       [ "summary" =: VStr "Read a gadget";
         "description" =: VStr "Fetch one gadget by its id.";
         "path_params" =: VDict ["id" =: VDict ["type" =: VStr "integer"]];
         "responses" =: VDict [(KInt 200, VDict [])] ]) |}.

Definition gadget_app : application :=
  {| module_name := "gadgets";
     module_version := Some (VStr "1.0.0");
     module_doc := Some "Gadgets";
     controller_mod := [];
     serializer_mod := [];
     view_files := [gadget_views];
     view_module :=
       [ ("GadgetResource",
          {| cls_name := "GadgetResource";
             serializer_class := None;
             cls_methods := [("get", gadget_read)] |}) ];
     importable := [("gadgets.views.gadget", gadget_views)];
     permission_files := [];
     urlpatterns := [ {| lookup_str := "gadgets.views.gadget.GadgetResource";
                         pattern := "gadget/<int:id>/" |} ] |}.


Definition widget_put_ready : command :=
  with_controller_class (Some (with_validation_order ["name"; "size"] widget_update))
    widget_put_state.

(** ** C10: [doc_trim] applied twice *)

Fixpoint all_chars (p : ascii -> bool) (s : string) : bool :=
  match s with
  | EmptyString => true
  | String c s' => p c && all_chars p s'
  end.

(** A character that is neither a line boundary nor a tab. *)
Definition plain_char (c : ascii) : bool :=
  negb (is_linebreak c) && negb (Ascii.eqb c TAB).

Definition no_tab (s : string) : bool := all_chars (fun c => negb (Ascii.eqb c TAB)) s.
Definition plain (s : string) : bool := all_chars plain_char s.
Definition blank (s : string) : bool := all_chars is_space s.

(** The number of white-space characters a line starts with. *)
Fixpoint leading (s : string) : nat :=
  match s with
  | EmptyString => 0
  | String c s' => if is_space c then S (leading s') else 0
  end.

Fixpoint count_lf (s : string) : nat :=
  match s with
  | EmptyString => 0
  | String c s' => (if Ascii.eqb c LF then 1 else 0) + count_lf s'
  end.

(** A line as [doc_trim] leaves it: plain, and not ending in white space. *)
Definition trimmed_line (s : string) : Prop := plain s = true /\ rstrip s = s.

(** ** What a computation establishes *)

(** [post m st Q]: when [m] returns from the state [st], its result and the
    state it ends in satisfy [Q].  Nothing is said of a run that an exception
    ends. *)
Definition post {A : Type} (m : M A) (st : command) (Q : A -> command -> Prop) : Prop :=
  match m st with
  | Ok (x, st') => Q x st'
  | Raise _ => True
  end.

(** What the work on one view class leaves of the state [st0]: the error
    flag is not taken back, no schema is taken out of the registry, the
    module information, the tags and the routes are the same. *)
Definition carried (st0 st : command) : Prop :=
  (errors st0 = true -> errors st = true)
  /\ (forall k, dmem k (schemas st0) = true -> dmem k (schemas st) = true)
  /\ info st = info st0
  /\ tags st = tags st0
  /\ servers st = servers st0
  /\ externalDocs st = externalDocs st0
  /\ map fst (paths st) = map fst (paths st0)
  /\ url st = url st0
  /\ tag st = tag st0.

(** ** The document as a whole *)

(** The tag [parse_view_file] appends for a view file. *)
Definition tag_entry (view_file : pymodule) : pyval :=
  VDict [ "name" =: VStr (get_tag_name view_file);
          "description" =:
            VStr (strip (doc_trim (match mod_doc view_file with
                                   | Some d => d
                                   | None => EmptyString
                                   end))) ].

(** The path [parse_urlpattern] opens for a route. *)
Definition route_url (up : urlpattern) : string := get_url (pattern up).

(** What a route leaves of the state [st0]: as [carried], but for the
    routes, the current URL and the current tag. *)
Definition kept (st0 st : command) : Prop :=
  (errors st0 = true -> errors st = true)
  /\ (forall k, dmem k (schemas st0) = true -> dmem k (schemas st) = true)
  /\ info st = info st0
  /\ tags st = tags st0
  /\ servers st = servers st0
  /\ externalDocs st = externalDocs st0.

(** A run that did not write a document. *)
Definition not_written (o : outcome) : bool :=
  match o with
  | Written _ => false
  | _ => true
  end.

(** ** Serializers: what a call leaves alone *)

(** The state [st] is [st0] but for the error flag and the registry of
    schemas. *)
Definition untouched (st0 st : command) : Prop :=
  st = with_schemas (schemas st) (with_errors (errors st) st0).

(** ** Text helpers *)

(** A text of one line: no line boundary and no tab in it, and not only
    white space. *)
Definition one_line (s : string) : bool := plain s && negb (blank s).

(** An ASCII letter or digit, and a word made of them. *)
Definition is_alnum (c : ascii) : bool := is_lower c || is_upper c || is_digit c.

Definition word (w : string) : bool := negb (is_empty w) && all_chars is_alnum w.

(** ** Routes and their placeholders *)

(** A route as [DJANGO_PATH_PARAM_PATTERN] cuts it up: the matches of the
    pattern, and the characters between them. *)
Inductive token : Type :=
| Lit (c : ascii)
| Param (full name : string).

Fixpoint scan_from (skip : nat) (s : string) : list token :=
  match s with
  | EmptyString => []
  | String c s' =>
      match skip with
      | S k => scan_from k s'
      | 0 =>
          match match_django s with
          | Some (full, name) => Param full name :: scan_from (String.length full - 1) s'
          | None => Lit c :: scan_from 0 s'
          end
      end
  end.

(** The text of a token, and the text it has when the matches listed in
    [done] have been replaced. *)
Definition text_of (t : token) : string :=
  match t with
  | Lit c => String c EmptyString
  | Param full _ => full
  end.

Definition render (done : list string) (t : token) : string :=
  match t with
  | Lit c => String c EmptyString
  | Param full name =>
      if existsb (String.eqb full) done then String "{" (name ++ "}") else full
  end.

Definition flat (f : token -> string) (toks : list token) : string :=
  String.concat EmptyString (map f toks).

Definition params (toks : list token) : list (string * string) :=
  flat_map (fun t => match t with
                     | Lit _ => []
                     | Param full name => [(full, name)]
                     end) toks.

(** A match of the pattern: [<conv:name>] with a converter of lower-case
    letters and a name of lower-case letters and underscores. *)
Definition placeholder (full name : string) : Prop :=
  exists conv,
    full = String "<" (conv ++ String ":" (name ++ ">"))
    /\ conv <> EmptyString /\ all_chars is_lower conv = true
    /\ name <> EmptyString /\ all_chars is_name_char name = true.

(** A list of tokens as a scan leaves it: no match of the pattern begins
    at a character that stands for itself. *)
Inductive scanned : list token -> Prop :=
| scanned_nil : scanned []
| scanned_lit (c : ascii) (r : list token) :
    match_django (String c (flat text_of r)) = None ->
    scanned r -> scanned (Lit c :: r)
| scanned_param (full name : string) (r : list token) :
    placeholder full name -> scanned r -> scanned (Param full name :: r).

(** No opening brace in a route. *)
Definition no_brace (s : string) : bool :=
  all_chars (fun c => negb (Ascii.eqb c "{")) s.

(** The text of a token when every match has been replaced. *)
Definition braced (t : token) : string :=
  match t with
  | Lit c => String c EmptyString
  | Param _ name => String "{" (name ++ "}")
  end.

(** ** The details of a list controller *)

(** The lines [get_list_details] makes of the search fields and of the
    allowed orders. *)
Definition filter_lines (controller_class : controller) : list string :=
  map (fun fm : string * list string =>
         if 0 <? List.length (snd fm)
         then ("- " ++ fst fm ++ " (" ++ join ", " (snd fm) ++ ")")%string
         else ("- " ++ fst fm)%string)
      (search_fields controller_class).

Definition order_lines (controller_class : controller) : list string :=
  match allowed_ordering controller_class with
  | [] => []
  | field :: rest =>
      ("- " ++ field ++ " (default)")%string :: map (fun f => ("- " ++ f)%string) rest
  end.

(** The text of the template, with the filters and the orders in their
    places. *)
Definition list_details (all_filters all_orders : string) : list string :=
  [ "## Filtering";
    "The following fields and modifiers can be used to filter records from the list;";
    "";
    all_filters;
    "";
    "To search, simply add `?search[field]=value` to include records that match the request, or `?exclude[field]=value` to";
    "exclude them. To use modifiers, simply add `?search[field__modifier]` and `?exclude[field__modifier]`";
    "";
    "## Ordering";
    "The following fields can be used to order the results of the list;";
    "";
    all_orders;
    "";
    "To reverse the ordering, simply prepend a `-` character to the request. So `?order=field` orders by `field` in ascending";
    "order, while `?order=-field` orders in descending order instead." ].

(** A name without white space in it; and a controller whose field names
    are such names and whose modifiers are texts of one line. *)
Definition spaceless (w : string) : bool :=
  negb (is_empty w) && all_chars (fun c => negb (is_space c)) w.

Definition clean_controller (controller_class : controller) : bool :=
  forallb (fun fm : string * list string => spaceless (fst fm) && forallb plain (snd fm))
          (search_fields controller_class)
  && forallb spaceless (allowed_ordering controller_class).

(** ** Response normalisation: the other codes *)

(** A mapping in which the text [none] is the value of no key. *)
Definition without_none (details : pyval) : Prop :=
  exists d, details = VDict d
            /\ Forall (fun kv : key * pyval => snd kv <> VStr "none") d.


(** ** Input schemas: what is registered *)

(** A property as [parse_input_schema] stores it: a mapping without the
    key [required], with a description and a type or with a reference. *)
Definition documented_property (v : pyval) : Prop :=
  exists fd, v = VDict fd
    /\ dmem (KStr "required") fd = false
    /\ ((dmem (KStr "description") fd = true /\ dmem (KStr "type") fd = true)
        \/ dmem (KStr "$ref") fd = true).

(** The required names and the properties of an input schema agree with
    each other and with the validation order. *)
Definition sound_input_schema (order : list string) (required : list pyval)
    (properties : dict) : Prop :=
  Forall (fun r => exists f, r = VStr f /\ In f order
                             /\ dmem (KStr f) properties = true) required
  /\ Forall (fun kv : key * pyval =>
               (exists f, fst kv = KStr f /\ In f order)
               /\ documented_property (snd kv)) properties.

(** A field whose validator is documented as generative. *)
Definition generative_field (cc : controller) (field : string) : bool :=
  match getattr (ctl_attrs cc) ("validate_" ++ field) with
  | Some (Block (VDict d)) =>
      py_truth (match dget (KStr "generative") d with
                | Some x => x
                | None => VBool false
                end)
  | _ => false
  end.

Definition widget_create : controller :=
  {| ctl_name := "WidgetCreateController";
     validation_order := ["name"; "slug"; "size"];
     search_fields := [];
     allowed_ordering := [];
     ctl_attrs :=
       [ ("validate_name", Block (typed "string" "The name of the widget"));
         ("validate_slug", Block (VDict [ "description" =: VStr "Made of the name";
                                          "generative" =: VBool true ]));
         ("validate_size", Block (VDict [ "description" =: VStr "The size";
                                          "type" =: VStr "integer";
                                          "required" =: VBool false ])) ] |}.

Definition widget_post_state : command :=
  with_controller_class (Some widget_create)
    (with_method_spec ["tags" =: VList [VStr "Widget"]]
       (with_model_name "Widget" (with_method_name "post" initial))).

(** ** View methods *)

(** A docstring that does not load to a mapping: there is none, or it
    loads to a scalar or a list. *)
Definition not_a_mapping (d : docblock) : bool :=
  match d with
  | NoDoc => true
  | Malformed => false
  | Unloadable => false
  | Block (VDict _) => false
  | Block _ => true
  end.

(** The keys a method block has to have. *)
Definition has_necessary_keys (method_doc : dict) : bool :=
  forallb (fun k => dmem (KStr k) method_doc) ["summary"; "description"; "responses"].

(** A route whose path is open, before the method [verb] is parsed. *)
Definition widget_route (verb : string) : command :=
  with_paths [("/widget/", [])]
    (with_url "/widget/"
       (with_tag "Widget"
          (with_model_name "Widget"
             (with_get_is_list true (with_method_name verb initial))))).

Definition widget_list_controller : controller :=
  {| ctl_name := "WidgetListController";
     validation_order := [];
     search_fields := [("name", ["icontains"]); ("size", [])];
     allowed_ordering := ["name"; "size"];
     ctl_attrs := [] |}.

Definition widget_controllers : application :=
  {| module_name := "widgets";
     module_version := Some (VStr "1.0.0");
     module_doc := Some "Widgets";
     controller_mod := [("WidgetListController", widget_list_controller)];
     serializer_mod := [];
     view_files := [];
     view_module := [];
     importable := [];
     permission_files := [];
     urlpatterns := [] |}.

Definition widget_list_state : command :=
  with_method_spec
    [ "tags" =: VList [VStr "Widget"];
      "summary" =: VStr "List the widgets";
      "description" =: VStr "Every widget, page by page.";
      "responses" =: VDict [(KInt 200, VDict [])];
      "parameters" =: VList [] ]
    (widget_route "get").

(** ** Permissions and routes *)

(** The method of the [Permissions] class that goes with the current view
    method. *)
Definition permission_method_name (st : command) : option string :=
  if String.eqb (method_name st) "get"
  then Some (if get_is_list st then "list" else "read")
  else getattr METHOD_NAME_MAP (method_name st).

(** The state in which [parse_urlpattern] hands a route over to
    [parse_view_class]. *)
Definition route_entered (up : urlpattern) (service_file : pymodule) (st : command)
  : command :=
  with_tag (get_tag_name service_file)
    (with_paths (setitem (route_url up) [] (paths st))
       (with_url (route_url up) st)).

(** A permission method whose docstring begins on the line after the
    quotes and is indented. *)
Definition widget_list_permission : string :=
  join NEWLINE [ "";
                 "        The request is valid if the user is a member of the address.";
                 "        " ].

Definition widget_permissions : application :=
  {| module_name := "widgets";
     module_version := Some (VStr "1.0.0");
     module_doc := Some "Widgets";
     controller_mod := [];
     serializer_mod := [];
     view_files := [];
     view_module := [("WidgetCollection",
                      {| cls_name := "WidgetCollection";
                         serializer_class := None;
                         cls_methods := [] |})];
     importable := [("widgets.views.widget",
                     {| mod_file := "/srv/widgets/views/widget.py";
                        mod_doc := Some "Widgets" |})];
     permission_files :=
       [ ("widgets.permissions.widget",
          {| Permissions := Some [("list", ("list", Some widget_list_permission))] |}) ];
     urlpatterns := [] |}.

(** ** The default components *)

(** The references the generator places on its own account: to the
    shared responses, to the metadata of a list, and those that the default
    responses and the default schemas hold. *)
Definition own_references : list string :=
  [ "#/components/responses/400"; "#/components/responses/401";
    "#/components/responses/403"; "#/components/responses/404";
    "#/components/schemas/ListMetadata" ]
  ++ refs_of (VDict DEFAULT_RESPONSES) ++ refs_of (VDict DEFAULT_SCHEMAS).

(** ** C3: the references of a written document *)



(** The name under which [parse_input_schema] registers the schema of a
    controller, and the operation it names in the request body. *)
Definition input_schema_name (cc : controller) : string :=
  replace "Controller" "" (ctl_name cc).

Definition input_operation (cc : controller) : string :=
  if contains "Create" (input_schema_name cc) then "create" else "update".

(** A method of a view class of the application. *)
Definition handler (a : application) (m : method) : Prop :=
  exists cname vc verb, In (cname, vc) (view_module a) /\ In (verb, m) (cls_methods vc).

(** A request body that the metadata block of a handler declares itself:
    [method_spec.update(method_doc)] copies it as it is. *)
Definition declared (a : application) (rb : pyval) : Prop :=
  exists m d, handler a m /\ meth_doc m = Block (VDict d)
              /\ In (KStr "requestBody", rb) d.








(** What the run keeps true of the request bodies.  An operation is in
    order when its request body, if it has one, is declared by a handler or
    built for a controller whose schema is registered. *)
Definition body_ok (a : application) (registry : dict) (operation : dict) : Prop :=
  forall rb, dget (KStr "requestBody") operation = Some rb ->
    declared a rb
    \/ exists cname cc, In (cname, cc) (controller_mod a)
         /\ rb = request_body (input_operation cc) (input_schema_name cc)
         /\ dmem (KStr (input_schema_name cc)) registry = true.

(** As long as no error is recorded, the operations of the paths and the
    operation under construction are in order. *)
Definition sound (a : application) (st : command) : Prop :=
  errors st = false ->
  (forall u ops verb op, In (u, ops) (paths st) -> In (verb, op) ops ->
                         body_ok a (schemas st) op)
  /\ body_ok a (schemas st) (method_spec st).

(** Every key of the registry is accounted for: a default schema, the
    input schema of a controller, or one of the three schemas of a model that
    are all there. *)
Definition accounted (a : application) (registry : dict) (k : key) : Prop :=
  dmem k DEFAULT_SCHEMAS = true
  \/ (exists cname cc, In (cname, cc) (controller_mod a)
                       /\ k = KStr (input_schema_name cc))
  \/ (exists model, is_name_of model k = true
                    /\ dmem (KStr model) registry = true
                    /\ dmem (KStr (model ++ "Response")) registry = true
                    /\ dmem (KStr (model ++ "List")) registry = true).

Definition triples (a : application) (st : command) : Prop :=
  forall k, dmem k (schemas st) = true -> accounted a (schemas st) k.

Definition inv (a : application) (st : command) : Prop := sound a st /\ triples a st.






(** * Properties *)

(** ** Dictionaries *)

Lemma key_eqb_refl (k : key) : key_eqb k k = true.
Proof. destruct k; simpl; [apply String.eqb_refl | apply Z.eqb_refl]. Qed.

Lemma key_eqb_eq (a b : key) : key_eqb a b = true <-> a = b.
Proof.
  destruct a, b; simpl; split; intro H; try discriminate.
  - apply String.eqb_eq in H. now subst.
  - inversion H. apply String.eqb_refl.
  - apply Z.eqb_eq in H. now subst.
  - inversion H. apply Z.eqb_refl.
Qed.

Lemma key_eqb_sym (a b : key) : key_eqb a b = key_eqb b a.
Proof.
  destruct (key_eqb a b) eqn:E.
  - apply key_eqb_eq in E. subst. symmetry. apply key_eqb_refl.
  - destruct (key_eqb b a) eqn:E'; [|reflexivity].
    apply key_eqb_eq in E'. subst. now rewrite key_eqb_refl in E.
Qed.

Lemma dget_dset_eq (k : key) (v : pyval) (d : dict) : dget k (dset k v d) = Some v.
Proof.
  induction d as [|[k' v'] r IH]; simpl.
  - now rewrite key_eqb_refl.
  - destruct (key_eqb k k') eqn:E; simpl; rewrite E; [reflexivity | exact IH].
Qed.

Lemma dget_dset_ne (k k' : key) (v : pyval) (d : dict) :
  key_eqb k k' = false -> dget k (dset k' v d) = dget k d.
Proof.
  intro Hne. induction d as [|[k0 v0] r IH]; simpl.
  - now rewrite Hne.
  - destruct (key_eqb k' k0) eqn:E; simpl.
    + apply key_eqb_eq in E. subst. now rewrite Hne.
    + destruct (key_eqb k k0); [reflexivity | exact IH].
Qed.

Lemma dmem_dset_eq (k : key) (v : pyval) (d : dict) : dmem k (dset k v d) = true.
Proof. unfold dmem. now rewrite dget_dset_eq. Qed.

Lemma dmem_dset_ne (k k' : key) (v : pyval) (d : dict) :
  key_eqb k k' = false -> dmem k (dset k' v d) = dmem k d.
Proof. intro H. unfold dmem. now rewrite dget_dset_ne. Qed.

Lemma dmem_dset_mono (k k' : key) (v : pyval) (d : dict) :
  dmem k d = true -> dmem k (dset k' v d) = true.
Proof.
  intro H. destruct (key_eqb k k') eqn:E.
  - apply key_eqb_eq in E. subst. apply dmem_dset_eq.
  - now rewrite dmem_dset_ne.
Qed.

(** ** C6: the version check of the module resolver *)

(** C6, as the code has it: when the version is missing, is not a string, or
    does not split on dots into exactly three parts, the resolver records an
    error, goes on, and leaves [info.version] unset; otherwise it stores the
    version string, whatever its three parts are. *)
Theorem parse_module_version (a : application) (st : command) :
  dget (KStr "version") (info st) = None ->
  exists st', parse_module a st = Ok (tt, st')
    /\ if three_part_version a
       then dget (KStr "version") (info st') = module_version a
       else errors st' = true /\ dget (KStr "version") (info st') = None.
Proof.
  intro Hno. unfold parse_module, three_part_version.
  assert (Herr : forall st0, dget (KStr "version") (info st0) = None ->
            exists st', log_error st0 = Ok (tt, st')
              /\ errors st' = true /\ dget (KStr "version") (info st') = None).
  { intros st0 H0. eexists. split; [reflexivity|]. now split. }
  assert (Htitle : dget (KStr "version")
            (info (with_info (dset (KStr "title") (VStr (capitalise (module_name a)))
                                (info st)) st)) = None).
  { simpl. now rewrite dget_dset_ne. }
  unfold bind at 1. unfold set_info at 1. unfold modify at 1.
  destruct (module_version a) as [v|]; [|now apply Herr].
  destruct v; try now apply Herr.
  destruct (List.length (split_on "." s) =? 3) eqn:E; simpl negb; cbv iota.
  - destruct (module_doc a); eexists; (split; [reflexivity|]); simpl;
      rewrite dget_dset_ne by reflexivity; now rewrite dget_dset_eq.
  - now apply Herr.
Qed.

(** The version ["1.2"] has two parts: an error is recorded and
    [info.version] stays unset. *)
Lemma parse_module_version_witness :
  exists st', parse_module (app_with_version "1.2") initial = Ok (tt, st')
    /\ errors st' = true /\ dget (KStr "version") (info st') = None.
Proof. exact (parse_module_version (app_with_version "1.2") initial eq_refl). Defined.

(** The parts are not checked for being numbers: ["a.b.c"] is stored and no
    error is recorded. *)
Lemma parse_module_accepts_non_numeric :
  three_numeric_components "a.b.c" = false
  /\ exists st', parse_module (app_with_version "a.b.c") initial = Ok (tt, st')
       /\ errors st' = false
       /\ dget (KStr "version") (info st') = Some (VStr "a.b.c").
Proof. split; [reflexivity|]. eexists. split; [reflexivity|]. now split. Qed.

(** ** C9 and C7: response normalisation *)


(** What [install_default_response_data] leaves in [method_spec] when it
    returns. *)
Lemma install_default_response_data_result (st st' : command) :
  install_default_response_data st = Ok (tt, st') ->
  exists responses responses',
    dget (KStr "responses") (dsetdefault (KStr "responses") (VDict []) (method_spec st))
      = Some (VDict responses)
    /\ normalize_responses (method_name st) (get_is_list st) (model_name st) responses
       = Ok responses'
    /\ dget (KStr "responses") (method_spec st')
       = Some (VDict (dset (KInt 401) UNAUTHORIZED responses')).
Proof.
  unfold install_default_response_data, bind, get, lift, set_method_spec, modify.
  intro H.
  destruct (dget (KStr "responses")
              (dsetdefault (KStr "responses") (VDict []) (method_spec st)))
    as [v|] eqn:Hr; [|discriminate].
  destruct v; try discriminate.
  destruct (normalize_responses (method_name st) (get_is_list st) (model_name st) d)
    as [rs'|] eqn:Hn; [|discriminate].
  inversion H; subst st'; clear H.
  exists d, rs'. repeat split; try assumption.
  simpl. apply dget_dset_eq.
Qed.

(** Whenever response normalisation returns, the entry of the response map
    under the integer 401 is the reference to the shared 401 response. *)
Lemma unauthorized_response_forced (st st' : command) :
  install_default_response_data st = Ok (tt, st') ->
  exists responses,
    dget (KStr "responses") (method_spec st') = Some (VDict responses)
    /\ dget (KInt 401) responses = Some (VDict ["$ref" =: VStr "#/components/responses/401"]).
Proof.
  intro H. apply install_default_response_data_result in H.
  destruct H as (rs & rs' & _ & _ & H).
  eexists. split; [exact H|]. apply dget_dset_eq.
Qed.

Lemma unauthorized_response_forced_witness :
  exists responses,
    dget (KStr "responses")
         (method_spec (final_state (install_default_response_data declared_401)))
      = Some (VDict responses)
    /\ dget (KInt 401) responses = Some (VDict ["$ref" =: VStr "#/components/responses/401"]).
Proof.
  exact (unauthorized_response_forced declared_401
           (final_state (install_default_response_data declared_401)) eq_refl).
Defined.

(** C9: a 401 response that the metadata block declares under the quoted
    code is not overridden.  The loop of [install_default_response_data]
    takes every code by its text, [str(code)], and the assignment after it
    writes the integer 401: the declared response stays in the map beside
    the reference, and [json.dump] cannot sort the keys of such a map, so the
    run ends in [TypeError] and writes nothing. *)
Theorem quoted_unauthorized_is_kept :
  (exists st',
      install_default_response_data quoted_401 = Ok (tt, st')
      /\ dget (KStr "responses") (method_spec st')
         = Some (VDict [ (KStr "401", VDict ["description" =: VStr "Go away"]);
                         (KInt 401, VDict ["$ref" =: VStr "#/components/responses/401"]) ]))
  /\ (exists st',
         handle quoted_app 10 initial = Ok (tt, st') /\ errors st' = false)
  /\ run quoted_app 10 = Uncaught TypeError.
Proof.
  split; [|split].
  - exists (final_state (install_default_response_data quoted_401)).
    split; vm_compute; reflexivity.
  - exists (final_state (handle quoted_app 10 initial)).
    split; vm_compute; reflexivity.
  - vm_compute. reflexivity.
Qed.



Lemma normalize_response_returns (mn : string) (gl : bool) (model : string)
    (code : key) (d : dict) :
  is_empty (str_of_key code) = false ->
  exists details', normalize_response mn gl model code (VDict d) = Ok details'.
Proof.
  intro Hcode. unfold normalize_response.
  destruct (str_of_key code) as [|c s] eqn:Hs; [discriminate|].
  cbn [first_char_is rbind py_len py_contains].
  destruct (Ascii.eqb c "4"); cbn [rbind].
  - destruct (List.length d =? 0); [eexists; reflexivity|].
    destruct (dmem (KStr "description") d); cbn [rbind py_setitem py_contains];
      repeat match goal with
             | |- context [if ?b then _ else _] => destruct b; cbn [rbind py_setitem drop_none]
             end; eexists; reflexivity.
  - destruct (dmem (KStr "description") d); cbn [rbind py_setitem py_contains];
      repeat match goal with
             | |- context [if ?b then _ else _] => destruct b; cbn [rbind py_setitem drop_none]
             end; eexists; reflexivity.
Qed.

Lemma normalize_responses_returns (mn : string) (gl : bool) (model : string)
    (responses : dict) :
  plain_responses responses = true ->
  exists responses', normalize_responses mn gl model responses = Ok responses'.
Proof.
  induction responses as [|[k v] rest IH]; intro H.
  - now exists [].
  - simpl in H. apply andb_prop in H. destruct H as [Hkv Hrest].
    apply andb_prop in Hkv. destruct Hkv as [Hk Hv].
    destruct v; try discriminate.
    apply negb_true_iff in Hk.
    destruct (normalize_response_returns mn gl model k d Hk) as [v' Hv'].
    destruct (IH Hrest) as [rest' Hrest'].
    exists ((k, v') :: rest'). simpl. now rewrite Hv', Hrest'.
Qed.

Lemma install_default_response_data_returns (st : command) (responses : dict) :
  dget (KStr "responses") (method_spec st) = Some (VDict responses) ->
  plain_responses responses = true ->
  exists st', install_default_response_data st = Ok (tt, st').
Proof.
  intros Hr Hp.
  destruct (normalize_responses_returns (method_name st) (get_is_list st)
              (model_name st) responses Hp) as [rs' Hrs'].
  unfold install_default_response_data, bind, get, lift, set_method_spec, modify.
  unfold dsetdefault, dmem. rewrite Hr. rewrite Hr. rewrite Hrs'.
  eexists. reflexivity.
Qed.

(** ** C4: partial update *)

Lemma getattr_setitem_eq {A : Type} (n : string) (x : A) (l : list (string * A)) :
  getattr (setitem n x l) n = Some x.
Proof.
  induction l as [|[n' y] r IH]; simpl.
  - now rewrite String.eqb_refl.
  - destruct (String.eqb n n') eqn:E; simpl; rewrite E; [reflexivity | exact IH].
Qed.


Lemma setitem_setitem {A : Type} (n : string) (x y : A) (l : list (string * A)) :
  setitem n y (setitem n x l) = setitem n y l.
Proof.
  induction l as [|[n' z] r IH]; simpl.
  - now rewrite String.eqb_refl.
  - destruct (String.eqb n n') eqn:E; simpl; rewrite E; [reflexivity | now rewrite IH].
Qed.






(** ** C5: path-parameter reconciliation *)

Lemma dget_ddel_ne (k k' : key) (d : dict) :
  key_eqb k k' = false -> dget k (ddel k' d) = dget k d.
Proof.
  intro Hne. unfold ddel. induction d as [|[k0 v0] r IH]; simpl; [reflexivity|].
  destruct (key_eqb k' k0) eqn:E; simpl.
  - apply key_eqb_eq in E. subst. now rewrite Hne.
  - destruct (key_eqb k k0); [reflexivity | exact IH].
Qed.









Lemma filter_all {A : Type} (l : list A) : filter (fun _ => true) l = l.
Proof. induction l as [|x r IH]; simpl; [reflexivity | now rewrite IH]. Qed.





(** ** C8: errors while an input schema is built *)

(** The loop reads the name of the method and nothing else of the state, and
    it only ever sets the error flag: a change of the state that keeps the
    name of the method and goes along with setting the flag can be made
    before the loop or after it. *)
Lemma input_schema_loop_frame (cc : controller) (g : command -> command) :
  (forall st, method_name (g st) = method_name st) ->
  (forall st, g (set_errors st) = set_errors (g st)) ->
  forall (fields : list string) (required : list pyval) (properties : dict)
         (st : command),
  input_schema_loop cc fields required properties (g st)
  = map_state g (input_schema_loop cc fields required properties st).
Proof.
  intros Hname Hflag fields.
  induction fields as [|x rest IH]; intros required properties st; [reflexivity|].
  cbn [input_schema_loop].
  destruct (getattr (ctl_attrs cc) ("validate_" ++ x)) as [validator|].
  - destruct validator as [| | |v].
    + reflexivity.
    + unfold bind, load_docstring, ret, log_error, modify.
      rewrite <- Hflag. apply IH.
    + reflexivity.
    + destruct v; try reflexivity.
      unfold bind, load_docstring, ret, lift, get, log_error, modify.
      cbn [py_get py_pop].
      destruct (py_truth _); [apply IH|].
      rewrite Hname.
      match goal with |- context [if ?b then _ else _] => destruct b end.
      * cbn [map_state]. now rewrite Hflag.
      * apply IH.
  - unfold bind, log_error, modify. rewrite <- Hflag. apply IH.
Qed.

Lemma input_schema_loop_flag (cc : controller) (fields : list string)
    (required : list pyval) (properties : dict) (st : command) :
  input_schema_loop cc fields required properties (set_errors st)
  = mark_error (input_schema_loop cc fields required properties st).
Proof. now apply input_schema_loop_frame. Qed.

Lemma input_schema_loop_skips (cc : controller) (field : string) (after : list string) :
  unusable_field cc field = true ->
  forall (before : list string) (required : list pyval) (properties : dict)
         (st : command),
  input_schema_loop cc (before ++ field :: after) required properties st
  = mark_error (input_schema_loop cc (before ++ after) required properties st).
Proof.
  intros Hbad before.
  induction before as [|x rest IH]; intros required properties st.
  - cbn [List.app input_schema_loop]. unfold unusable_field in Hbad.
    destruct (getattr (ctl_attrs cc) ("validate_" ++ field)) as [validator|].
    + destruct validator; try discriminate.
      unfold bind, load_docstring, ret, log_error, modify.
      apply input_schema_loop_flag.
    + unfold bind, log_error, modify. apply input_schema_loop_flag.
  - cbn [List.app input_schema_loop].
    destruct (getattr (ctl_attrs cc) ("validate_" ++ x)) as [validator|].
    + destruct validator as [| | |v].
      * reflexivity.
      * unfold bind, load_docstring, ret, log_error, modify. apply IH.
      * reflexivity.
      * destruct v; try reflexivity.
        unfold bind, load_docstring, ret, lift, get, log_error, modify.
        cbn [py_get py_pop].
        destruct (py_truth _); [apply IH|].
        match goal with |- context [if ?b then _ else _] => destruct b end.
        -- reflexivity.
        -- apply IH.
    + unfold bind, log_error, modify. apply IH.
Qed.

(** The loop looks at the attributes of the controller class only. *)
Lemma input_schema_loop_attrs (cc1 cc2 : controller) (fields : list string) :
  ctl_attrs cc1 = ctl_attrs cc2 ->
  forall (required : list pyval) (properties : dict) (st : command),
  input_schema_loop cc1 fields required properties st
  = input_schema_loop cc2 fields required properties st.
Proof.
  intro Hattrs.
  induction fields as [|x rest IH]; intros required properties st; [reflexivity|].
  cbn [input_schema_loop]. rewrite Hattrs.
  destruct (getattr (ctl_attrs cc2) ("validate_" ++ x)) as [validator|].
  - destruct validator as [| | |v].
    + reflexivity.
    + unfold bind, load_docstring, ret, log_error, modify. apply IH.
    + reflexivity.
    + destruct v; try reflexivity.
      unfold bind, load_docstring, ret, lift, get, log_error, modify.
      cbn [py_get py_pop].
      destruct (py_truth _); [apply IH|].
      match goal with |- context [if ?b then _ else _] => destruct b end.
      * reflexivity.
      * apply IH.
  - unfold bind, log_error, modify. apply IH.
Qed.

(** [parse_input_schema] in terms of its loop. *)
Lemma parse_input_schema_run (cc : controller) (st : command) :
  controller_class st = Some cc ->
  parse_input_schema st =
  let schema_name := replace "Controller" "" (ctl_name cc) in
  let operation := if contains "Create" schema_name then "create" else "update" in
  match input_schema_loop cc (validation_order cc) [] []
          (with_method_spec
             (dset (KStr "requestBody") (request_body operation schema_name)
                (method_spec st)) st) with
  | Ok (None, st') => Ok (tt, st')
  | Ok (Some (required, properties), st') =>
      Ok (tt, with_schemas
                (dset (KStr schema_name) (input_schema required properties)
                   (schemas st')) st')
  | Raise e => Raise e
  end.
Proof.
  intro Hcc. unfold parse_input_schema, bind, get, set_method_spec, modify, ret.
  rewrite Hcc. cbv zeta.
  destruct (input_schema_loop cc (validation_order cc) [] [] _)
    as [[[[required properties]|] st']|e]; reflexivity.
Qed.

(** C8, as the code has it: a field of the validation order whose validator
    is missing, or whose metadata block the YAML scanner rejects, sets the
    error flag and contributes nothing, and the other fields are processed as
    if it were not in the order: the request body and the registered schema are those of
    the order without the field, and an exception or an early return of the
    other fields is the same one. *)
Theorem input_schema_skips_unusable_field (cc : controller) (field : string)
    (before after : list string) (st : command) :
  unusable_field cc field = true ->
  match
    parse_input_schema
      (with_controller_class
         (Some (with_validation_order (before ++ field :: after) cc)) st),
    parse_input_schema
      (with_controller_class
         (Some (with_validation_order (before ++ after) cc)) st)
  with
  | Ok (_, st1), Ok (_, st2) =>
      errors st1 = true
      /\ schemas st1 = schemas st2
      /\ method_spec st1 = method_spec st2
  | Raise e1, Raise e2 => e1 = e2
  | _, _ => False
  end.
Proof.
  intro Hbad.
  rewrite (parse_input_schema_run
             (with_validation_order (before ++ field :: after) cc)) by reflexivity.
  rewrite (parse_input_schema_run
             (with_validation_order (before ++ after) cc)) by reflexivity.
  cbv zeta.
  cbn [controller_class with_controller_class with_validation_order ctl_name
       validation_order method_spec].
  rewrite (input_schema_loop_attrs
             (with_validation_order (before ++ field :: after) cc) cc
             (before ++ field :: after) eq_refl).
  rewrite (input_schema_loop_attrs
             (with_validation_order (before ++ after) cc) cc
             (before ++ after) eq_refl).
  rewrite (input_schema_loop_skips cc field after Hbad).
  repeat match goal with
  | |- context [input_schema_loop cc (before ++ after) [] []
                  (with_method_spec ?ms (with_controller_class ?c st))] =>
      change (with_method_spec ms (with_controller_class c st))
        with (with_controller_class c (with_method_spec ms st))
  end.
  rewrite !(input_schema_loop_frame cc (with_controller_class _))
    by (intros; reflexivity).
  match goal with
  | |- context [mark_error (map_state _ ?r)] =>
      destruct r as [[[[required properties]|] st2]|e]
  end; cbn.
  - now repeat split.
  - now repeat split.
  - reflexivity.
Qed.

(** The colour has a metadata block that the scanner rejects: the name and
    the size still make up [WidgetUpdate]. *)
Lemma input_schema_skips_unusable_field_witness :
  let run order :=
    final_state
      (parse_input_schema
         (with_controller_class (Some (with_validation_order order widget_update))
            widget_put_state)) in
  (errors (run ["name"; "colour"; "size"]) = true
   /\ schemas (run ["name"; "colour"; "size"]) = schemas (run ["name"; "size"])
   /\ method_spec (run ["name"; "colour"; "size"]) = method_spec (run ["name"; "size"]))
  /\ dget (KStr "WidgetUpdate") (schemas (run ["name"; "colour"; "size"]))
     = Some (VDict
               [ "type" =: VStr "object";
                 "required" =: VList [VStr "name"];
                 "properties" =: VDict
                   [ "name" =: typed "string" "The name of the widget";
                     "size" =: VDict [ "description" =: VStr "The size";
                                       "type" =: VStr "integer" ] ] ]).
Proof.
  split.
  - exact (input_schema_skips_unusable_field widget_update "colour"
             ["name"] ["size"] widget_put_state eq_refl).
  - reflexivity.
Defined.

(** A metadata block that is not a mapping is looked up with [get] before
    the [try]: the [AttributeError] leaves the generator, no error is
    recorded and no other field is processed. *)
Lemma input_schema_non_mapping_aborts :
  parse_input_schema
    (with_controller_class
       (Some {| ctl_name := "WidgetUpdateController";
                validation_order := ["name"; "size"];
                search_fields := [];
                allowed_ordering := [];
                ctl_attrs :=
                  [ ("validate_name", Block (VStr "The name of the widget"));
                    ("validate_size",
                     Block (VDict [ "description" =: VStr "The size";
                                    "type" =: VStr "integer" ])) ] |})
       widget_put_state)
  = Raise AttributeError.
Proof. reflexivity. Qed.

(** A metadata block that the scanner accepts and the loader rejects all the
    same is no [ScannerError]: nothing catches the exception, no error is
    recorded and no other field is processed. *)
Lemma input_schema_unloadable_raises (cc : controller) (field : string)
    (rest : list string) (required : list pyval) (properties : dict) (st : command) :
  getattr (ctl_attrs cc) ("validate_" ++ field) = Some Unloadable ->
  input_schema_loop cc (field :: rest) required properties st = Raise YAMLError.
Proof. intro H. cbn [input_schema_loop]. now rewrite H. Qed.

(** ** Stepping through computations *)

Lemma bind_lift {A B : Type} (r : result A) (k : A -> M B) (st : command) :
  bind (lift r) k st = match r with Ok x => k x st | Raise e => Raise e end.
Proof. unfold bind, lift. now destruct r. Qed.

Lemma bind_log_error {B : Type} (k : unit -> M B) (st : command) :
  bind log_error k st = k tt (set_errors st).
Proof. reflexivity. Qed.

Lemma bind_get {B : Type} (k : command -> M B) (st : command) :
  bind get k st = k st st.
Proof. reflexivity. Qed.

Lemma bind_modify {B : Type} (g : command -> command) (k : unit -> M B) (st : command) :
  bind (modify g) k st = k tt (g st).
Proof. reflexivity. Qed.

Lemma bind_ret {A B : Type} (x : A) (k : A -> M B) (st : command) :
  bind (ret x) k st = k x st.
Proof. reflexivity. Qed.

Lemma bind_run {A B : Type} (m : M A) (k : A -> M B) (st : command) :
  bind m k st
  = match m st with Ok (x, st') => k x st' | Raise e => Raise e end.
Proof. reflexivity. Qed.

(** Runs a hypothesis [H : m st = Ok _] through the binds of [m], splitting
    on every operation that can raise and on every test. *)
Ltac split_run H :=
  repeat first
    [ rewrite bind_lift in H
    | rewrite bind_log_error in H
    | rewrite bind_get in H
    | rewrite bind_modify in H
    | rewrite bind_ret in H
    | progress cbv beta iota in H
    | match type of H with
      | context [match ?r with Ok _ => _ | Raise _ => _ end] =>
          let E := fresh "E" in
          destruct r as [?|?] eqn:E; try discriminate H
      | context [let (_, _) := ?p in _] => destruct p
      | context [if ?b then _ else _] =>
          let E := fresh "E" in destruct b eqn:E
      end
    | rewrite bind_run in H ];
  try discriminate H.

(** ** C2: registration twice, and declarations that refer to themselves *)

Lemma parse_serializer_registered (a : application) (fuel : nat) (ser : serializer)
    (st : command) :
  dmem (KStr (model_name st)) (schemas st) = true ->
  parse_serializer a (S fuel) (Some ser) st = Ok (tt, st).
Proof.
  intro H. cbn [parse_serializer]. unfold bind at 1. unfold get at 1.
  now rewrite H.
Qed.

(** Runs the goal through the binds of a computation. *)
Ltac run_goal :=
  repeat first
    [ rewrite bind_lift
    | rewrite bind_log_error
    | rewrite bind_get
    | rewrite bind_modify
    | rewrite bind_ret
    | progress cbn -[parse_serializer bind lift log_error get modify ret] ].

(** A reference to another declaration is followed once: the owner is
    registered before the widget, and the current model is the widget again
    afterwards. *)
Lemma nested_reference_registers :
  exists st',
    parse_serializer owned_widget_app 3 (Some owned_widget_serializer)
      (with_model_name "Widget" initial) = Ok (tt, st')
    /\ errors st' = false
    /\ model_name st' = "Widget"
    /\ map fst (schemas st')
       = map fst DEFAULT_SCHEMAS
         ++ [ KStr "Owner"; KStr "OwnerResponse"; KStr "OwnerList";
              KStr "Widget"; KStr "WidgetResponse"; KStr "WidgetList" ].
Proof.
  exists (final_state (parse_serializer owned_widget_app 3 (Some owned_widget_serializer)
                         (with_model_name "Widget" initial))).
  repeat split; vm_compute; reflexivity.
Qed.

(** The category is parsed again for its own [parent], from any state in
    which it is the current model and not registered. *)
Lemma category_recurses (fuel : nat) :
  forall st,
  model_name st = "Category" ->
  dmem (KStr "Category") (schemas st) = false ->
  parse_serializer (tree_app "Category" category_serializer) fuel (Some category_serializer) st = Raise RecursionError.
Proof.
  induction fuel as [|n IH]; intros st Hm Hreg; [reflexivity|].
  cbn [parse_serializer]. rewrite bind_get. cbv beta. rewrite Hm, Hreg.
  cbn [ser_doc category_serializer load_docstring]. rewrite bind_ret.
  cbn [py_keys dkeys map fst field_map ser_name].
  rewrite bind_run.
  run_goal.
  rewrite bind_run. unfold parse_sub_serializer_with. run_goal.
  rewrite bind_run. rewrite IH; [reflexivity | reflexivity | exact Hreg].
Qed.

(** The same for the folder and the items of its [children]. *)
Lemma folder_recurses (fuel : nat) :
  forall st,
  model_name st = "Folder" ->
  dmem (KStr "Folder") (schemas st) = false ->
  parse_serializer (tree_app "Folder" folder_serializer) fuel (Some folder_serializer) st = Raise RecursionError.
Proof.
  induction fuel as [|n IH]; intros st Hm Hreg; [reflexivity|].
  cbn [parse_serializer]. rewrite bind_get. cbv beta. rewrite Hm, Hreg.
  cbn [ser_doc folder_serializer load_docstring]. rewrite bind_ret.
  cbn [py_keys dkeys map fst field_map ser_name].
  rewrite bind_run.
  run_goal.
  rewrite bind_run. unfold parse_sub_serializer_with. run_goal.
  rewrite bind_run. rewrite IH; [reflexivity | reflexivity | exact Hreg].
Qed.


(** Steps a goal about [handle] on an application with one route up to the
    call of [parse_serializer] for the view class of that route. *)
Ltac eval_getattr :=
  match goal with
  | |- context [@getattr ?A ?l ?k] =>
      let r := eval vm_compute in (@getattr A l k) in
      change (@getattr A l k) with r
  end;
  cbv beta iota.

Ltac reach_serializer ser :=
  unfold handle; rewrite bind_run;
  match goal with
  | |- context [parse_module ?a initial] =>
      let r := eval vm_compute in (parse_module a initial) in
      change (parse_module a initial) with r
  end;
  cbv beta iota; rewrite bind_run;
  match goal with
  | |- context [for_each (view_files ?a) parse_view_file ?st] =>
      let r := eval vm_compute in (for_each (view_files a) parse_view_file st) in
      change (for_each (view_files a) parse_view_file st) with r
  end;
  cbv beta iota; cbn [for_each urlpatterns tree_app]; rewrite bind_run;
  unfold parse_urlpattern at 1;
  rewrite bind_modify, bind_get, bind_modify;
  eval_getattr; rewrite bind_modify; eval_getattr;
  unfold parse_view_class at 1;
  rewrite !bind_modify; rewrite bind_run;
  match goal with
  | |- context [parse_serializer _ _ ?s _] =>
      replace s with (Some ser) by (vm_compute; reflexivity)
  end.

(** C2 on the code: the guard of [parse_sub_serializer] compares the name of
    the serializer class with the name of the referred schema, and the
    schema of a model is registered only after the loop over its fields, so
    a declaration that refers to itself, directly or as the items of an
    array, is parsed again and again: whatever depth of calls is allowed,
    the run ends in [RecursionError]. *)
Theorem self_reference_recurses (fuel : nat) :
  run (tree_app "Category" category_serializer) fuel = Uncaught RecursionError
  /\ run (tree_app "Folder" folder_serializer) fuel = Uncaught RecursionError.
Proof.
  split; unfold run.
  - reach_serializer category_serializer.
    rewrite category_recurses by (vm_compute; reflexivity). reflexivity.
  - reach_serializer folder_serializer.
    rewrite folder_recurses by (vm_compute; reflexivity). reflexivity.
Qed.




(** ** C1: implemented fields against documented keys *)

Section Registration.

Variable a : application.

Lemma extends_refl (own : key -> Prop) (st : command) : extends a own st st.
Proof. repeat split; auto. Qed.

Lemma extends_trans (own : key -> Prop) (st1 st2 st3 : command) :
  extends a nothing st1 st2 -> extends a own st2 st3 -> extends a own st1 st3.
Proof.
  intros (Hm1 & He1 & Hk1) (Hm2 & He2 & Hk2). repeat split.
  - congruence.
  - auto.
  - intros k Hk. destruct (Hk2 k Hk) as [H|[H|H]]; auto.
    destruct (Hk1 k H) as [H'|[H'|[]]]; auto.
Qed.

Lemma extends_weaken (own : key -> Prop) (st st' : command) :
  extends a nothing st st' -> extends a own st st'.
Proof.
  intros (Hm & He & Hk). repeat split; auto.
  intros k H. destruct (Hk k H) as [H'|[H'|[]]]; auto.
Qed.

Lemma extends_set_errors (st : command) : extends a nothing st (set_errors st).
Proof. repeat split; auto. Qed.

Lemma string_length_append (s t : string) :
  String.length (s ++ t) = String.length s + String.length t.
Proof. induction s as [|c s IH]; simpl; [reflexivity | now rewrite IH]. Qed.

Lemma take_append (s t : string) : take (String.length s) (s ++ t) = s.
Proof. induction s as [|c s IH]; simpl; [now destruct t | now rewrite IH]. Qed.

Lemma base_of_conventional (model : string) : base_of (model ++ "Serializer") = model.
Proof.
  unfold base_of. rewrite string_length_append.
  replace (String.length model + String.length "Serializer" - String.length "Serializer")
    with (String.length model) by lia.
  apply take_append.
Qed.

Lemma getattr_In {A : Type} (l : list (string * A)) (n : string) (x : A) :
  getattr l n = Some x -> In (n, x) l.
Proof.
  induction l as [|[n' y] r IH]; simpl; intro H; [discriminate|].
  destruct (String.eqb n n') eqn:E.
  - apply String.eqb_eq in E. inversion H. subst. now left.
  - right. now apply IH.
Qed.

Lemma parse_sub_serializer_with_ok (parse : option serializer -> M unit) :
  parse_ok a parse -> sub_ok a (parse_sub_serializer_with a parse).
Proof.
  intros Hp name ref st st' H.
  unfold parse_sub_serializer_with, bind, lift, get, modify, ret in H.
  destruct (py_last_segment ref) as [sub|]; [|discriminate].
  destruct (String.eqb name sub).
  - inversion H. apply extends_refl.
  - destruct (parse (getattr (serializer_mod a) (sub ++ "Serializer"))
                (with_model_name sub st)) as [[[] st1]|] eqn:E; [|discriminate].
    inversion H; subst st'; clear H.
    apply Hp in E. destruct E as (Hm & He & Hk). cbn in Hm, He, Hk.
    repeat split; auto.
    intros k Hk'. cbn in Hk'.
    destruct (Hk k Hk') as [H|[H|(ser & Hso & Hc & Hn)]]; auto.
    right. left. exists (sub ++ "Serializer")%string, ser.
    split; [now apply getattr_In|]. split; [assumption|].
    now rewrite base_of_conventional.
Qed.

Lemma key_in_remove (k k' : key) (ks : list key) :
  key_in k (key_remove k' ks) = true -> key_in k ks = true.
Proof.
  unfold key_in, key_remove. intro H. apply existsb_exists in H.
  destruct H as (x & Hx & Hk). apply filter_In in Hx.
  apply existsb_exists. exists x. now split.
Qed.

Lemma left_after_remove (f : string) (rest : list string) (df : list key) :
  filter (fun k => negb (key_in k (map KStr rest))) (key_remove (KStr f) df)
  = filter (fun k => negb (key_in k (map KStr (f :: rest)))) df.
Proof.
  unfold key_remove, key_in. induction df as [|k r IH]; [reflexivity|].
  cbn [filter map existsb].
  rewrite (key_eqb_sym (KStr f) k).
  destruct (key_eqb k (KStr f)); cbn [negb orb filter]; [exact IH|].
  destruct (existsb (key_eqb k) (map KStr rest)); cbn [negb]; [exact IH | now rewrite IH].
Qed.

Lemma left_when_absent (f : string) (rest : list string) (df : list key) :
  key_in (KStr f) df = false ->
  filter (fun k => negb (key_in k (map KStr rest))) df
  = filter (fun k => negb (key_in k (map KStr (f :: rest)))) df.
Proof.
  unfold key_in. induction df as [|k r IH]; intro H; [reflexivity|].
  cbn [existsb] in H. apply orb_false_elim in H. destruct H as [Hk Hr].
  cbn [filter map existsb]. rewrite (key_eqb_sym k (KStr f)), Hk. cbn [orb].
  destruct (existsb (key_eqb k) (map KStr rest)); cbn [negb]; now rewrite (IH Hr).
Qed.

Lemma undocumented_after_remove (k : key) (df : list key) (l : list string) :
  existsb (fun f => negb (key_in (KStr f) df)) l = true ->
  existsb (fun f => negb (key_in (KStr f) (key_remove k df))) l = true.
Proof.
  intro H. apply existsb_exists in H. destruct H as (f & Hf & Hn).
  apply existsb_exists. exists f. split; [assumption|].
  apply negb_true_iff in Hn. apply negb_true_iff.
  destruct (key_in (KStr f) (key_remove k df)) eqn:E; [|reflexivity].
  apply key_in_remove in E. congruence.
Qed.

(** The loop over the implemented fields: what is left of the documented
    keys, and when the error flag is certainly set. *)
Lemma reconcile_fields_ok (sub : string -> pyval -> M unit) (name : string)
    (items : pyval) :
  sub_ok a sub ->
  forall (fields : list string) (df : list key) (st : command)
         (df' : list key) (st' : command),
  reconcile_fields sub name items fields df st = Ok (df', st') ->
  extends a nothing st st'
  /\ df' = filter (fun k => negb (key_in k (map KStr (implemented fields)))) df
  /\ (existsb (fun f => negb (key_in (KStr f) df)) (implemented fields) = true ->
      errors st' = true).
Proof.
  intros Hsub fields.
  induction fields as [|f rest IH]; intros df st df' st' H.
  - cbn in H. inversion H; subst. split; [apply extends_refl|].
    split; [now rewrite filter_all | discriminate].
  - cbn [reconcile_fields] in H. unfold implemented. cbn [filter].
    fold (implemented rest).
    destruct (contains "old_" f) eqn:Hold; cbn [negb].
    + now apply IH.
    + destruct (key_in (KStr f) df) eqn:Hin; cbn [negb] in H.
      * assert (Hmid : exists st_mid,
                  extends a nothing st st_mid
                  /\ reconcile_fields sub name items rest (key_remove (KStr f) df) st_mid
                     = Ok (df', st')).
        { split_run H;
            (eexists; split; [|exact H]);
            first [ apply extends_refl
                  | apply extends_set_errors
                  | match goal with
                    | E : sub _ _ _ = Ok (_, _) |- _ =>
                        repeat match goal with u : unit |- _ => destruct u end;
                        eapply Hsub; exact E
                    end ]. }
        destruct Hmid as (st_mid & Hext & Hrest).
        apply IH in Hrest. destruct Hrest as (Hext' & Hdf & Herr).
        split; [eapply extends_trans; eassumption|].
        split; [rewrite Hdf; apply left_after_remove|].
        cbn [existsb]. rewrite Hin. cbn [negb orb]. intro Hex.
        apply Herr. now apply undocumented_after_remove.
      * unfold bind, log_error, modify in H.
        apply IH in H. destruct H as (Hext' & Hdf & Herr).
        split; [eapply extends_trans; [apply extends_set_errors | eassumption]|].
        split; [rewrite Hdf; now apply left_when_absent|].
        intros _. destruct Hext' as (_ & He & _). now apply He.
Qed.

Lemma filter_nil_existsb {A : Type} (f : A -> bool) (l : list A) :
  filter f l = [] -> existsb f l = false.
Proof.
  induction l as [|x r IH]; simpl; intro H; [reflexivity|].
  destruct (f x); [discriminate | now apply IH].
Qed.

Lemma existsb_filter_nil {A : Type} (f : A -> bool) (l : list A) :
  existsb f l = false -> filter f l = [].
Proof.
  induction l as [|x r IH]; simpl; intro H; [reflexivity|].
  apply orb_false_elim in H. destruct H as [Hx Hr]. rewrite Hx. now apply IH.
Qed.

Lemma dmem_register_schemas (k : key) (model : string) (required : list key)
    (items : pyval) (schemas : dict) :
  dmem k (register_schemas model required items schemas) = true ->
  dmem k schemas = true \/ is_name_of model k = true.
Proof.
  unfold register_schemas, is_name_of. intro H.
  destruct (key_eqb k (KStr (model ++ "List"))) eqn:E1;
    [right; now rewrite orb_true_r|].
  rewrite dmem_dset_ne in H by assumption.
  destruct (key_eqb k (KStr (model ++ "Response"))) eqn:E2;
    [right; now rewrite orb_true_r|].
  rewrite dmem_dset_ne in H by assumption.
  destruct (key_eqb k (KStr model)) eqn:E3; [now right|].
  rewrite dmem_dset_ne in H by assumption. now left.
Qed.

(** [parse_serializer] keeps the current model and the error flag, and every
    key it adds to the registry belongs to a complete declaration. *)
Lemma parse_serializer_ok (fuel : nat) : parse_ok a (parse_serializer a fuel).
Proof.
  induction fuel as [|n IH]; intros so st st' H; [discriminate|].
  cbn [parse_serializer] in H.
  destruct so as [ser|]; [|inversion H; apply extends_refl].
  rewrite bind_get in H. cbv beta in H.
  destruct (dmem (KStr (model_name st)) (schemas st)) eqn:Hreg;
    [inversion H; apply extends_refl|].
  destruct (ser_doc ser) as [| | |v] eqn:Hdoc; cbn [load_docstring] in H.
  - inversion H. repeat split; auto.
  - inversion H. repeat split; auto.
  - discriminate.
  - rewrite bind_ret in H.
    destruct (py_keys v) as [required|] eqn:Hkeys;
      [|inversion H; repeat split; auto].
    rewrite bind_run in H.
    destruct (reconcile_fields _ _ _ _ _ st) as [[df1 st1]|] eqn:Hloop; [|discriminate].
    apply reconcile_fields_ok in Hloop;
      [|apply parse_sub_serializer_with_ok; exact IH].
    destruct Hloop as ((Hm & He & Hk) & Hdf & _).
    destruct (negb (List.length df1 =? 0)) eqn:Hleft.
    + split_run H. inversion H; subst st'. repeat split; auto.
      intros k Hk'. destruct (Hk k Hk') as [?|[?|[]]]; auto.
    + rewrite bind_get in H. inversion H; subst st'; clear H.
      repeat split; auto.
      intros k Hk'. cbn in Hk'. apply dmem_register_schemas in Hk'.
      destruct Hk' as [Hold|Hown].
      * destruct (Hk k Hold) as [?|[?|[]]]; auto.
      * right. right. exists ser. split; [reflexivity|].
        split; [|now rewrite <- Hm].
        unfold complete. rewrite Hdoc.
        destruct v; try discriminate. inversion Hkeys; subst required.
        apply negb_false_iff in Hleft. apply Nat.eqb_eq in Hleft.
        destruct df1; [|discriminate].
        unfold unimplemented. symmetry in Hdf.
        now rewrite (filter_nil_existsb _ _ Hdf).
Qed.

End Registration.

Lemma produced_excluded (a : application) (model : string) :
  no_other_source a model = true -> ~ produced a (KStr model).
Proof.
  intros Hno (n & ser & Hin & Hc & Hname).
  unfold no_other_source in Hno. rewrite forallb_forall in Hno.
  specialize (Hno (n, ser) Hin). cbn [fst snd] in Hno.
  rewrite Hc, Hname in Hno. discriminate.
Qed.

Lemma string_append_ne_self (s t : string) : t <> EmptyString -> (s ++ t)%string <> s.
Proof.
  intros Ht H. apply (f_equal String.length) in H.
  rewrite string_length_append in H.
  destruct t; [contradiction | simpl in H; lia].
Qed.

Lemma key_eqb_suffix (s t : string) :
  t <> EmptyString -> key_eqb (KStr s) (KStr (s ++ t)) = false.
Proof.
  intro Ht. simpl. destruct (String.eqb s (s ++ t)) eqn:E; [|reflexivity].
  apply String.eqb_eq in E. symmetry in E. now apply string_append_ne_self in E.
Qed.

Lemma string_append_cancel (s t u : string) : (s ++ t)%string = (s ++ u)%string -> t = u.
Proof. induction s as [|c s IH]; simpl; intro H; [assumption | inversion H; auto]. Qed.

(** The three entries [register_schemas] writes. *)
Lemma register_schemas_entries (model : string) (required : list key) (items : pyval)
    (schemas : dict) :
  let registry := register_schemas model required items schemas in
  dget (KStr model) registry
  = Some (VDict [ "type" =: VStr "object";
                  "required" =: VList (map key_value required);
                  "properties" =: items ])
  /\ dget (KStr (model ++ "Response")) registry
     = Some (VDict [ "type" =: VStr "object";
                     "properties" =: VDict
                       [ "content" =: ref_to ("#/components/schemas/" ++ model) ] ])
  /\ dget (KStr (model ++ "List")) registry
     = Some (VDict [ "type" =: VStr "object";
                     "properties" =: VDict
                       [ "content" =: VDict
                           [ "type" =: VStr "array";
                             "items" =: ref_to ("#/components/schemas/" ++ model) ];
                         "_metadata" =: ref_to "#/components/schemas/ListMetadata" ] ]).
Proof.
  cbv zeta. unfold register_schemas.
  assert (HR : key_eqb (KStr model) (KStr (model ++ "Response")) = false)
    by (now apply key_eqb_suffix).
  assert (HL : key_eqb (KStr model) (KStr (model ++ "List")) = false)
    by (now apply key_eqb_suffix).
  assert (HRL : key_eqb (KStr (model ++ "Response")) (KStr (model ++ "List")) = false).
  { simpl. destruct (String.eqb _ _) eqn:E; [|reflexivity].
    apply String.eqb_eq in E. apply string_append_cancel in E. discriminate. }
  repeat split.
  - rewrite !dget_dset_ne by assumption. apply dget_dset_eq.
  - rewrite dget_dset_ne by assumption. apply dget_dset_eq.
  - apply dget_dset_eq.
Qed.

(** C1, as the code has it: a declaration whose documentation is a mapping
    is reconciled; a field that is implemented and not documented, or a key
    that is documented and not implemented, sets the error flag.  When a
    documented key is not implemented the declaration registers nothing:
    every key of the registry was there before or belongs to a complete
    declaration of the serializer module, so the model has no schema entry
    unless such a declaration accounts for its name.  When every documented
    key is implemented the three schemas of the model are registered, an
    implemented field without documentation or not. *)
Theorem serializer_asymmetry (a : application) (fuel : nat) (ser : serializer)
    (items : dict) (st st' : command) :
  ser_doc ser = Block (VDict items) ->
  dmem (KStr (model_name st)) (schemas st) = false ->
  parse_serializer a fuel (Some ser) st = Ok (tt, st') ->
  (undocumented ser (dkeys items) || unimplemented ser (dkeys items) = true ->
   errors st' = true)
  /\ (unimplemented ser (dkeys items) = true ->
      (forall k, dmem k (schemas st') = true ->
                 dmem k (schemas st) = true \/ produced a k)
      /\ (no_other_source a (model_name st) = true ->
          dmem (KStr (model_name st)) (schemas st') = false))
  /\ (unimplemented ser (dkeys items) = false ->
      dget (KStr (model_name st)) (schemas st')
      = Some (VDict [ "type" =: VStr "object";
                      "required" =: VList (map key_value (dkeys items));
                      "properties" =: VDict items ])
      /\ dget (KStr (model_name st ++ "Response")) (schemas st')
         = Some (VDict [ "type" =: VStr "object";
                         "properties" =: VDict
                           [ "content" =:
                               ref_to ("#/components/schemas/" ++ model_name st) ] ])
      /\ dget (KStr (model_name st ++ "List")) (schemas st')
         = Some (VDict [ "type" =: VStr "object";
                         "properties" =: VDict
                           [ "content" =: VDict
                               [ "type" =: VStr "array";
                                 "items" =:
                                   ref_to ("#/components/schemas/" ++ model_name st) ];
                             "_metadata" =: ref_to "#/components/schemas/ListMetadata" ] ])).
Proof.
  intros Hdoc Hreg H.
  destruct fuel as [|n]; [discriminate|].
  cbn [parse_serializer] in H.
  rewrite bind_get in H. cbv beta in H. rewrite Hreg, Hdoc in H.
  cbn [load_docstring] in H. rewrite bind_ret in H. cbn [py_keys] in H.
  rewrite bind_run in H.
  destruct (reconcile_fields _ _ _ _ _ st) as [[df1 st1]|] eqn:Hloop; [|discriminate].
  apply (reconcile_fields_ok a) in Hloop;
    [|apply parse_sub_serializer_with_ok; apply parse_serializer_ok].
  destruct Hloop as ((Hm & He & Hk) & Hdf & Herr).
  fold (undocumented ser (dkeys items)) in Herr.
  assert (Hleft : negb (List.length df1 =? 0) = unimplemented ser (dkeys items)).
  { unfold unimplemented. destruct df1 as [|k1 r1].
    - symmetry in Hdf. apply filter_nil_existsb in Hdf. now rewrite Hdf.
    - cbn. symmetry. apply existsb_exists. exists k1.
      assert (Hin : In k1 (k1 :: r1)) by now left.
      rewrite Hdf in Hin. apply filter_In in Hin. exact Hin. }
  rewrite Hleft in H.
  split; [|split].
  - intro Hasym.
    destruct (unimplemented ser (dkeys items)) eqn:E.
    + split_run H. now inversion H.
    + rewrite bind_get in H. inversion H; subst st'. cbn.
      apply Herr. now rewrite orb_false_r in Hasym.
  - intro Hu. rewrite Hu in H. split_run H.
    inversion H; subst st'. cbn. split.
    + intros k Hmem. destruct (Hk _ Hmem) as [Hold|[Hp|[]]]; auto.
    + intro Hno.
      destruct (dmem (KStr (model_name st)) (schemas st1)) eqn:Hmem; [|reflexivity].
      destruct (Hk _ Hmem) as [Hold|[Hp|[]]]; [congruence|].
      now apply produced_excluded in Hp.
  - intro Hu. rewrite Hu in H. rewrite bind_get in H.
    inversion H; subst st'; clear H.
    cbn [schemas with_schemas]. rewrite Hm.
    apply (register_schemas_entries (model_name st) (dkeys items) (VDict items)).
Qed.

Lemma serializer_asymmetry_witness :
  let missing_field :=
    final_state (parse_serializer (widget_app widget_missing_field) 3
                   (Some widget_missing_field) widget_state) in
  let missing_doc :=
    final_state (parse_serializer (widget_app widget_missing_doc) 3
                   (Some widget_missing_doc) widget_state) in
  (errors missing_field = true
   /\ dmem (KStr "Widget") (schemas missing_field) = false)
  /\ (errors missing_doc = true
      /\ dmem (KStr "Widget") (schemas missing_doc) = true
      /\ dmem (KStr "WidgetResponse") (schemas missing_doc) = true
      /\ dmem (KStr "WidgetList") (schemas missing_doc) = true).
Proof.
  intros missing_field missing_doc.
  pose proof (serializer_asymmetry (widget_app widget_missing_field) 3
                widget_missing_field _ widget_state missing_field
                eq_refl eq_refl eq_refl) as H.
  pose proof (serializer_asymmetry (widget_app widget_missing_doc) 3
                widget_missing_doc _ widget_state missing_doc
                eq_refl eq_refl eq_refl) as K.
  destruct H as (H1 & H2 & _). destruct K as (K1 & _ & K3).
  split; [split|split].
  - apply H1. reflexivity.
  - apply (H2 eq_refl). reflexivity.
  - apply K1. reflexivity.
  - destruct (K3 eq_refl) as (E1 & E2 & E3). unfold dmem.
    change (model_name widget_state) with "Widget" in E1, E2, E3.
    change ("Widget" ++ "Response")%string with "WidgetResponse" in E2.
    change ("Widget" ++ "List")%string with "WidgetList" in E3.
    now rewrite E1, E2, E3.
Defined.

(** An implemented field without documentation sets the error flag, and the
    three schemas of the model are registered all the same. *)
Lemma undocumented_field_still_registers :
  undocumented widget_missing_doc (dkeys [ "id" =: typed "integer" "The id of the widget" ])
  = true
  /\ exists st',
       parse_serializer (widget_app widget_missing_doc) 3
         (Some widget_missing_doc) widget_state = Ok (tt, st')
       /\ errors st' = true
       /\ dmem (KStr "Widget") (schemas st') = true
       /\ dmem (KStr "WidgetResponse") (schemas st') = true
       /\ dmem (KStr "WidgetList") (schemas st') = true.
Proof. split; [reflexivity|]. eexists. split; [reflexivity|]. now repeat split. Qed.

(** ** C3: references and the components area *)


(** The loop over the validation order changes nothing of the state but the
    error flag, and it leaves by [return] only with the flag set. *)
Lemma input_schema_loop_state (cc : controller) (fields : list string) :
  forall (required : list pyval) (properties : dict) (st : command)
         (r : option (list pyval * dict)) (st' : command),
  input_schema_loop cc fields required properties st = Ok (r, st') ->
  (st' = st \/ st' = set_errors st) /\ (r = None -> errors st' = true).
Proof.
  induction fields as [|x rest IH]; intros required properties st r st' H.
  - inversion H. split; [now left | discriminate].
  - cbn [input_schema_loop] in H.
    destruct (getattr (ctl_attrs cc) ("validate_" ++ x)) as [validator|].
    + destruct validator as [| | |v]; cbn [load_docstring] in H.
      * discriminate.
      * rewrite bind_ret, bind_log_error in H.
        destruct (IH _ _ _ _ _ H) as [[->| ->] Hn]; split; auto.
      * discriminate.
      * rewrite bind_ret, bind_lift in H.
        destruct (py_get v "generative" (VBool false)) as [g|]; [|discriminate].
        destruct (py_truth g); [exact (IH _ _ _ _ _ H)|].
        destruct (py_pop v "required" (VBool true)) as [[is_required field_data]|e].
        -- rewrite bind_get in H.
           match type of H with
           | context [if ?b then _ else _] => destruct b
           end.
           ++ inversion H. split; [now right | reflexivity].
           ++ exact (IH _ _ _ _ _ H).
        -- destruct e; try discriminate.
           inversion H. split; [now right | reflexivity].
    + rewrite bind_log_error in H.
      destruct (IH _ _ _ _ _ H) as [[->| ->] Hn]; split; auto.
Qed.

(** The reference that input-schema construction places in a request body
    names the schema it registers, when the construction finishes without an
    error. *)
Lemma input_schema_placed (cc : controller) (st st' : command) :
  controller_class st = Some cc ->
  parse_input_schema st = Ok (tt, st') ->
  errors st' = false ->
  let schema_name := replace "Controller" "" (ctl_name cc) in
  (exists operation,
      dget (KStr "requestBody") (method_spec st')
      = Some (VDict
                [ "description" =: VStr ("Data required to " ++ operation ++ " a record");
                  "required" =: VBool true;
                  "content" =: VDict
                    [ "application/json" =: VDict
                        [ "schema" =: VDict
                            [ "$ref" =: VStr ("#/components/schemas/" ++ schema_name) ] ] ] ]))
  /\ dmem (KStr schema_name) (schemas st') = true.
Proof.
  intros Hcc H Hno. cbv zeta.
  rewrite (parse_input_schema_run cc st Hcc) in H. cbv zeta in H.
  destruct (input_schema_loop cc (validation_order cc) [] [] _)
    as [[r st1]|] eqn:Hloop; [|discriminate].
  apply input_schema_loop_state in Hloop. destruct Hloop as [Hst Hnone].
  destruct r as [[required properties]|].
  - inversion H; subst st'; clear H. cbn.
    split; [|apply dmem_dset_eq].
    eexists. destruct Hst as [-> | ->]; cbn; apply dget_dset_eq.
  - inversion H; subst st'. rewrite Hnone in Hno by reflexivity. discriminate.
Qed.


(** ** C10: [doc_trim] applied twice *)

Lemma all_chars_append (p : ascii -> bool) (s t : string) :
  all_chars p (s ++ t) = all_chars p s && all_chars p t.
Proof. induction s as [|c s IH]; simpl; [reflexivity | now rewrite IH, andb_assoc]. Qed.

Lemma all_chars_drop (p : ascii -> bool) (n : nat) (s : string) :
  all_chars p s = true -> all_chars p (drop n s) = true.
Proof.
  revert s. induction n as [|n IH]; intros s H; [exact H|].
  destruct s as [|c s]; [reflexivity|]. simpl in *.
  apply andb_prop in H. now apply IH.
Qed.

Lemma all_chars_lstrip (p : ascii -> bool) (s : string) :
  all_chars p s = true -> all_chars p (lstrip s) = true.
Proof.
  induction s as [|c s IH]; intro H; [reflexivity|]. cbn [lstrip].
  destruct (is_space c); [|exact H].
  cbn [all_chars] in H. apply andb_prop in H. now apply IH.
Qed.

Lemma all_chars_rstrip (p : ascii -> bool) (s : string) :
  all_chars p s = true -> all_chars p (rstrip s) = true.
Proof.
  induction s as [|c s IH]; intro H; [reflexivity|].
  cbn [all_chars] in H. apply andb_prop in H. destruct H as [Hc Hs].
  cbn [rstrip].
  destruct (is_space c && is_empty (rstrip s)); [reflexivity|].
  cbn [all_chars]. now rewrite Hc, IH.
Qed.

Lemma is_empty_rstrip (s : string) : is_empty (rstrip s) = blank s.
Proof.
  unfold blank. induction s as [|c s IH]; [reflexivity|].
  cbn [rstrip all_chars]. rewrite <- IH.
  destruct (is_space c), (is_empty (rstrip s)); reflexivity.
Qed.

Lemma is_empty_lstrip (s : string) : is_empty (lstrip s) = blank s.
Proof.
  unfold blank. induction s as [|c s IH]; [reflexivity|].
  cbn [lstrip all_chars]. destruct (is_space c); [exact IH | reflexivity].
Qed.

Lemma blank_lstrip (s : string) : blank (lstrip s) = blank s.
Proof.
  unfold blank. induction s as [|c s IH]; [reflexivity|].
  cbn [lstrip all_chars]. destruct (is_space c) eqn:E; [exact IH|].
  cbn [all_chars]. now rewrite E.
Qed.

Lemma rstrip_twice (s : string) : rstrip (rstrip s) = rstrip s.
Proof.
  induction s as [|c s IH]; [reflexivity|]. cbn [rstrip].
  destruct (is_space c && is_empty (rstrip s)) eqn:E; [reflexivity|].
  cbn [rstrip]. now rewrite IH, E.
Qed.

Lemma is_empty_true (s : string) : is_empty s = true -> s = EmptyString.
Proof. now destruct s. Qed.

Lemma is_empty_false (s : string) : is_empty s = false <-> s <> EmptyString.
Proof. destruct s; simpl; split; intro H; congruence. Qed.

Lemma trimmed_line_text (s : string) :
  trimmed_line s -> s <> EmptyString -> blank s = false.
Proof.
  intros [_ Hr] Hne. rewrite <- is_empty_rstrip, Hr. now apply is_empty_false.
Qed.

Lemma blank_drop (n : nat) (s : string) :
  n <= leading s -> blank (drop n s) = blank s.
Proof.
  unfold blank. revert s. induction n as [|n IH]; intros s H; [reflexivity|].
  destruct s as [|c s]; [reflexivity|]. cbn [leading drop all_chars] in *.
  destruct (is_space c); [|lia]. cbn [andb]. apply IH. lia.
Qed.

Lemma length_lstrip (s : string) :
  String.length s - String.length (lstrip s) = leading s.
Proof.
  assert (H : String.length (lstrip s) + leading s = String.length s).
  { induction s as [|c s IH]; [reflexivity|]. cbn [lstrip leading].
    destruct (is_space c); cbn [String.length]; lia. }
  lia.
Qed.

Lemma all_chars_spaces (p : ascii -> bool) (n : nat) :
  p " "%char = true -> all_chars p (spaces n) = true.
Proof. intro H. induction n as [|n IH]; simpl; [reflexivity | now rewrite H, IH]. Qed.

Lemma expandtabs_no_tab (s : string) :
  forall col, no_tab (expandtabs_from col s) = true.
Proof.
  unfold no_tab. induction s as [|c s IH]; intro col; [reflexivity|]. simpl.
  destruct (Ascii.eqb c TAB) eqn:E.
  - rewrite all_chars_append, IH, andb_true_r. now apply all_chars_spaces.
  - simpl. now rewrite E, IH.
Qed.

Lemma expandtabs_plain (s : string) :
  forall col, no_tab s = true -> expandtabs_from col s = s.
Proof.
  unfold no_tab. induction s as [|c s IH]; intros col H; [reflexivity|].
  simpl in *. apply andb_prop in H. destruct H as [Hc Hs].
  apply negb_true_iff in Hc. rewrite Hc. now rewrite IH.
Qed.

Lemma plain_no_tab (s : string) : plain s = true -> no_tab s = true.
Proof.
  unfold plain, no_tab. induction s as [|c s IH]; intro H; [reflexivity|].
  simpl in *. apply andb_prop in H. destruct H as [Hc Hs].
  unfold plain_char in Hc. apply andb_prop in Hc. destruct Hc as [_ Hc].
  now rewrite Hc, IH.
Qed.

Lemma splitlines_plain (s : string) :
  forall flag, no_tab s = true ->
  Forall (fun l => plain l = true) (splitlines_from flag s).
Proof.
  unfold no_tab. induction s as [|c s IH]; intros flag H; [constructor|].
  simpl in H. apply andb_prop in H. destruct H as [Hc Hs].
  cbn [splitlines_from].
  destruct (flag && Ascii.eqb c LF); [now apply IH|].
  destruct (is_linebreak c) eqn:El.
  - constructor; [reflexivity | now apply IH].
  - specialize (IH false Hs).
    assert (Hp : plain_char c = true) by (unfold plain_char; now rewrite El, Hc).
    destruct (splitlines_from false s) as [|l ls].
    + constructor; [|constructor]. unfold plain. simpl. now rewrite Hp.
    + inversion IH; subst. constructor; [|assumption].
      unfold plain in *. simpl. now rewrite Hp.
Qed.

Lemma string_append_nil (s : string) : (s ++ "")%string = s.
Proof. induction s as [|c s IH]; simpl; [reflexivity | now rewrite IH]. Qed.

Lemma splitlines_plain_prefix (e rest : string) :
  plain e = true ->
  splitlines_from false (e ++ rest)
  = match splitlines_from false rest with
    | [] => if is_empty e then [] else [e]
    | l :: ls => (e ++ l)%string :: ls
    end.
Proof.
  unfold plain. induction e as [|c e IH]; intro H.
  - simpl. now destruct (splitlines_from false rest).
  - simpl in H. apply andb_prop in H. destruct H as [Hc He].
    unfold plain_char in Hc. apply andb_prop in Hc. destruct Hc as [Hl _].
    apply negb_true_iff in Hl.
    cbn [String.append splitlines_from andb]. rewrite Hl, (IH He).
    destruct (splitlines_from false rest) as [|l ls]; [|reflexivity].
    now destruct e.
Qed.

Lemma splitlines_join (lines : list string) :
  Forall (fun l => plain l = true) lines ->
  last lines EmptyString <> EmptyString ->
  splitlines (join NEWLINE lines) = lines.
Proof.
  unfold splitlines, join.
  induction lines as [|e rest IH]; intros Hp Hlast; [reflexivity|].
  inversion Hp as [|? ? He Hrest]; subst.
  destruct rest as [|e2 rest].
  - cbn [String.concat]. rewrite <- (string_append_nil e) at 1.
    rewrite (splitlines_plain_prefix e "" He). cbn [splitlines_from].
    simpl in Hlast. apply is_empty_false in Hlast. now rewrite Hlast.
  - change (String.concat NEWLINE (e :: e2 :: rest))
      with (e ++ NEWLINE ++ String.concat NEWLINE (e2 :: rest))%string.
    rewrite (splitlines_plain_prefix e _ He).
    change (splitlines_from false (NEWLINE ++ String.concat NEWLINE (e2 :: rest)))
      with (EmptyString :: splitlines_from false (String.concat NEWLINE (e2 :: rest))).
    rewrite (IH Hrest Hlast). now rewrite string_append_nil.
Qed.

Lemma count_lf_append (s t : string) : count_lf (s ++ t) = count_lf s + count_lf t.
Proof. induction s as [|c s IH]; simpl; [reflexivity | rewrite IH; lia]. Qed.

Lemma count_lf_plain (s : string) : plain s = true -> count_lf s = 0.
Proof.
  unfold plain. induction s as [|c s IH]; intro H; [reflexivity|].
  simpl in *. apply andb_prop in H. destruct H as [Hc Hs]. rewrite (IH Hs).
  destruct (Ascii.eqb c LF) eqn:E; [|reflexivity].
  apply Ascii.eqb_eq in E. subst c. discriminate.
Qed.

Lemma count_lf_join (lines : list string) :
  Forall (fun l => plain l = true) lines ->
  count_lf (join NEWLINE lines) = List.length lines - 1.
Proof.
  unfold join. induction lines as [|e rest IH]; intro Hp; [reflexivity|].
  inversion Hp as [|? ? He Hrest]; subst.
  destruct rest as [|e2 rest].
  - simpl. now apply count_lf_plain.
  - change (String.concat NEWLINE (e :: e2 :: rest))
      with (e ++ NEWLINE ++ String.concat NEWLINE (e2 :: rest))%string.
    rewrite !count_lf_append, (count_lf_plain e He), (IH Hrest). simpl. lia.
Qed.

Lemma pop_trailing_blank_forall (P : string -> Prop) (l : list string) :
  Forall P l -> Forall P (pop_trailing_blank l).
Proof.
  induction l as [|x r IH]; intro H; [constructor|].
  inversion H; subst. simpl. specialize (IH ltac:(assumption)).
  destruct (pop_trailing_blank r).
  - destruct (is_empty x); constructor; auto.
  - constructor; assumption.
Qed.

Lemma pop_leading_blank_forall (P : string -> Prop) (l : list string) :
  Forall P l -> Forall P (pop_leading_blank l).
Proof.
  induction l as [|x r IH]; intro H; [constructor|].
  simpl. destruct (is_empty x); [|exact H]. inversion H; auto.
Qed.

Lemma pop_trailing_blank_last (l : list string) :
  pop_trailing_blank l <> [] -> last (pop_trailing_blank l) EmptyString <> EmptyString.
Proof.
  induction l as [|x r IH]; intro H; [contradiction|].
  simpl in *. destruct (pop_trailing_blank r) as [|y r'].
  - destruct (is_empty x) eqn:E; [contradiction|]. simpl. now apply is_empty_false.
  - apply IH. discriminate.
Qed.

Lemma pop_leading_blank_last (l : list string) :
  pop_leading_blank l <> [] ->
  last (pop_leading_blank l) EmptyString = last l EmptyString.
Proof.
  induction l as [|x r IH]; intro H; [contradiction|].
  simpl in *. destruct (is_empty x); [|reflexivity].
  rewrite (IH H). destruct r; [contradiction | reflexivity].
Qed.

Lemma pop_leading_blank_head (l : list string) :
  pop_leading_blank l <> [] -> hd EmptyString (pop_leading_blank l) <> EmptyString.
Proof.
  induction l as [|x r IH]; intro H; [contradiction|].
  simpl in *. destruct (is_empty x) eqn:E; [now apply IH|].
  simpl. now apply is_empty_false.
Qed.

Lemma pop_leading_blank_nil (l : list string) :
  pop_leading_blank l <> [] -> l <> [].
Proof. destruct l; [contradiction | discriminate]. Qed.

Lemma pop_trailing_blank_keeps (l : list string) :
  last l EmptyString <> EmptyString -> pop_trailing_blank l = l.
Proof.
  induction l as [|x r IH]; intro H; [reflexivity|].
  simpl. destruct r as [|y r'].
  - simpl in *. apply is_empty_false in H. now rewrite H.
  - rewrite (IH H). reflexivity.
Qed.

Lemma last_map_cons (g : string -> string) (l : list string) (d d' : string) :
  l <> [] -> last (map g l) d' = g (last l d).
Proof.
  induction l as [|x r IH]; intro H; [contradiction|].
  destruct r as [|y r']; [reflexivity|].
  change (last (map g (x :: y :: r')) d') with (last (map g (y :: r')) d').
  change (last (x :: y :: r') d) with (last (y :: r') d).
  apply IH. discriminate.
Qed.

Lemma last_In (l : list string) (d : string) : l <> [] -> In (last l d) l.
Proof.
  induction l as [|x r IH]; intro H; [contradiction|].
  destruct r as [|y r']; [now left|]. right. apply IH. discriminate.
Qed.

(** The indentation [doc_trim] works out. *)
Lemma indent_step_some (a : nat) (line : string) :
  exists b, indent_step (Some a) line = Some b /\ b <= a.
Proof.
  unfold indent_step. destruct (is_empty (lstrip line)); eauto.
  eexists. split; [reflexivity|]. apply Nat.le_min_l.
Qed.

Lemma min_indent_bound (lines : list string) :
  forall acc i,
  fold_left indent_step lines acc = Some i ->
  (forall a, acc = Some a -> i <= a)
  /\ (forall l, In l lines -> blank l = false -> i <= leading l).
Proof.
  induction lines as [|x r IH]; intros acc i H.
  - simpl in H. subst acc. split; [intros a Ha; inversion Ha; lia | intros l []].
  - simpl in H. apply IH in H. destruct H as [Hacc Hr]. split.
    + intros a Ha. subst acc.
      destruct (indent_step_some a x) as (b & Hb & Hle).
      specialize (Hacc b Hb). lia.
    + intros l [Hl|Hl] Hblank; [subst l | now apply Hr].
      unfold indent_step in Hacc.
      rewrite is_empty_lstrip, Hblank, length_lstrip in Hacc.
      destruct acc as [a|].
      * specialize (Hacc _ eq_refl). pose proof (Nat.le_min_r a (leading x)). lia.
      * now apply Hacc.
Qed.

Lemma min_indent_from_some (lines : list string) :
  forall a, fold_left indent_step lines (Some a) <> None.
Proof.
  induction lines as [|x r IH]; intro a; [discriminate|].
  simpl. destruct (indent_step_some a x) as (b & Hb & _). rewrite Hb. apply IH.
Qed.

Lemma min_indent_exists (lines : list string) :
  forall acc l,
  In l lines -> blank l = false -> fold_left indent_step lines acc <> None.
Proof.
  induction lines as [|x r IH]; intros acc l Hin Hblank; [destruct Hin|].
  simpl. destruct Hin as [Hl|Hl]; [subst x | now apply (IH _ l)].
  unfold indent_step at 2. rewrite is_empty_lstrip, Hblank.
  destruct acc; apply min_indent_from_some.
Qed.

Lemma no_tab_join (lines : list string) :
  Forall (fun l => plain l = true) lines -> no_tab (join NEWLINE lines) = true.
Proof.
  unfold join, no_tab. induction lines as [|e rest IH]; intro Hp; [reflexivity|].
  inversion Hp as [|? ? He Hrest]; subst. apply plain_no_tab in He.
  destruct rest as [|e2 rest]; [exact He|].
  change (String.concat NEWLINE (e :: e2 :: rest))
    with (e ++ NEWLINE ++ String.concat NEWLINE (e2 :: rest))%string.
  rewrite !all_chars_append. unfold no_tab in He. rewrite He, (IH Hrest). reflexivity.
Qed.

Lemma join_head_text (e : string) (rest : list string) :
  e <> EmptyString -> is_empty (join NEWLINE (e :: rest)) = false.
Proof.
  intro H. unfold join. destruct e as [|c e]; [contradiction|].
  destruct rest; reflexivity.
Qed.

Lemma strip_trimmed (s : string) : plain s = true -> trimmed_line (strip s).
Proof.
  intro H. unfold trimmed_line, strip. split; [|apply rstrip_twice].
  unfold plain in *. now apply all_chars_rstrip, all_chars_lstrip.
Qed.

Lemma dedent_trimmed (i : nat) (s : string) :
  plain s = true -> trimmed_line (rstrip (drop i s)).
Proof.
  intro H. unfold trimmed_line. split; [|apply rstrip_twice].
  unfold plain in *. now apply all_chars_rstrip, all_chars_drop.
Qed.

(** What [doc_trim] returns: lines joined by line feeds, each of them plain
    and without white space at its end, and neither the first nor the last
    of them empty. *)
Lemma doc_trim_lines (s : string) :
  exists lines,
    doc_trim s = join NEWLINE lines
    /\ Forall trimmed_line lines
    /\ (lines <> [] ->
        hd EmptyString lines <> EmptyString /\ last lines EmptyString <> EmptyString).
Proof.
  unfold doc_trim. destruct (is_empty s).
  - exists []. split; [reflexivity|]. split; [constructor | intro H; contradiction].
  - set (lines := splitlines (expandtabs s)).
    assert (Hplain : Forall (fun l => plain l = true) lines)
      by (apply splitlines_plain, expandtabs_no_tab).
    set (trimmed := strip (hd EmptyString lines)
                    :: match min_indent lines with
                       | Some i => map (fun line => rstrip (drop i line)) lines
                       | None => []
                       end).
    assert (Htrimmed : Forall trimmed_line trimmed).
    { constructor.
      - apply strip_trimmed. destruct Hplain; [reflexivity | assumption].
      - destruct (min_indent lines) as [i|]; [|constructor].
        apply Forall_map. eapply Forall_impl; [|exact Hplain].
        intros l Hl. now apply dedent_trimmed. }
    exists (pop_leading_blank (pop_trailing_blank trimmed)).
    split; [reflexivity|].
    split; [now apply pop_leading_blank_forall, pop_trailing_blank_forall|].
    intro Hne. split; [now apply pop_leading_blank_head|].
    rewrite (pop_leading_blank_last _ Hne).
    apply pop_trailing_blank_last. now apply pop_leading_blank_nil.
Qed.

(** [doc_trim] on such lines: the first line comes out twice. *)
Lemma doc_trim_of_lines (lines : list string) :
  lines <> [] ->
  Forall trimmed_line lines ->
  hd EmptyString lines <> EmptyString ->
  last lines EmptyString <> EmptyString ->
  exists lines',
    doc_trim (join NEWLINE lines) = join NEWLINE lines'
    /\ Forall (fun l => plain l = true) lines'
    /\ List.length lines' = S (List.length lines).
Proof.
  intros Hne Hlines Hhd Hlast.
  assert (Hplain : Forall (fun l => plain l = true) lines)
    by (eapply Forall_impl; [|exact Hlines]; now intros l [H _]).
  destruct lines as [|e rest]; [contradiction|]. cbn [hd] in Hhd.
  assert (He : trimmed_line e) by now inversion Hlines.
  assert (Hblank_e : blank e = false) by now apply trimmed_line_text.
  assert (Hblank_last : blank (last (e :: rest) EmptyString) = false).
  { apply trimmed_line_text; [|assumption].
    rewrite Forall_forall in Hlines. apply Hlines. now apply last_In. }
  unfold doc_trim.
  rewrite (join_head_text e rest Hhd).
  unfold expandtabs. rewrite (expandtabs_plain _ 0 (no_tab_join _ Hplain)).
  rewrite (splitlines_join _ Hplain Hlast). cbn [hd].
  destruct (min_indent (e :: rest)) as [i|] eqn:Hi;
    [|exfalso; unfold min_indent in Hi;
      apply (min_indent_exists (e :: rest) None e); [now left | | ]; assumption].
  unfold min_indent in Hi. apply min_indent_bound in Hi. destruct Hi as [_ Hi].
  set (g := fun line => rstrip (drop i line)).
  assert (Hstrip : is_empty (strip e) = false).
  { unfold strip. now rewrite is_empty_rstrip, blank_lstrip. }
  assert (Hkeep : pop_leading_blank (pop_trailing_blank (strip e :: map g (e :: rest)))
                  = strip e :: map g (e :: rest)).
  { rewrite pop_trailing_blank_keeps; [cbn [pop_leading_blank]; now rewrite Hstrip|].
    change (last (strip e :: map g (e :: rest)) EmptyString)
      with (last (map g (e :: rest)) EmptyString).
    rewrite (last_map_cons g (e :: rest) EmptyString EmptyString) by discriminate.
    apply is_empty_false. unfold g. rewrite is_empty_rstrip, blank_drop; [assumption|].
    apply Hi; [now apply last_In | assumption]. }
  rewrite Hkeep.
  exists (strip e :: map g (e :: rest)). split; [reflexivity|]. split.
  - constructor; [now apply strip_trimmed; destruct He|].
    apply Forall_map. eapply Forall_impl; [|exact Hplain].
    intros l Hl. now apply dedent_trimmed.
  - cbn [List.length]. now rewrite length_map.
Qed.

(** C10, as the code has it: a second [doc_trim] leaves the result of the
    first as it is when that result is the empty text. *)
Theorem doc_trim_twice (s : string) :
  doc_trim s = EmptyString -> doc_trim (doc_trim s) = doc_trim s.
Proof. intro H. rewrite H. reflexivity. Qed.

(** A docstring whose second line is indented further than its first: the
    first [doc_trim] takes the common indentation away and keeps the rest,
    and a second one does not give the same text again. *)
Lemma doc_trim_not_idempotent :
  doc_trim (join NEWLINE [""; "  a"; "    b"]) = join NEWLINE ["a"; "  b"]
  /\ doc_trim (doc_trim (join NEWLINE [""; "  a"; "    b"]))
     <> doc_trim (join NEWLINE [""; "  a"; "    b"]).
Proof. split; [reflexivity|]. intro H. vm_compute in H. discriminate H. Qed.

(** A docstring of white space only is trimmed to the empty text, which a
    second [doc_trim] leaves as it is. *)
Lemma doc_trim_twice_witness : doc_trim (doc_trim "    ") = doc_trim "    ".
Proof. apply (doc_trim_twice "    "). reflexivity. Defined.
(** ** What a computation establishes *)

Lemma post_run {A : Type} (m : M A) (st : command) (Q : A -> command -> Prop)
    (x : A) (st' : command) :
  post m st Q -> m st = Ok (x, st') -> Q x st'.
Proof. unfold post. intros H E. now rewrite E in H. Qed.

Lemma post_weaken {A : Type} (m : M A) (st : command) (Q Q' : A -> command -> Prop) :
  post m st Q -> (forall x s, Q x s -> Q' x s) -> post m st Q'.
Proof. unfold post. destruct (m st) as [[x s]|]; auto. Qed.

Lemma post_bind {A B : Type} (m : M A) (k : A -> M B) (st : command)
    (Q : B -> command -> Prop) :
  post m st (fun x s => post (k x) s Q) -> post (bind m k) st Q.
Proof. unfold post, bind. destruct (m st) as [[x s]|]; auto. Qed.

Lemma post_ret {A : Type} (x : A) (st : command) (Q : A -> command -> Prop) :
  Q x st -> post (ret x) st Q.
Proof. auto. Qed.

Lemma post_get (st : command) (Q : command -> command -> Prop) :
  Q st st -> post get st Q.
Proof. auto. Qed.

Lemma post_modify (g : command -> command) (st : command) (Q : unit -> command -> Prop) :
  Q tt (g st) -> post (modify g) st Q.
Proof. auto. Qed.

Lemma post_lift {A : Type} (r : result A) (st : command) (Q : A -> command -> Prop) :
  (forall x, r = Ok x -> Q x st) -> post (lift r) st Q.
Proof. unfold post, lift. destruct r; auto. Qed.

Lemma post_raise {A : Type} (e : exn) (st : command) (Q : A -> command -> Prop) :
  post (raise e) st Q.
Proof. exact I. Qed.

Lemma post_for_each {A : Type} (R : command -> Prop) (body : A -> M unit) (l : list A) :
  (forall x st, In x l -> R st -> post (body x) st (fun _ s => R s)) ->
  forall st, R st -> post (for_each l body) st (fun _ s => R s).
Proof.
  induction l as [|x r IH]; intros Hbody st HR; simpl.
  - now apply post_ret.
  - apply post_bind. eapply post_weaken.
    + apply Hbody; [now left | exact HR].
    + intros u s Hs. apply IH; [|exact Hs].
      intros y st1 Hy. apply Hbody. now right.
Qed.

Lemma carried_refl (st : command) : carried st st.
Proof. unfold carried. auto 10. Qed.

Lemma carried_errors (st0 st : command) :
  carried st0 st -> carried st0 (set_errors st).
Proof. unfold carried. simpl. intuition. Qed.

Lemma carried_method_spec (st0 st : command) (x : dict) :
  carried st0 st -> carried st0 (with_method_spec x st).
Proof. unfold carried. simpl. intuition. Qed.

Lemma carried_controller_class (st0 st : command) (x : option controller) :
  carried st0 st -> carried st0 (with_controller_class x st).
Proof. unfold carried. simpl. intuition. Qed.

Lemma carried_model_name (st0 st : command) (x : string) :
  carried st0 st -> carried st0 (with_model_name x st).
Proof. unfold carried. simpl. intuition. Qed.

Lemma carried_method_name (st0 st : command) (x : string) :
  carried st0 st -> carried st0 (with_method_name x st).
Proof. unfold carried. simpl. intuition. Qed.

Lemma carried_get_is_list (st0 st : command) (x : bool) :
  carried st0 st -> carried st0 (with_get_is_list x st).
Proof. unfold carried. simpl. intuition. Qed.

Lemma carried_schemas (st0 st : command) (k : key) (v : pyval) :
  carried st0 st -> carried st0 (with_schemas (dset k v (schemas st)) st).
Proof.
  unfold carried. simpl. intuition. apply dmem_dset_mono. auto.
Qed.

Lemma carried_register (st0 st : command) (model : string) (required : list key)
    (items : pyval) :
  carried st0 st ->
  carried st0 (with_schemas (register_schemas model required items (schemas st)) st).
Proof.
  unfold carried, register_schemas. simpl. intuition.
  do 3 apply dmem_dset_mono. auto.
Qed.

Lemma setitem_keys {A : Type} (n : string) (x y : A) (l : list (string * A)) :
  getattr l n = Some y -> map fst (setitem n x l) = map fst l.
Proof.
  induction l as [|[n' z] r IH]; simpl; [discriminate|].
  destruct (String.eqb n n') eqn:E; simpl; [reflexivity|].
  intro H. now rewrite IH.
Qed.

Lemma carried_paths (st0 st : command) (u : string) (x y : list (string * dict)) :
  getattr (paths st) u = Some y ->
  carried st0 st -> carried st0 (with_paths (setitem u x (paths st)) st).
Proof.
  unfold carried. simpl. intros Hu H.
  rewrite (setitem_keys _ _ _ _ Hu). intuition.
Qed.

Create HintDb carried.

#[local] Hint Resolve carried_refl carried_errors carried_method_spec
  carried_controller_class carried_model_name carried_method_name
  carried_get_is_list carried_schemas carried_register : carried.

(** One step through a computation whose every part carries the state. *)
Ltac carry_step :=
  match goal with
  | |- post (bind _ _) _ _ => apply post_bind
  | |- post (ret _) _ _ => apply post_ret
  | |- post get _ _ => apply post_get
  | |- post (modify _) _ _ => apply post_modify
  | |- post log_error _ _ => apply post_modify
  | |- post (set_method_spec _) _ _ => apply post_modify
  | |- post (lift _) _ _ => apply post_lift; intros ? ?
  | |- post (raise _) _ _ => apply post_raise
  | |- post (match ?x with _ => _ end) _ _ => destruct x eqn:?
  | |- carried _ _ => solve [auto with carried]
  end; cbv beta.

Ltac carry := repeat carry_step.

(** A call of a computation that is known to carry the state. *)
Ltac carry_call L :=
  lazymatch goal with
  | |- post (bind _ _) _ _ => apply post_bind
  | _ => idtac
  end;
  eapply post_weaken;
  [ eapply L; first [eassumption | solve [eauto with carried]]
  | let H := fresh "H" in intros ? ? H; cbv beta in H |- *; try assumption ].

Lemma load_docstring_carried (d : docblock) (st0 st : command) :
  carried st0 st -> post (load_docstring d) st (fun _ s => carried st0 s).
Proof. intro H. unfold load_docstring. carry. Qed.

Lemma ensure_docstring_carried (d : option string) (st0 st : command) :
  carried st0 st -> post (ensure_docstring d) st (fun _ s => carried st0 s).
Proof. intro H. unfold ensure_docstring. carry. Qed.

Lemma install_default_response_data_carried (st0 st : command) :
  carried st0 st -> post install_default_response_data st (fun _ s => carried st0 s).
Proof. intro H. unfold install_default_response_data. carry. Qed.

Lemma set_operation_carried (verb : string) (operation : dict) (st0 st : command) :
  carried st0 st -> post (set_operation verb operation) st (fun _ s => carried st0 s).
Proof.
  intro H. unfold set_operation. carry.
  eapply carried_paths; eassumption.
Qed.

Lemma parse_patch_method_carried (st0 st : command) :
  carried st0 st -> post parse_patch_method st (fun _ s => carried st0 s).
Proof.
  intro H. unfold parse_patch_method. carry.
  carry_call set_operation_carried; carry.
  carry_call set_operation_carried.
Qed.

Lemma append_parameter_carried (pd : dict) (st0 st : command) :
  carried st0 st -> post (append_parameter pd) st (fun _ s => carried st0 s).
Proof. intro H. unfold append_parameter. carry. Qed.

Lemma path_params_loop_carried (params : list string) (st0 : command) :
  forall (pp : pyval) (st : command),
  carried st0 st -> post (path_params_loop params pp) st (fun _ s => carried st0 s).
Proof.
  induction params as [|p rest IH]; intros pp st H; cbn [path_params_loop].
  - carry.
  - carry; try (apply IH; auto with carried).
    carry_call append_parameter_carried. apply IH. assumption.
Qed.

Lemma parse_path_params_carried (pp : pyval) (st0 st : command) :
  carried st0 st -> post (parse_path_params pp) st (fun _ s => carried st0 s).
Proof.
  intro H. unfold parse_path_params. carry.
  carry_call path_params_loop_carried; carry.
Qed.

Lemma input_schema_loop_carried (cc : controller) (fields : list string) (st0 : command) :
  forall (required : list pyval) (properties : dict) (st : command),
  carried st0 st ->
  post (input_schema_loop cc fields required properties) st (fun _ s => carried st0 s).
Proof.
  induction fields as [|f rest IH]; intros required properties st H;
    cbn [input_schema_loop].
  - carry.
  - carry; try (apply IH; auto with carried).
    carry_call load_docstring_carried; carry; try (apply IH; auto with carried).
Qed.

Lemma parse_input_schema_carried (st0 st : command) :
  carried st0 st -> post parse_input_schema st (fun _ s => carried st0 s).
Proof.
  intro H. unfold parse_input_schema. carry.
  carry_call input_schema_loop_carried; carry.
Qed.

Lemma reconcile_fields_carried (sub : string -> pyval -> M unit) (name : string)
    (items : pyval) (st0 : command) :
  (forall n ref st, carried st0 st -> post (sub n ref) st (fun _ s => carried st0 s)) ->
  forall (fields : list string) (doc_fields : list key) (st : command),
  carried st0 st ->
  post (reconcile_fields sub name items fields doc_fields) st
       (fun _ s => carried st0 s).
Proof.
  intros Hsub fields.
  induction fields as [|f rest IH]; intros doc_fields st H; cbn [reconcile_fields].
  - carry.
  - carry; try (apply IH; auto with carried);
      carry_call Hsub; apply IH; assumption.
Qed.

Lemma parse_sub_serializer_with_carried (parse : option serializer -> M unit)
    (a : application) (st0 : command) :
  (forall so st, carried st0 st -> post (parse so) st (fun _ s => carried st0 s)) ->
  forall n ref st, carried st0 st ->
  post (parse_sub_serializer_with a parse n ref) st (fun _ s => carried st0 s).
Proof.
  intros Hparse n ref st H. unfold parse_sub_serializer_with. carry.
  carry_call Hparse; carry.
Qed.

Lemma parse_serializer_carried (a : application) (fuel : nat) (st0 : command) :
  forall so st, carried st0 st ->
  post (parse_serializer a fuel so) st (fun _ s => carried st0 s).
Proof.
  induction fuel as [|n IH]; intros so st H; cbn [parse_serializer].
  - carry.
  - carry. carry_call load_docstring_carried; carry.
    eapply post_weaken.
    + eapply reconcile_fields_carried; [|eassumption].
      intros. apply parse_sub_serializer_with_carried; [exact IH | assumption].
    + intros ? ? H'. cbv beta in H' |- *. carry.
Qed.

Lemma parse_controller_carried (a : application) (name : pyval) (st0 st : command) :
  carried st0 st -> post (parse_controller a name) st (fun _ s => carried st0 s).
Proof.
  intro H. unfold parse_controller. carry;
    carry_call parse_input_schema_carried; carry.
Qed.

Lemma get_permission_details_carried (pm : string * option string) (st0 st : command) :
  carried st0 st -> post (get_permission_details pm) st (fun _ s => carried st0 s).
Proof.
  intro H. unfold get_permission_details. carry.
  carry_call ensure_docstring_carried; carry.
Qed.

Lemma parse_permissions_carried (a : application) (st0 st : command) :
  carried st0 st -> post (parse_permissions a) st (fun _ s => carried st0 s).
Proof.
  intro H. unfold parse_permissions. carry;
    carry_call get_permission_details_carried; carry.
Qed.

Lemma store_method_spec_carried (st0 st : command) :
  carried st0 st -> post store_method_spec st (fun _ s => carried st0 s).
Proof.
  intro H. unfold store_method_spec. carry.
  carry_call set_operation_carried.
Qed.

Lemma analyse_method_carried (a : application) (m : method) (st0 st : command) :
  carried st0 st -> post (analyse_method a m) st (fun _ s => carried st0 s).
Proof.
  intro H. unfold analyse_method. carry.
  carry_call load_docstring_carried; carry.
  carry_call parse_path_params_carried; carry.
  carry_call parse_controller_carried.
  carry_call parse_permissions_carried.
  carry_call install_default_response_data_carried.
Qed.

Lemma parse_view_method_carried (a : application) (m : method) (st0 st : command) :
  carried st0 st -> post (parse_view_method a m) st (fun _ s => carried st0 s).
Proof.
  intro H. unfold parse_view_method. carry.
  carry_call set_operation_carried; carry.
  carry_call store_method_spec_carried; carry.
  - carry_call parse_patch_method_carried.
  - carry_call analyse_method_carried.
    carry_call store_method_spec_carried.
Qed.

Lemma parse_view_class_carried (a : application) (fuel : nat) (vc : view_class)
    (st0 st : command) :
  carried st0 st -> post (parse_view_class a fuel vc) st (fun _ s => carried st0 s).
Proof.
  intro H. unfold parse_view_class. carry.
  carry_call parse_serializer_carried.
  apply (post_for_each (carried st0)); [|assumption].
  intros name s1 Hin Hs. carry.
  carry_call parse_view_method_carried.
Qed.

(** ** The document as a whole *)

Lemma carried_kept (st0 st : command) : carried st0 st -> kept st0 st.
Proof. unfold carried, kept. intuition. Qed.

Lemma kept_refl (st : command) : kept st st.
Proof. unfold kept. auto 10. Qed.

Lemma kept_trans (st1 st2 st3 : command) : kept st1 st2 -> kept st2 st3 -> kept st1 st3.
Proof.
  unfold kept. intros (E1 & S1 & I1 & T1 & V1 & X1) (E2 & S2 & I2 & T2 & V2 & X2).
  repeat split; auto; congruence.
Qed.

Lemma setitem_In {A : Type} (n u : string) (x : A) (l : list (string * A)) :
  In u (map fst (setitem n x l)) <-> u = n \/ In u (map fst l).
Proof.
  induction l as [|[n' y] r IH]; simpl.
  - intuition.
  - destruct (String.eqb n n') eqn:E; simpl.
    + apply String.eqb_eq in E. subst n'. intuition.
    + rewrite IH. intuition.
Qed.

(** A route opens its path, and changes the other paths, the module
    information and the tags in nothing. *)
Lemma parse_urlpattern_effect (a : application) (fuel : nat) (up : urlpattern)
    (st : command) :
  post (parse_urlpattern a fuel up) st
       (fun _ s => kept st s
                   /\ map fst (paths s) = map fst (setitem (route_url up) [] (paths st))).
Proof.
  unfold parse_urlpattern.
  apply post_bind, post_modify, post_bind, post_get, post_bind, post_modify.
  destruct (getattr (importable a) _) as [service_file|]; [|apply post_raise].
  apply post_bind, post_modify.
  destruct (getattr (view_module a) _) as [vc|]; [|apply post_raise].
  eapply post_weaken; [apply parse_view_class_carried, carried_refl|].
  intros u s H. cbv beta in H |- *. split.
  - apply carried_kept in H. revert H. unfold kept. simpl. auto.
  - destruct H as (_ & _ & _ & _ & _ & _ & H & _). exact H.
Qed.

Lemma routes_effect (a : application) (fuel : nat) (ups : list urlpattern) :
  forall st,
  post (for_each ups (parse_urlpattern a fuel)) st
       (fun _ s => kept st s
                   /\ forall u, In u (map fst (paths s))
                                <-> In u (map fst (paths st)) \/ In u (map route_url ups)).
Proof.
  induction ups as [|up rest IH]; intro st; simpl.
  - apply post_ret. split; [apply kept_refl | intuition].
  - apply post_bind. eapply post_weaken; [apply parse_urlpattern_effect|].
    intros u1 s1 [K1 P1]. cbv beta.
    eapply post_weaken; [apply IH|].
    intros u2 s2 [K2 P2]. cbv beta. split.
    + eapply kept_trans; eassumption.
    + intro u. rewrite P2, P1, setitem_In. intuition.
Qed.

Lemma parse_view_file_effect (vf : pymodule) (st : command) :
  post (parse_view_file vf) st
       (fun _ s => (errors st = true -> errors s = true)
                   /\ schemas s = schemas st /\ info s = info st
                   /\ servers s = servers st /\ externalDocs s = externalDocs st
                   /\ paths s = paths st
                   /\ tags s = tags st ++ [tag_entry vf]).
Proof.
  unfold parse_view_file, ensure_docstring, tag_entry.
  destruct (mod_doc vf); cbn; auto 10.
Qed.

Lemma view_files_effect (vfs : list pymodule) :
  forall st,
  post (for_each vfs parse_view_file) st
       (fun _ s => (errors st = true -> errors s = true)
                   /\ schemas s = schemas st /\ info s = info st
                   /\ servers s = servers st /\ externalDocs s = externalDocs st
                   /\ paths s = paths st
                   /\ tags s = tags st ++ map tag_entry vfs).
Proof.
  induction vfs as [|vf rest IH]; intro st; simpl.
  - apply post_ret. rewrite app_nil_r. auto 10.
  - apply post_bind. eapply post_weaken; [apply parse_view_file_effect|].
    intros u1 s1 (E1 & S1 & I1 & V1 & X1 & P1 & T1). cbv beta.
    eapply post_weaken; [apply IH|].
    intros u2 s2 (E2 & S2 & I2 & V2 & X2 & P2 & T2). cbv beta.
    repeat split; try congruence; auto.
    rewrite T2, T1, <- app_assoc. reflexivity.
Qed.

(** [parse_module] returns, and changes nothing but the module
    information and the error flag. *)
Lemma parse_module_effect (a : application) (st : command) :
  exists s, parse_module a st = Ok (tt, s)
    /\ (errors st = true -> errors s = true)
    /\ schemas s = schemas st /\ tags s = tags st /\ paths s = paths st
    /\ (three_part_version a = false -> errors s = true).
Proof.
  unfold parse_module, three_part_version.
  destruct (module_version a) as [[| | |v| |]|];
    try (eexists; split; [reflexivity|]; cbn; auto 10; fail).
  destruct (List.length (split_on "." v) =? 3); cbn [negb].
  - destruct (module_doc a); eexists; (split; [reflexivity|]); cbn; auto 10;
      repeat split; auto; discriminate.
  - eexists. split; [reflexivity|]. cbn. auto 10.
Qed.

(** What a whole run of [handle] leaves of the state it starts in. *)
Lemma handle_effect (a : application) (fuel : nat) (st : command) :
  exists s1, parse_module a st = Ok (tt, s1)
    /\ post (handle a fuel) st
         (fun _ s =>
            (errors s1 = true -> errors s = true)
            /\ (forall k, dmem k (schemas st) = true -> dmem k (schemas s) = true)
            /\ info s = info s1 /\ servers s = servers s1
            /\ externalDocs s = externalDocs s1
            /\ tags s = tags st ++ map tag_entry (view_files a)
            /\ forall u, In u (map fst (paths s))
                         <-> In u (map fst (paths st))
                             \/ In u (map route_url (urlpatterns a))).
Proof.
  destruct (parse_module_effect a st) as (s1 & Hm & E1 & S1 & T1 & P1 & _).
  exists s1. split; [exact Hm|].
  unfold handle. unfold post at 1. rewrite bind_run, Hm. cbv beta iota.
  change (post (for_each (view_files a) parse_view_file ;;
                for_each (urlpatterns a) (parse_urlpattern a fuel)) s1
            (fun _ s =>
               (errors s1 = true -> errors s = true)
               /\ (forall k, dmem k (schemas st) = true -> dmem k (schemas s) = true)
               /\ info s = info s1 /\ servers s = servers s1
               /\ externalDocs s = externalDocs s1
               /\ tags s = tags st ++ map tag_entry (view_files a)
               /\ forall u, In u (map fst (paths s))
                            <-> In u (map fst (paths st))
                                \/ In u (map route_url (urlpatterns a)))).
  apply post_bind. eapply post_weaken; [apply view_files_effect|].
  intros u2 s2 (E2 & S2 & I2 & V2 & X2 & P2 & T2). cbv beta.
  eapply post_weaken; [apply routes_effect|].
  intros u3 s3 ((E3 & S3 & I3 & T3 & V3 & X3) & P3). cbv beta.
  repeat split; try congruence; auto.
  - intros k Hk. apply S3. rewrite S2, S1. exact Hk.
  - intro Hu. apply P3 in Hu. rewrite P2, P1 in Hu. exact Hu.
  - intro Hu. apply P3. rewrite P2, P1. exact Hu.
Qed.

(** X1: Nothing in the generator takes the error flag back: a run of [handle]
    that starts with the flag set ends with it set. *)
Theorem error_flag_is_kept (a : application) (fuel : nat) (st st' : command) :
  errors st = true -> handle a fuel st = Ok (tt, st') -> errors st' = true.
Proof.
  intros He Hrun.
  destruct (handle_effect a fuel st) as (s1 & Hm & Hpost).
  apply (post_run _ _ _ _ _ Hpost) in Hrun. destruct Hrun as (E & _).
  apply E.
  destruct (parse_module_effect a st) as (s1' & Hm' & E1 & _).
  rewrite Hm in Hm'. inversion Hm'; subst s1'. auto.
Qed.

Lemma error_flag_is_kept_witness :
  errors (final_state (handle gadget_app 10 (set_errors initial))) = true.
Proof.
  apply (error_flag_is_kept gadget_app 10 (set_errors initial)).
  - reflexivity.
  - vm_compute. reflexivity.
Defined.

(** X2: A module whose version is missing, is not a string or does not have
    three parts never gets a document written: the error [parse_module]
    records stays until the end of the run, if the run gets there. *)
Theorem malformed_version_fails_run (a : application) (fuel : nat) :
  three_part_version a = false -> not_written (run a fuel) = true.
Proof.
  intro Hv. unfold run.
  destruct (handle a fuel initial) as [[[] st']|] eqn:Hrun; [|reflexivity].
  destruct (handle_effect a fuel initial) as (s1 & Hm & Hpost).
  apply (post_run _ _ _ _ _ Hpost) in Hrun. destruct Hrun as (E & _).
  destruct (parse_module_effect a initial) as (s1' & Hm' & _ & _ & _ & _ & Hbad).
  rewrite Hm in Hm'. inversion Hm'; subst s1'.
  rewrite E; [reflexivity | auto].
Qed.

Lemma malformed_version_fails_run_witness :
  not_written (run (app_with_version "1.2") 1) = true.
Proof. apply malformed_version_fails_run. reflexivity. Defined.

(** X3: No schema is taken out of the registry: what is registered when
    [handle] starts, the default schemas among it, is registered when it
    returns. *)
Theorem schemas_are_never_removed (a : application) (fuel : nat) (st st' : command)
    (k : key) :
  dmem k (schemas st) = true ->
  handle a fuel st = Ok (tt, st') ->
  dmem k (schemas st') = true.
Proof.
  intros Hk Hrun.
  destruct (handle_effect a fuel st) as (s1 & Hm & Hpost).
  apply (post_run _ _ _ _ _ Hpost) in Hrun. destruct Hrun as (_ & S & _).
  auto.
Qed.

Lemma schemas_are_never_removed_witness :
  dmem (KStr "ListMetadata") (schemas (final_state (handle gadget_app 10 initial))) = true.
Proof.
  apply (schemas_are_never_removed gadget_app 10 initial).
  - reflexivity.
  - vm_compute. reflexivity.
Defined.

(** X4: A written document has one tag for each view file, in the order of the
    view files, and no other. *)
Theorem tags_follow_view_files (a : application) (fuel : nat) (doc : pyval) :
  run a fuel = Written doc ->
  py_getitem doc "tags" = Ok (VList (map tag_entry (view_files a))).
Proof.
  unfold run. intro H.
  destruct (handle a fuel initial) as [[[] st']|] eqn:Hrun; [|discriminate].
  destruct (errors st'); [discriminate|].
  destruct (dumpable (document st')); [|discriminate].
  inversion H; subst doc; clear H.
  destruct (handle_effect a fuel initial) as (s1 & Hm & Hpost).
  apply (post_run _ _ _ _ _ Hpost) in Hrun.
  destruct Hrun as (_ & _ & _ & _ & _ & T & _).
  unfold document. cbn [py_getitem dget key_eqb String.eqb Ascii.eqb Bool.eqb List.app].
  rewrite T. reflexivity.
Qed.

Lemma tags_follow_view_files_witness :
  py_getitem (document (final_state (handle gadget_app 10 initial))) "tags"
  = Ok (VList (map tag_entry (view_files gadget_app))).
Proof.
  apply (tags_follow_view_files gadget_app 10).
  vm_compute. reflexivity.
Defined.

(** X5: The paths of a written document are the URLs of the routes: every
    route has its path, and there is no other path. *)
Theorem paths_follow_routes (a : application) (fuel : nat) (doc : pyval) :
  run a fuel = Written doc ->
  exists ps, py_getitem doc "paths" = Ok (VDict ps)
    /\ forall u, In (KStr u) (dkeys ps) <-> In u (map route_url (urlpatterns a)).
Proof.
  unfold run. intro H.
  destruct (handle a fuel initial) as [[[] st']|] eqn:Hrun; [|discriminate].
  destruct (errors st'); [discriminate|].
  destruct (dumpable (document st')); [|discriminate].
  inversion H; subst doc; clear H.
  destruct (handle_effect a fuel initial) as (s1 & Hm & Hpost).
  apply (post_run _ _ _ _ _ Hpost) in Hrun.
  destruct Hrun as (_ & _ & _ & _ & _ & _ & P).
  unfold document, paths_value.
  cbn [py_getitem dget key_eqb String.eqb Ascii.eqb Bool.eqb List.app].
  eexists. split; [reflexivity|].
  intro u. unfold dkeys. rewrite map_map. cbn [fst].
  split.
  - intro H. apply in_map_iff in H. destruct H as ([n ops] & Hx & Hin).
    cbn [fst] in Hx. inversion Hx; subst n.
    assert (Hu : In u (map fst (paths st'))).
    { apply in_map_iff. exists (u, ops). auto. }
    apply P in Hu. destruct Hu as [[]|Hu]. exact Hu.
  - intro H.
    assert (Hu : In u (map fst (paths st'))) by (apply P; now right).
    apply in_map_iff in Hu. destruct Hu as ([n ops] & Hn & Hin).
    cbn [fst] in Hn. subst n.
    apply in_map_iff. exists (u, ops). auto.
Qed.

Lemma paths_follow_routes_witness :
  exists ps,
    py_getitem (document (final_state (handle gadget_app 10 initial))) "paths"
    = Ok (VDict ps)
    /\ forall u, In (KStr u) (dkeys ps) <-> In u (map route_url (urlpatterns gadget_app)).
Proof.
  apply (paths_follow_routes gadget_app 10).
  vm_compute. reflexivity.
Defined.

(** [parse_module] from the start of a run, when it records no error. *)
Lemma parse_module_clean (a : application) (s1 : command) :
  parse_module a initial = Ok (tt, s1) ->
  errors s1 = false ->
  exists version text,
    module_version a = Some (VStr version) /\ module_doc a = Some text
    /\ info s1 = [ "contact" =: VDict ["email" =: VStr "developers@cloudcix.com"];
                   "title" =: VStr (capitalise (module_name a));
                   "version" =: VStr version;
                   "description" =: VStr (strip (doc_trim text)) ]
    /\ servers s1
       = Some (VList [VDict ["url" =: VStr ("https://" ++ module_name a
                                            ++ ".api.cloudcix.com/")]])
    /\ externalDocs s1
       = Some (VDict [ "description" =: VStr "View Docs in JSON format";
                       "url" =: VStr ("https://" ++ module_name a
                                      ++ ".api.cloudcix.com/documentation/") ]).
Proof.
  unfold parse_module.
  destruct (module_version a) as [[| | |v| |]|];
    try (intros H E; inversion H; subst s1; discriminate E).
  destruct (List.length (split_on "." v) =? 3); cbn [negb];
    [|intros H E; inversion H; subst s1; discriminate E].
  destruct (module_doc a) as [text|];
    intros H E; inversion H; subst s1; [|discriminate E].
  exists v, text. repeat split.
Qed.

(** X6: The head of a written document is read off the module: the title is
    the capitalised module name, the version is [__version__], the description
    is the module docstring, and the server and the link to the JSON format
    are made of the module name. *)
Theorem written_header (a : application) (fuel : nat) (doc : pyval) :
  run a fuel = Written doc ->
  exists version text,
    module_version a = Some (VStr version) /\ module_doc a = Some text
    /\ py_getitem doc "info"
       = Ok (VDict [ "contact" =: VDict ["email" =: VStr "developers@cloudcix.com"];
                     "title" =: VStr (capitalise (module_name a));
                     "version" =: VStr version;
                     "description" =: VStr (strip (doc_trim text)) ])
    /\ py_getitem doc "servers"
       = Ok (VList [VDict ["url" =: VStr ("https://" ++ module_name a
                                          ++ ".api.cloudcix.com/")]])
    /\ py_getitem doc "externalDocs"
       = Ok (VDict [ "description" =: VStr "View Docs in JSON format";
                     "url" =: VStr ("https://" ++ module_name a
                                    ++ ".api.cloudcix.com/documentation/") ]).
Proof.
  unfold run. intro H.
  destruct (handle a fuel initial) as [[[] st']|] eqn:Hrun; [|discriminate].
  destruct (errors st') eqn:Herr; [discriminate|].
  destruct (dumpable (document st')); [|discriminate].
  inversion H; subst doc; clear H.
  destruct (handle_effect a fuel initial) as (s1 & Hm & Hpost).
  apply (post_run _ _ _ _ _ Hpost) in Hrun.
  destruct Hrun as (E & _ & I & V & X & _).
  assert (E1 : errors s1 = false).
  { destruct (errors s1); [|reflexivity]. rewrite E in Herr; [discriminate | reflexivity]. }
  destruct (parse_module_clean a s1 Hm E1) as (version & text & Hv & Hd & Hi & Hs & Hx).
  exists version, text. split; [exact Hv|]. split; [exact Hd|].
  unfold document. rewrite V, X, Hs, Hx, I, Hi.
  repeat split.
Qed.

Lemma written_header_witness :
  exists version text,
    module_version gadget_app = Some (VStr version) /\ module_doc gadget_app = Some text
    /\ py_getitem (document (final_state (handle gadget_app 10 initial))) "info"
       = Ok (VDict [ "contact" =: VDict ["email" =: VStr "developers@cloudcix.com"];
                     "title" =: VStr (capitalise (module_name gadget_app));
                     "version" =: VStr version;
                     "description" =: VStr (strip (doc_trim text)) ])
    /\ py_getitem (document (final_state (handle gadget_app 10 initial))) "servers"
       = Ok (VList [VDict ["url" =: VStr ("https://" ++ module_name gadget_app
                                          ++ ".api.cloudcix.com/")]])
    /\ py_getitem (document (final_state (handle gadget_app 10 initial))) "externalDocs"
       = Ok (VDict [ "description" =: VStr "View Docs in JSON format";
                     "url" =: VStr ("https://" ++ module_name gadget_app
                                    ++ ".api.cloudcix.com/documentation/") ]).
Proof.
  apply (written_header gadget_app 10).
  vm_compute. reflexivity.
Defined.

(** ** The default components *)

Lemma find_by_text (s : string) (d : dict) :
  dmem (KStr s) d = true ->
  exists kv, find (fun kv : key * pyval => String.eqb (str_of_key (fst kv)) s) d = Some kv.
Proof.
  unfold dmem. induction d as [|[k v] r IH]; [discriminate|].
  cbn [dget find fst]. destruct (String.eqb (str_of_key k) s) eqn:E; [eauto|].
  destruct (key_eqb (KStr s) k) eqn:Ek.
  - apply key_eqb_eq in Ek. subst k. cbn [str_of_key] in E.
    now rewrite String.eqb_refl in E.
  - exact IH.
Qed.

Lemma walk_to_schema (st : command) (name : string) :
  dmem (KStr name) (schemas st) = true ->
  walk ["components"; "schemas"; name] (document st) = true.
Proof.
  intro H. unfold document.
  cbn [walk List.app find fst snd str_of_key String.eqb Ascii.eqb Bool.eqb].
  destruct (find_by_text name (schemas st) H) as [[k v] Hfind].
  now rewrite Hfind.
Qed.

Lemma walk_to_response (st : command) (code : string) :
  dmem (KStr code) DEFAULT_RESPONSES = true ->
  walk ["components"; "responses"; code] (document st) = true.
Proof.
  intro H. unfold document.
  cbn [walk List.app find fst snd str_of_key String.eqb Ascii.eqb Bool.eqb].
  destruct (find_by_text code DEFAULT_RESPONSES H) as [[k v] Hfind].
  now rewrite Hfind.
Qed.

(** X7: In a written document the references the generator places on its own
    account resolve: the shared responses are there, and no run takes the
    default schemas out of the registry. *)
Theorem own_references_resolve (a : application) (fuel : nat) (doc : pyval) :
  run a fuel = Written doc ->
  Forall (fun ref => resolves doc ref = true) own_references.
Proof.
  unfold run. intro H.
  destruct (handle a fuel initial) as [[[] st']|] eqn:Hrun; [|discriminate].
  destruct (errors st'); [discriminate|].
  destruct (dumpable (document st')); [|discriminate].
  inversion H; subst doc; clear H.
  destruct (handle_effect a fuel initial) as (s1 & Hm & Hpost).
  apply (post_run _ _ _ _ _ Hpost) in Hrun. destruct Hrun as (_ & S & _).
  unfold own_references.
  change (refs_of (VDict DEFAULT_RESPONSES))
    with ["#/components/schemas/Error"; "#/components/schemas/MultiError";
          "#/components/schemas/Error"; "#/components/schemas/Error"].
  change (refs_of (VDict DEFAULT_SCHEMAS)) with ["#/components/schemas/Error"].
  repeat constructor; unfold resolves;
    match goal with
    | |- context [split_on "/" ?r] =>
        let v := eval vm_compute in (split_on "/" r) in
        change (split_on "/" r) with v
    end;
    cbv iota;
    first [ apply walk_to_response; reflexivity
          | apply walk_to_schema, S; reflexivity ].
Qed.

Lemma own_references_resolve_witness :
  Forall (fun ref => resolves (document (final_state (handle gadget_app 10 initial))) ref
                     = true)
         own_references.
Proof.
  apply (own_references_resolve gadget_app 10).
  vm_compute. reflexivity.
Defined.

(** ** Serializers: what a call leaves alone *)

Lemma untouched_refl (st : command) : untouched st st.
Proof. unfold untouched. now destruct st. Qed.

Lemma untouched_fields (st0 st : command) :
  untouched st0 st <->
  info st = info st0 /\ tags st = tags st0 /\ paths st = paths st0
  /\ servers st = servers st0 /\ externalDocs st = externalDocs st0
  /\ controller_class st = controller_class st0 /\ get_is_list st = get_is_list st0
  /\ method_name st = method_name st0 /\ method_spec st = method_spec st0
  /\ model_name st = model_name st0 /\ tag st = tag st0 /\ url st = url st0.
Proof.
  unfold untouched. split.
  - intro H. rewrite H. cbn. repeat split.
  - intros (H1 & H2 & H3 & H4 & H5 & H6 & H7 & H8 & H9 & H10 & H11 & H12).
    destruct st, st0. cbn in *. subst. reflexivity.
Qed.

Lemma untouched_errors (st0 st : command) :
  untouched st0 st -> untouched st0 (set_errors st).
Proof. rewrite !untouched_fields. cbn. auto. Qed.

Lemma untouched_schemas (st0 st : command) (x : dict) :
  untouched st0 st -> untouched st0 (with_schemas x st).
Proof. rewrite !untouched_fields. cbn. auto. Qed.

Lemma untouched_restore (st0 st1 st2 : command) (sub : string) :
  untouched st0 st1 ->
  untouched (with_model_name sub st1) st2 ->
  untouched st0 (with_model_name (model_name st1) st2).
Proof.
  rewrite !untouched_fields. cbn.
  intros (H1 & H2 & H3 & H4 & H5 & H6 & H7 & H8 & H9 & H10 & H11 & H12)
         (K1 & K2 & K3 & K4 & K5 & K6 & K7 & K8 & K9 & K10 & K11 & K12).
  repeat split; congruence.
Qed.

Create HintDb untouched.

#[local] Hint Resolve untouched_refl untouched_errors untouched_schemas : untouched.

Ltac leave_step :=
  match goal with
  | |- post (bind _ _) _ _ => apply post_bind
  | |- post (ret _) _ _ => apply post_ret
  | |- post get _ _ => apply post_get
  | |- post (modify _) _ _ => apply post_modify
  | |- post log_error _ _ => apply post_modify
  | |- post (lift _) _ _ => apply post_lift; intros ? ?
  | |- post (raise _) _ _ => apply post_raise
  | |- post (match ?x with _ => _ end) _ _ => destruct x eqn:?
  | |- untouched _ _ => solve [auto with untouched]
  end; cbv beta.

Ltac leave := repeat leave_step.

Lemma load_docstring_untouched (d : docblock) (st0 st : command) :
  untouched st0 st -> post (load_docstring d) st (fun _ s => untouched st0 s).
Proof. intro H. unfold load_docstring. leave. Qed.

Lemma reconcile_fields_untouched (sub : string -> pyval -> M unit) (name : string)
    (items : pyval) (st0 : command) :
  (forall n ref st, untouched st0 st -> post (sub n ref) st (fun _ s => untouched st0 s)) ->
  forall (fields : list string) (doc_fields : list key) (st : command),
  untouched st0 st ->
  post (reconcile_fields sub name items fields doc_fields) st
       (fun _ s => untouched st0 s).
Proof.
  intros Hsub fields.
  induction fields as [|f rest IH]; intros doc_fields st H; cbn [reconcile_fields].
  - leave.
  - leave; try (apply IH; auto with untouched);
      (eapply post_weaken; [apply Hsub; assumption|]);
      (let Hs := fresh "Hs" in intros ? ? Hs; cbv beta in Hs |- *; apply IH; assumption).
Qed.

Lemma parse_sub_serializer_with_untouched (parse : option serializer -> M unit)
    (a : application) :
  (forall so st, post (parse so) st (fun _ s => untouched st s)) ->
  forall st0 n ref st, untouched st0 st ->
  post (parse_sub_serializer_with a parse n ref) st (fun _ s => untouched st0 s).
Proof.
  intros Hparse st0 n ref st H. unfold parse_sub_serializer_with. leave.
  eapply post_weaken; [apply Hparse|].
  intros u s2 Hs. cbv beta in Hs |- *. leave.
  eapply untouched_restore; eassumption.
Qed.

Lemma parse_serializer_untouched (a : application) (fuel : nat) :
  forall so st, post (parse_serializer a fuel so) st (fun _ s => untouched st s).
Proof.
  induction fuel as [|n IH]; intros so st; cbn [parse_serializer].
  - leave.
  - leave.
    eapply post_weaken; [apply load_docstring_untouched, untouched_refl|].
    intros u s1 Hs. cbv beta in Hs |- *. leave.
    eapply post_weaken.
    + eapply reconcile_fields_untouched; [|eassumption].
      intros. apply parse_sub_serializer_with_untouched; [exact IH | assumption].
    + intros u' s2 Hs'. cbv beta in Hs' |- *. leave.
Qed.

(** X8: [parse_serializer] changes the error flag and the registry of schemas
    and nothing else, however deep it goes into the declarations that are
    referred to: the current model, which [parse_sub_serializer] changes on
    the way in, is the same again on the way out. *)
Theorem parse_serializer_leaves_the_rest (a : application) (fuel : nat)
    (so : option serializer) (st st' : command) :
  parse_serializer a fuel so st = Ok (tt, st') ->
  st' = with_schemas (schemas st') (with_errors (errors st') st).
Proof.
  intro H. exact (post_run _ _ _ _ _ (parse_serializer_untouched a fuel so st) H).
Qed.

Lemma parse_serializer_leaves_the_rest_witness :
  final_state (parse_serializer owned_widget_app 3 (Some owned_widget_serializer)
                 widget_state)
  = with_schemas
      (schemas (final_state (parse_serializer owned_widget_app 3
                               (Some owned_widget_serializer) widget_state)))
      (with_errors
         (errors (final_state (parse_serializer owned_widget_app 3
                                 (Some owned_widget_serializer) widget_state)))
         widget_state).
Proof.
  apply (parse_serializer_leaves_the_rest owned_widget_app 3
           (Some owned_widget_serializer) widget_state).
  vm_compute. reflexivity.
Defined.

(** ** Text helpers *)

Lemma drop_leading (s : string) : drop (leading s) s = lstrip s.
Proof.
  induction s as [|c s IH]; [reflexivity|]. cbn [leading lstrip].
  destruct (is_space c); [exact IH | reflexivity].
Qed.

Lemma splitlines_one (s : string) :
  plain s = true -> s <> EmptyString -> splitlines s = [s].
Proof.
  intros Hp Hne. unfold splitlines.
  rewrite <- (string_append_nil s) at 1.
  rewrite (splitlines_plain_prefix s "" Hp). cbn [splitlines_from].
  apply is_empty_false in Hne. now rewrite Hne.
Qed.

(** X9: [doc_trim] puts the first line in twice: a docstring of one line comes
    out as two lines, each the line without the white space around it. *)
Theorem doc_trim_doubles_one_line (s : string) :
  one_line s = true ->
  doc_trim s = (strip s ++ NEWLINE ++ strip s)%string.
Proof.
  unfold one_line. intro H. apply andb_prop in H. destruct H as [Hp Hb].
  apply negb_true_iff in Hb.
  assert (Hne : s <> EmptyString) by (intro E; subst s; discriminate Hb).
  unfold doc_trim. rewrite (proj2 (is_empty_false s) Hne).
  unfold expandtabs. rewrite (expandtabs_plain s 0 (plain_no_tab s Hp)).
  rewrite (splitlines_one s Hp Hne). cbn [hd].
  unfold min_indent. cbn [fold_left]. unfold indent_step.
  rewrite is_empty_lstrip, Hb, length_lstrip. cbn [map].
  rewrite drop_leading. fold (strip s).
  assert (Hs : is_empty (strip s) = false).
  { unfold strip. now rewrite is_empty_rstrip, blank_lstrip. }
  cbn [pop_trailing_blank]. rewrite Hs. cbn [pop_leading_blank]. rewrite Hs.
  unfold join. cbn [String.concat]. reflexivity.
Qed.

Lemma doc_trim_doubles_one_line_witness :
  doc_trim "  Manage the widgets "
  = join NEWLINE ["Manage the widgets"; "Manage the widgets"].
Proof. apply (doc_trim_doubles_one_line "  Manage the widgets "). reflexivity. Defined.

(** X10: What [doc_trim] returns is made of lines without tabs and without
    white space at their ends, and neither its first nor its last line is
    empty. *)
Theorem doc_trim_is_trimmed (s : string) :
  exists lines,
    doc_trim s = join NEWLINE lines
    /\ Forall (fun l => plain l = true /\ rstrip l = l) lines
    /\ (lines <> [] ->
        hd EmptyString lines <> EmptyString /\ last lines EmptyString <> EmptyString).
Proof. exact (doc_trim_lines s). Qed.

Lemma match_django_head (s full name : string) :
  match_django s = Some (full, name) -> head_is "<" full = true.
Proof.
  unfold match_django. destruct s as [|c r]; [discriminate|].
  destruct (negb (Ascii.eqb c "<")); [discriminate|].
  destruct (is_empty (take_while is_lower r)); [discriminate|].
  destruct (drop _ r) as [|c1 r2]; [discriminate|].
  destruct (negb (Ascii.eqb c1 ":")); [discriminate|].
  destruct (is_empty (take_while is_name_char r2)); [discriminate|].
  destruct (head_is ">" _); [|discriminate].
  intro H. inversion H. reflexivity.
Qed.

Lemma django_findall_heads (s : string) :
  forall skip, Forall (fun pn => head_is "<" (fst pn) = true) (django_findall_from skip s).
Proof.
  induction s as [|c s IH]; intro skip; [constructor|].
  cbn [django_findall_from]. destruct skip as [|k]; [|apply IH].
  destruct (match_django (String c s)) as [[full name]|] eqn:E; [|apply IH].
  constructor; [|apply IH]. exact (match_django_head _ _ _ E).
Qed.

Lemma replace_keeps_slash (old new r : string) :
  head_is "<" old = true ->
  exists r', replace old new (String "/" r) = String "/" r'.
Proof.
  destruct old as [|c old]; [discriminate|]. cbn [head_is]. intro H.
  apply Ascii.eqb_eq in H. subst c.
  unfold replace. cbn [is_empty replace_from prefix].
  eexists. reflexivity.
Qed.

(** X11: The path [get_url] makes of a route begins with a slash, whatever the
    route is. *)
Theorem get_url_leading_slash (url_pattern : string) :
  head_is "/" (get_url url_pattern) = true.
Proof.
  unfold get_url.
  destruct (String.length url_pattern =? 0); [reflexivity|].
  assert (H : forall (ms : list (string * string)) (r : string),
             Forall (fun pn => head_is "<" (fst pn) = true) ms ->
             head_is "/"
               (fold_left (fun url (pn : string * string) =>
                             replace (fst pn) (String "{" (snd pn ++ "}")) url)
                          ms (String "/" r)) = true).
  { induction ms as [|[full name] ms IH]; intros r Hms; [reflexivity|].
    inversion Hms as [|? ? Hh Hrest]; subst. cbn [fold_left fst snd].
    destruct (replace_keeps_slash full (String "{" (name ++ "}")) r Hh) as [r' Hr'].
    rewrite Hr'. now apply IH. }
  pose proof (django_findall_heads url_pattern 0) as Hms.
  fold (django_findall url_pattern) in Hms.
  destruct url_pattern as [|c r]; cbn [head_is].
  - reflexivity.
  - destruct (Ascii.eqb "/" c) eqn:E.
    + apply Ascii.eqb_eq in E. subst c. now apply H.
    + now apply H.
Qed.

Lemma is_alnum_plain (c : ascii) :
  is_alnum c = true ->
  is_space c = false /\ Ascii.eqb c "_" = false /\ Ascii.eqb c "." = false
  /\ Ascii.eqb c "/" = false.
Proof.
  destruct c as [[] [] [] [] [] [] [] []]; vm_compute; intro H;
    try discriminate H; repeat split.
Qed.

Lemma split_on_not_nil (sep : ascii) (s : string) : split_on sep s <> [].
Proof.
  destruct s as [|c s]; [discriminate|]. cbn [split_on].
  destruct (Ascii.eqb c sep); [discriminate|].
  destruct (split_on sep s); discriminate.
Qed.

Lemma split_on_append (sep : ascii) (x y : string) :
  split_on sep (x ++ String sep y) = split_on sep x ++ split_on sep y.
Proof.
  induction x as [|c x IH]; cbn [String.append split_on].
  - now rewrite Ascii.eqb_refl.
  - destruct (Ascii.eqb c sep); [now rewrite IH|].
    rewrite IH. pose proof (split_on_not_nil sep x) as Hx.
    destruct (split_on sep x) as [|p ps]; [contradiction | reflexivity].
Qed.

Lemma split_on_none (sep : ascii) (s : string) :
  all_chars (fun c => negb (Ascii.eqb c sep)) s = true -> split_on sep s = [s].
Proof.
  induction s as [|c s IH]; [reflexivity|]. cbn [all_chars split_on].
  intro H. apply andb_prop in H. destruct H as [Hc Hs].
  apply negb_true_iff in Hc. rewrite Hc, (IH Hs). reflexivity.
Qed.

Lemma last_app_cons {A : Type} (l : list A) (x : A) (r : list A) (d : A) :
  last (l ++ x :: r) d = last (x :: r) d.
Proof.
  induction l as [|y l IH]; [reflexivity|].
  change ((y :: l) ++ x :: r) with (y :: (l ++ x :: r)).
  remember (l ++ x :: r) as m eqn:E.
  destruct m as [|z m]; [destruct l; discriminate|].
  change (last (y :: z :: m) d) with (last (z :: m) d). exact IH.
Qed.

Lemma basename_of_path (dir file : string) :
  all_chars (fun c => negb (Ascii.eqb c "/")) file = true ->
  basename (dir ++ String "/" file) = file.
Proof.
  intro H. unfold basename, last_or.
  rewrite split_on_append, (split_on_none _ _ H).
  now rewrite last_app_cons.
Qed.

Lemma replace_from_passes (old new w t : string) (o : ascii) (old' : string) :
  old = String o old' ->
  all_chars (fun c => negb (Ascii.eqb c o)) w = true ->
  replace_from old new 0 (w ++ t) = (w ++ replace_from old new 0 t)%string.
Proof.
  intros Hold. subst old.
  induction w as [|c w IH]; [reflexivity|]. cbn [all_chars]. intro H.
  apply andb_prop in H. destruct H as [Hc Hw]. apply negb_true_iff in Hc.
  cbn [String.append replace_from prefix].
  destruct (ascii_dec o c) as [E|E]; [subst c; now rewrite Ascii.eqb_refl in Hc|].
  now rewrite (IH Hw).
Qed.

Lemma all_chars_impl (p q : ascii -> bool) (s : string) :
  (forall c, p c = true -> q c = true) -> all_chars p s = true -> all_chars q s = true.
Proof.
  intro Hpq. induction s as [|c s IH]; [reflexivity|]. cbn [all_chars].
  intro H. apply andb_prop in H. destruct H as [Hc Hs].
  now rewrite (Hpq c Hc), (IH Hs).
Qed.

Lemma all_chars_join (p : ascii -> bool) (sep : string) (l : list string) :
  all_chars p sep = true -> forallb (all_chars p) l = true ->
  all_chars p (join sep l) = true.
Proof.
  intros Hsep. unfold join. induction l as [|w r IH]; [reflexivity|].
  cbn [forallb]. intro H. apply andb_prop in H. destruct H as [Hw Hr].
  destruct r as [|w2 r]; [exact Hw|].
  change (String.concat sep (w :: w2 :: r))
    with (w ++ sep ++ String.concat sep (w2 :: r))%string.
  rewrite !all_chars_append, Hw, Hsep. exact (IH Hr).
Qed.

Lemma strip_extension (name : string) :
  all_chars (fun c => negb (Ascii.eqb c ".")) name = true ->
  replace ".py" "" (name ++ ".py") = name.
Proof.
  intro H. unfold replace. cbn [is_empty].
  rewrite (replace_from_passes ".py" "" name ".py" "." "py" eq_refl H).
  cbn. apply string_append_nil.
Qed.

Lemma underscores_to_spaces (words : list string) :
  forallb (all_chars (fun c => negb (Ascii.eqb c "_"))) words = true ->
  replace "_" " " (join "_" words) = join " " words.
Proof.
  unfold replace, join. cbn [is_empty].
  induction words as [|w r IH]; [reflexivity|].
  cbn [forallb]. intro H. apply andb_prop in H. destruct H as [Hw Hr].
  destruct r as [|w2 r].
  - cbn [String.concat]. rewrite <- (string_append_nil w) at 1.
    rewrite (replace_from_passes "_" " " w "" "_" "" eq_refl Hw).
    cbn [replace_from]. now rewrite string_append_nil.
  - change (String.concat "_" (w :: w2 :: r))
      with (w ++ String "_" (String.concat "_" (w2 :: r)))%string.
    change (String.concat " " (w :: w2 :: r))
      with (w ++ String " " (String.concat " " (w2 :: r)))%string.
    rewrite (replace_from_passes "_" " " w _ "_" "" eq_refl Hw).
    cbn [replace_from prefix String.length Nat.sub String.append].
    destruct (ascii_dec "_" "_") as [_|E]; [|now contradiction E].
    replace (prefix "" (String.concat "_" (w2 :: r))) with true
      by (now destruct (String.concat "_" (w2 :: r))).
    now rewrite (IH Hr).
Qed.

Lemma split_ws_word (w t : string) :
  w <> EmptyString ->
  all_chars (fun c => negb (is_space c)) w = true ->
  head_is " " t = true \/ t = EmptyString ->
  split_ws (w ++ t) = w :: split_ws t.
Proof.
  intros Hne Hw Ht. induction w as [|c w IH]; [contradiction|].
  cbn [all_chars] in Hw. apply andb_prop in Hw. destruct Hw as [Hc Hw].
  apply negb_true_iff in Hc.
  cbn [String.append split_ws]. rewrite Hc.
  destruct w as [|c2 w].
  - cbn [String.append]. destruct Ht as [Ht|Ht].
    + destruct t as [|c' t]; [discriminate|]. cbn [head_is] in Ht.
      apply Ascii.eqb_eq in Ht. subst c'. reflexivity.
    + subst t. reflexivity.
  - cbn [String.append]. cbn [all_chars] in Hw.
    pose proof Hw as Hw'. apply andb_prop in Hw'. destruct Hw' as [Hc2 _].
    apply negb_true_iff in Hc2. rewrite Hc2.
    change (String c2 (w ++ t)) with (String c2 w ++ t)%string.
    rewrite (IH ltac:(discriminate) Hw). reflexivity.
Qed.

Lemma split_ws_join (words : list string) :
  forallb (fun w => negb (is_empty w) && all_chars (fun c => negb (is_space c)) w)
          words = true ->
  split_ws (join " " words) = words.
Proof.
  unfold join. induction words as [|w r IH]; [reflexivity|].
  cbn [forallb]. intro H. apply andb_prop in H. destruct H as [Hw Hr].
  apply andb_prop in Hw. destruct Hw as [Hne Hw].
  apply negb_true_iff in Hne. apply is_empty_false in Hne.
  destruct r as [|w2 r].
  - cbn [String.concat]. rewrite <- (string_append_nil w) at 1.
    rewrite (split_ws_word w "" Hne Hw); [reflexivity | now right].
  - change (String.concat " " (w :: w2 :: r))
      with (w ++ String " " (String.concat " " (w2 :: r)))%string.
    rewrite (split_ws_word w _ Hne Hw); [|now left].
    cbn [split_ws]. change (is_space " ") with true. cbv iota.
    now rewrite (IH Hr).
Qed.

Lemma forallb_impl {A : Type} (p q : A -> bool) (l : list A) :
  (forall x, p x = true -> q x = true) -> forallb p l = true -> forallb q l = true.
Proof.
  intro Hpq. induction l as [|x l IH]; [reflexivity|]. cbn [forallb].
  intro H. apply andb_prop in H. destruct H as [Hx Hl].
  now rewrite (Hpq x Hx), (IH Hl).
Qed.

(** X12: The service name of a view file is read off the file name alone, the
    directory and the ending [.py] left out: each word between underscores is
    capitalised, and the words are joined by single spaces. *)
Theorem get_service_name_of_words (dir : string) (words : list string) :
  forallb word words = true ->
  get_service_name (dir ++ "/" ++ join "_" words ++ ".py")
  = join " " (map capitalize words).
Proof.
  intro H. unfold get_service_name, capitalise.
  assert (Hc : forall (q : ascii -> bool),
             (forall c, is_alnum c = true -> q c = true) ->
             forallb (all_chars q) words = true).
  { intros q Hq. apply (forallb_impl word); [|exact H].
    intros w Hw. unfold word in Hw. apply andb_prop in Hw. destruct Hw as [_ Hw].
    now apply (all_chars_impl is_alnum). }
  change (dir ++ "/" ++ join "_" words ++ ".py")%string
    with (dir ++ String "/" (join "_" words ++ ".py"))%string.
  rewrite basename_of_path.
  - rewrite strip_extension.
    + rewrite underscores_to_spaces.
      * rewrite split_ws_join; [reflexivity|].
        apply (forallb_impl word); [|exact H].
        intros w Hw. unfold word in Hw. apply andb_prop in Hw. destruct Hw as [Hne Hw].
        rewrite Hne. cbn [andb]. apply (all_chars_impl is_alnum); [|exact Hw].
        intros c Hcc. apply is_alnum_plain in Hcc. now rewrite (proj1 Hcc).
      * apply Hc. intros c Hcc. apply is_alnum_plain in Hcc.
        destruct Hcc as (_ & Hu & _). now rewrite Hu.
    + apply all_chars_join; [reflexivity|].
      apply Hc. intros c Hcc. apply is_alnum_plain in Hcc.
      destruct Hcc as (_ & _ & Hd & _). now rewrite Hd.
  - rewrite all_chars_append. apply andb_true_intro. split; [|reflexivity].
    apply all_chars_join; [reflexivity|].
    apply Hc. intros c Hcc. apply is_alnum_plain in Hcc.
    destruct Hcc as (_ & _ & _ & Hs). now rewrite Hs.
Qed.

Lemma get_service_name_of_words_witness :
  get_service_name ("/srv/app/views" ++ "/" ++ join "_" ["address"; "book"; "v2"] ++ ".py")
  = join " " (map capitalize ["address"; "book"; "v2"]).
Proof. apply (get_service_name_of_words "/srv/app/views"). reflexivity. Defined.

(** ** Routes and their placeholders *)

Lemma take_while_all (p : ascii -> bool) (s : string) :
  all_chars p (take_while p s) = true.
Proof.
  induction s as [|c s IH]; [reflexivity|]. cbn [take_while].
  destruct (p c) eqn:E; [|reflexivity]. cbn [all_chars]. now rewrite E, IH.
Qed.

Lemma take_while_split (p : ascii -> bool) (s : string) :
  s = (take_while p s ++ drop (String.length (take_while p s)) s)%string.
Proof.
  induction s as [|c s IH]; [reflexivity|]. cbn [take_while].
  destruct (p c); [|reflexivity].
  cbn [String.length drop String.append]. now rewrite <- IH.
Qed.

Lemma take_while_app (p : ascii -> bool) (w t : string) :
  all_chars p w = true ->
  match t with EmptyString => true | String c _ => negb (p c) end = true ->
  take_while p (w ++ t) = w.
Proof.
  intros Hw Ht. induction w as [|c w IH].
  - destruct t as [|c t]; [reflexivity|]. cbn [String.append take_while].
    apply negb_true_iff in Ht. now rewrite Ht.
  - cbn [all_chars] in Hw. apply andb_prop in Hw. destruct Hw as [Hc Hw].
    cbn [String.append take_while]. now rewrite Hc, (IH Hw).
Qed.

Lemma drop_app (w t : string) : drop (String.length w) (w ++ t) = t.
Proof. induction w as [|c w IH]; [reflexivity | exact IH]. Qed.

Lemma drop_drop (n m : nat) (s : string) : drop n (drop m s) = drop (m + n) s.
Proof.
  revert s. induction m as [|m IH]; intro s; [reflexivity|].
  destruct s as [|c s]; [now destruct n|]. cbn [drop Nat.add]. apply IH.
Qed.

Lemma string_app_assoc (a b c : string) : ((a ++ b) ++ c = a ++ (b ++ c))%string.
Proof. induction a as [|x a IH]; [reflexivity|]. cbn [String.append]. now rewrite IH. Qed.

Lemma string_length_app (a b : string) :
  String.length (a ++ b) = String.length a + String.length b.
Proof. induction a as [|x a IH]; [reflexivity|]. cbn [String.append String.length]. now rewrite IH. Qed.

(** What a match of the pattern at the head of a text is. *)
Lemma match_django_sound (s full name : string) :
  match_django s = Some (full, name) ->
  placeholder full name /\ s = (full ++ drop (String.length full) s)%string.
Proof.
  unfold match_django. destruct s as [|c r]; [discriminate|].
  destruct (Ascii.eqb c "<") eqn:Ec; cbn [negb]; [|discriminate].
  apply Ascii.eqb_eq in Ec. subst c.
  set (cv := take_while is_lower r).
  destruct (is_empty cv) eqn:Econv; [discriminate|].
  pose proof (take_while_split is_lower r) as Hr. fold cv in Hr.
  destruct (drop (String.length cv) r) as [|c1 r2] eqn:Edrop; [discriminate|].
  destruct (Ascii.eqb c1 ":") eqn:Ec1; cbn [negb]; [|discriminate].
  apply Ascii.eqb_eq in Ec1. subst c1.
  set (nm := take_while is_name_char r2).
  destruct (is_empty nm) eqn:Ename; [discriminate|].
  pose proof (take_while_split is_name_char r2) as Hr2. fold nm in Hr2.
  destruct (drop (String.length nm) r2) as [|c2 r3] eqn:Edrop2; [discriminate|].
  cbn [head_is]. destruct (Ascii.eqb ">" c2) eqn:Ec2; [|discriminate].
  apply Ascii.eqb_eq in Ec2. subst c2.
  intro H. inversion H; subst full name; clear H. split.
  - exists cv. split; [reflexivity|].
    split; [now apply is_empty_false|]. split; [apply take_while_all|].
    split; [now apply is_empty_false | apply take_while_all].
  - cbn [String.append String.length drop]. f_equal.
    rewrite Hr at 1. rewrite string_app_assoc. f_equal.
    rewrite string_length_app. rewrite <- drop_drop.
    rewrite Hr at 1. rewrite drop_app. cbn [String.append].
    cbn [String.length drop]. f_equal.
    rewrite Hr2 at 1. rewrite string_app_assoc. f_equal.
    rewrite string_length_app. rewrite <- drop_drop.
    rewrite Hr2 at 1. rewrite drop_app. reflexivity.
Qed.

(** Where a placeholder stands at the head of a text, the pattern matches
    it, and nothing longer or shorter. *)
Lemma match_django_complete (full name rest : string) :
  placeholder full name -> match_django (full ++ rest) = Some (full, name).
Proof.
  intros (conv & Hfull & Hc & Hcl & Hn & Hnl). subst full.
  cbn [String.append match_django Ascii.eqb Bool.eqb negb].
  change (Ascii.eqb "<" "<") with true. cbv iota. cbn [negb].
  rewrite string_app_assoc. cbn [String.append].
  rewrite (take_while_app is_lower conv); [|exact Hcl | reflexivity].
  apply is_empty_false in Hc. rewrite Hc. rewrite drop_app.
  change (Ascii.eqb ":" ":") with true. cbn [negb].
  rewrite string_app_assoc. cbn [String.append].
  rewrite (take_while_app is_name_char name); [|exact Hnl | reflexivity].
  apply is_empty_false in Hn. rewrite Hn. rewrite drop_app.
  cbn [head_is]. change (Ascii.eqb ">" ">") with true. cbv iota.
  reflexivity.
Qed.

Lemma placeholder_name (full n1 n2 : string) :
  placeholder full n1 -> placeholder full n2 -> n1 = n2.
Proof.
  intros H1 H2.
  pose proof (match_django_complete full n1 "" H1) as E1.
  pose proof (match_django_complete full n2 "" H2) as E2.
  rewrite E1 in E2. now inversion E2.
Qed.

Lemma prefix_split (a s : string) :
  prefix a s = true -> exists rest, s = (a ++ rest)%string.
Proof.
  revert s. induction a as [|x a IH]; intros s H.
  - exists s. reflexivity.
  - destruct s as [|y s]; [discriminate|]. cbn [prefix] in H.
    destruct (ascii_dec x y) as [E|E]; [|discriminate]. subst y.
    destruct (IH s H) as [rest Hrest]. exists rest. cbn [String.append]. now rewrite Hrest.
Qed.

Lemma prefix_app (a rest : string) : prefix a (a ++ rest) = true.
Proof.
  induction a as [|x a IH]; [now destruct rest|]. cbn [String.append prefix].
  destruct (ascii_dec x x) as [_|E]; [exact IH | now contradiction E].
Qed.

(** Neither [<] nor an opening brace. *)
Lemma placeholder_tail (full name : string) :
  placeholder full name ->
  exists tail,
    full = String "<" tail
    /\ all_chars (fun c => negb (Ascii.eqb c "<") && negb (Ascii.eqb c "{")) tail = true.
Proof.
  intros (conv & Hfull & _ & Hcl & _ & Hnl). subst full.
  eexists. split; [reflexivity|].
  assert (Hl : forall c, is_lower c = true ->
             negb (Ascii.eqb c "<") && negb (Ascii.eqb c "{") = true).
  { intro c. destruct c as [[] [] [] [] [] [] [] []]; vm_compute; intro H;
      try discriminate H; reflexivity. }
  assert (Hm : forall c, is_name_char c = true ->
             negb (Ascii.eqb c "<") && negb (Ascii.eqb c "{") = true).
  { intro c. destruct c as [[] [] [] [] [] [] [] []]; vm_compute; intro H;
      try discriminate H; reflexivity. }
  rewrite all_chars_append. rewrite (all_chars_impl _ _ conv Hl Hcl).
  cbn [all_chars andb]. change (negb (Ascii.eqb ":" "<") && negb (Ascii.eqb ":" "{")) with true.
  cbn [andb]. rewrite all_chars_append, (all_chars_impl _ _ name Hm Hnl). reflexivity.
Qed.

Lemma flat_cons (f : token -> string) (t : token) (r : list token) :
  flat f (t :: r) = (f t ++ flat f r)%string.
Proof.
  unfold flat. cbn [map]. destruct (map f r) as [|x l] eqn:E.
  - cbn [String.concat]. now rewrite string_append_nil.
  - cbn [String.concat]. reflexivity.
Qed.

(** The tokens of a scan spell the text that was scanned. *)
Lemma scan_from_text (s : string) :
  forall skip, flat text_of (scan_from skip s) = drop skip s.
Proof.
  induction s as [|c s IH]; intro skip; [now destruct skip|].
  cbn [scan_from]. destruct skip as [|k]; [|exact (IH k)].
  destruct (match_django (String c s)) as [[full name]|] eqn:E.
  - rewrite flat_cons, IH. cbn [text_of drop].
    destruct (match_django_sound _ _ _ E) as [Hp Hs].
    destruct (placeholder_tail _ _ Hp) as (tail & Hfull & _).
    transitivity (full ++ drop (String.length full) (String c s))%string;
      [|symmetry; exact Hs].
    f_equal. rewrite Hfull. cbn [String.length Nat.sub drop].
    now rewrite Nat.sub_0_r.
  - rewrite flat_cons, IH. reflexivity.
Qed.

Lemma scan_from_params (s : string) :
  forall skip, params (scan_from skip s) = django_findall_from skip s.
Proof.
  induction s as [|c s IH]; intro skip; [reflexivity|].
  cbn [scan_from django_findall_from]. destruct skip as [|k]; [|exact (IH k)].
  destruct (match_django (String c s)) as [[full name]|].
  - unfold params. cbn [flat_map List.app]. f_equal. apply IH.
  - unfold params. cbn [flat_map List.app]. apply IH.
Qed.

Lemma scan_from_scanned (s : string) : forall skip, scanned (scan_from skip s).
Proof.
  induction s as [|c s IH]; intro skip; [constructor|].
  cbn [scan_from]. destruct skip as [|k]; [|exact (IH k)].
  destruct (match_django (String c s)) as [[full name]|] eqn:E.
  - constructor; [|apply IH]. exact (proj1 (match_django_sound _ _ _ E)).
  - constructor; [|apply IH]. rewrite scan_from_text. exact E.
Qed.

Lemma prefix_nil (s : string) : prefix "" s = true.
Proof. now destruct s. Qed.

Lemma prefix_head_differs (a : ascii) (x : string) (c : ascii) (s : string) :
  a <> c -> prefix (String a x) (String c s) = false.
Proof.
  intro H. cbn [prefix]. destruct (ascii_dec a c) as [E|_]; [contradiction | reflexivity].
Qed.

(** The tail of a placeholder is a prefix of what the tokens spell when
    it is a prefix of what they render to: nothing that was put in, and no
    match that was left, begins with a character of the tail. *)
Lemma prefix_rendered (done : list string) (r : list token) :
  scanned r ->
  forall tail,
  all_chars (fun c => negb (Ascii.eqb c "<") && negb (Ascii.eqb c "{")) tail = true ->
  prefix tail (flat (render done) r) = true ->
  prefix tail (flat text_of r) = true.
Proof.
  induction 1 as [|c r Hnone Hr IH|full name r Hp Hr IH]; intros tail Htail H.
  - exact H.
  - rewrite flat_cons in H |- *. cbn [render text_of String.append] in H |- *.
    destruct tail as [|a tail]; [apply prefix_nil|].
    cbn [all_chars] in Htail. apply andb_prop in Htail. destruct Htail as [_ Htail].
    cbn [prefix] in H |- *. destruct (ascii_dec a c); [|discriminate].
    now apply IH.
  - destruct tail as [|a tail]; [apply prefix_nil|].
    exfalso. cbn [all_chars] in Htail. apply andb_prop in Htail.
    destruct Htail as [Ha _]. apply andb_prop in Ha. destruct Ha as [Ha1 Ha2].
    apply negb_true_iff in Ha1. apply negb_true_iff in Ha2.
    rewrite flat_cons in H. cbn [render] in H.
    destruct (placeholder_tail _ _ Hp) as (ftail & Hfull & _).
    destruct (existsb (String.eqb full) done); [|subst full];
      cbn [String.append prefix] in H;
      match type of H with
      | context [ascii_dec a ?b] =>
          destruct (ascii_dec a b) as [E|E]; [|discriminate H]; subst a
      end.
    + discriminate Ha2.
    + discriminate Ha1.
Qed.

Lemma replace_from_skip (old new w rest : string) :
  replace_from old new (String.length w) (w ++ rest) = replace_from old new 0 rest.
Proof.
  induction w as [|c w IH]; [reflexivity|].
  cbn [String.length String.append replace_from]. exact IH.
Qed.

Lemma replace_from_hit (old new rest : string) :
  old <> EmptyString ->
  replace_from old new 0 (old ++ rest) = (new ++ replace_from old new 0 rest)%string.
Proof.
  intro Hne. destruct old as [|o tail]; [contradiction|].
  cbn [String.append replace_from].
  change (String o (tail ++ rest)) with (String o tail ++ rest)%string.
  rewrite prefix_app. cbn [String.length Nat.sub]. rewrite Nat.sub_0_r.
  now rewrite replace_from_skip.
Qed.

Lemma not_lt_char (tail : string) :
  all_chars (fun c => negb (Ascii.eqb c "<") && negb (Ascii.eqb c "{")) tail = true ->
  all_chars (fun c => negb (Ascii.eqb c "<")) tail = true.
Proof.
  apply all_chars_impl. intros c H. apply andb_prop in H. tauto.
Qed.

(** One replacement of [get_url], on a route some of whose matches have
    been replaced: the matches that read [full] are replaced as well, and
    nothing else is. *)
Lemma replace_rendered (full name : string) (done : list string) (r : list token) :
  placeholder full name ->
  scanned r ->
  replace full (String "{" (name ++ "}")) (flat (render done) r)
  = flat (render (full :: done)) r.
Proof.
  intros Hp Hr.
  destruct (placeholder_tail _ _ Hp) as (tail & Hfull & Htail).
  unfold replace. rewrite Hfull at 1. cbn [is_empty].
  induction Hr as [|c r Hnone Hr IH|full' name' r Hp' Hr IH].
  - reflexivity.
  - rewrite !flat_cons. cbn [render String.append replace_from].
    assert (Hno : prefix full (String c (flat (render done) r)) = false).
    { destruct (prefix full (String c (flat (render done) r))) eqn:E; [|reflexivity].
      exfalso. rewrite Hfull in E. cbn [prefix] in E.
      destruct (ascii_dec "<" c) as [Ec|Ec]; [|discriminate E]. subst c.
      apply (prefix_rendered done r Hr tail Htail) in E.
      apply prefix_split in E. destruct E as [rest Hrest].
      rewrite Hrest in Hnone.
      change (String "<" (tail ++ rest)) with (String "<" tail ++ rest)%string in Hnone.
      rewrite <- Hfull in Hnone.
      rewrite (match_django_complete full name rest Hp) in Hnone. discriminate Hnone. }
    rewrite Hno. now rewrite IH.
  - rewrite !flat_cons. cbn [render existsb].
    destruct (String.eqb full' full) eqn:Esame.
    + apply String.eqb_eq in Esame. subst full'.
      rewrite (placeholder_name full name' name Hp' Hp). cbn [orb].
      destruct (existsb (String.eqb full) done).
      * change (String "{" (name ++ "}") ++ flat (render done) r)%string
          with (String "{" ((name ++ "}") ++ flat (render done) r)).
        cbn [replace_from]. rewrite Hfull at 1.
        rewrite prefix_head_differs by discriminate. cbn [String.append]. f_equal.
        destruct Hp as (conv & _ & _ & _ & _ & Hnl).
        rewrite (replace_from_passes full _ (name ++ "}") _ "<" tail Hfull).
        -- now rewrite IH.
        -- rewrite all_chars_append. apply andb_true_intro. split; [|reflexivity].
           apply (all_chars_impl is_name_char); [|exact Hnl].
           intro c. destruct c as [[] [] [] [] [] [] [] []]; vm_compute; intro H;
             try discriminate H; reflexivity.
      * rewrite replace_from_hit by (rewrite Hfull; discriminate). now rewrite IH.
    + cbn [orb]. destruct (existsb (String.eqb full') done).
      * change (String "{" (name' ++ "}") ++ flat (render done) r)%string
          with (String "{" ((name' ++ "}") ++ flat (render done) r)).
        cbn [replace_from]. rewrite Hfull at 1.
        rewrite prefix_head_differs by discriminate. cbn [String.append]. f_equal.
        destruct Hp' as (conv' & _ & _ & _ & _ & Hnl').
        rewrite (replace_from_passes full _ (name' ++ "}") _ "<" tail Hfull).
        -- now rewrite IH.
        -- rewrite all_chars_append. apply andb_true_intro. split; [|reflexivity].
           apply (all_chars_impl is_name_char); [|exact Hnl'].
           intro c. destruct c as [[] [] [] [] [] [] [] []]; vm_compute; intro H;
             try discriminate H; reflexivity.
      * assert (Hno : prefix full (full' ++ flat (render done) r) = false).
        { destruct (prefix full (full' ++ flat (render done) r)) eqn:E; [|reflexivity].
          exfalso. apply prefix_split in E. destruct E as [rest Hrest].
          pose proof (match_django_complete full' name' (flat (render done) r) Hp') as E1.
          rewrite Hrest in E1.
          rewrite (match_django_complete full name rest Hp) in E1.
          inversion E1. subst full'. now rewrite String.eqb_refl in Esame. }
        destruct (placeholder_tail _ _ Hp') as (tail' & Hfull' & Htail').
        rewrite Hfull' at 1. cbn [String.append replace_from].
        change (String "<" (tail' ++ flat (render done) r))
          with (String "<" tail' ++ flat (render done) r)%string.
        rewrite <- Hfull'. rewrite Hno. rewrite Hfull'. cbn [String.append]. f_equal.
        rewrite (replace_from_passes full _ tail' _ "<" tail Hfull (not_lt_char _ Htail')).
        now rewrite IH.
Qed.

Lemma render_nil (toks : list token) : flat (render []) toks = flat text_of toks.
Proof.
  induction toks as [|t r IH]; [reflexivity|]. rewrite !flat_cons, IH.
  now destruct t.
Qed.

Lemma replace_all_rendered (ms : list (string * string)) (toks : list token) :
  scanned toks ->
  Forall (fun pn => placeholder (fst pn) (snd pn)) ms ->
  forall done,
  fold_left (fun url (pn : string * string) =>
               replace (fst pn) (String "{" (snd pn ++ "}")) url)
            ms (flat (render done) toks)
  = flat (render (rev (map fst ms) ++ done)) toks.
Proof.
  intros Hs. induction ms as [|[full name] ms IH]; intros Hms done; [reflexivity|].
  inversion Hms as [|? ? Hp Hrest]; subst. cbn [fst snd] in Hp.
  cbn [fold_left fst snd map rev]. rewrite (replace_rendered full name done toks Hp Hs).
  rewrite (IH Hrest). now rewrite <- app_assoc.
Qed.

Lemma scanned_params (toks : list token) :
  scanned toks -> Forall (fun pn => placeholder (fst pn) (snd pn)) (params toks).
Proof.
  induction 1 as [|c r _ _ IH|full name r Hp _ IH]; [constructor | exact IH |].
  unfold params. cbn [flat_map List.app]. constructor; assumption.
Qed.

Lemma render_all (done : list string) (toks : list token) :
  (forall full name, In (full, name) (params toks) ->
                     existsb (String.eqb full) done = true) ->
  flat (render done) toks = flat braced toks.
Proof.
  induction toks as [|t r IH]; intro H; [reflexivity|].
  rewrite !flat_cons. destruct t as [c|full name].
  - rewrite IH; [reflexivity|]. exact H.
  - cbn [render braced]. rewrite (H full name) by now left.
    rewrite IH; [reflexivity|]. intros f n Hin. apply (H f n). now right.
Qed.

Lemma doc_findall_skip (w rest : string) :
  doc_findall_from (String.length w) (w ++ rest) = doc_findall_from 0 rest.
Proof.
  induction w as [|c w IH]; [reflexivity|]. exact IH.
Qed.

Lemma doc_findall_braced (name rest : string) :
  name <> EmptyString -> all_chars is_name_char name = true ->
  doc_findall_from 0 (String "{" (name ++ "}") ++ rest)
  = name :: doc_findall_from 0 rest.
Proof.
  intros Hne Hn. cbn [String.append doc_findall_from match_doc_param].
  change (Ascii.eqb "{" "{") with true. cbn [negb].
  rewrite string_app_assoc. cbn [String.append].
  rewrite (take_while_app is_name_char name); [|exact Hn | reflexivity].
  apply is_empty_false in Hne. rewrite Hne, drop_app. cbn [head_is].
  change (Ascii.eqb "}" "}") with true. cbv iota. f_equal.
  change (name ++ String "}" rest)%string with (name ++ (String "}" "" ++ rest))%string.
  rewrite <- string_app_assoc.
  replace (String.length name + 1) with (String.length (name ++ "}")).
  - apply doc_findall_skip.
  - rewrite string_length_app. reflexivity.
Qed.

Lemma doc_findall_of_tokens (toks : list token) :
  scanned toks ->
  no_brace (flat text_of toks) = true ->
  doc_findall_from 0 (flat braced toks) = map snd (params toks).
Proof.
  unfold no_brace.
  induction 1 as [|c r _ Hr IH|full name r Hp Hr IH]; intro Hb; [reflexivity| |].
  - rewrite flat_cons in Hb |- *. cbn [text_of braced String.append all_chars] in Hb |- *.
    apply andb_prop in Hb. destruct Hb as [Hc Hb]. apply negb_true_iff in Hc.
    cbn [doc_findall_from match_doc_param]. rewrite Hc. cbn [negb].
    unfold params. cbn [flat_map List.app]. now apply IH.
  - rewrite flat_cons in Hb |- *. cbn [text_of braced] in Hb |- *.
    rewrite all_chars_append in Hb. apply andb_prop in Hb. destruct Hb as [_ Hb].
    destruct Hp as (conv & _ & _ & _ & Hne & Hn).
    rewrite (doc_findall_braced name _ Hne Hn).
    unfold params. cbn [flat_map List.app map snd]. f_equal. now apply IH.
Qed.

Lemma existsb_In_string (x : string) (l : list string) :
  In x l -> existsb (String.eqb x) l = true.
Proof.
  intro H. apply existsb_exists. exists x. split; [exact H | apply String.eqb_refl].
Qed.

(** X13: The placeholders of the path [get_url] makes of a route are the names
    of the parameters of the route, one for one and in their order: what
    [parse_path_params] looks for in the URL is what the route declares. The
    route is taken to have no opening brace of its own. *)
Theorem get_url_placeholders (url_pattern : string) :
  no_brace url_pattern = true ->
  doc_findall (get_url url_pattern) = map snd (django_findall url_pattern).
Proof.
  intro Hb. unfold get_url, doc_findall, django_findall.
  destruct url_pattern as [|c p]; [reflexivity|].
  cbn [String.length Nat.eqb].
  set (s := String c p) in *.
  set (toks := if head_is "/" s then scan_from 0 s else Lit "/" :: scan_from 0 s).
  assert (Htext : flat text_of toks = if head_is "/" s then s else String "/" s).
  { unfold toks. destruct (head_is "/" s).
    - now rewrite scan_from_text.
    - now rewrite flat_cons, scan_from_text. }
  assert (Hscan : scanned toks).
  { unfold toks. destruct (head_is "/" s); [apply scan_from_scanned|].
    constructor; [reflexivity | apply scan_from_scanned]. }
  assert (Hparams : params toks = django_findall_from 0 s).
  { unfold toks. destruct (head_is "/" s); apply scan_from_params. }
  rewrite <- Htext, <- render_nil, <- Hparams.
  rewrite (replace_all_rendered (params toks) toks Hscan (scanned_params toks Hscan)).
  rewrite render_all.
  - apply (doc_findall_of_tokens toks Hscan). rewrite Htext.
    destruct (head_is "/" s); [exact Hb|]. unfold no_brace. cbn [all_chars].
    exact Hb.
  - intros full name Hin. apply existsb_In_string.
    apply in_or_app. left. apply -> in_rev.
    apply in_map_iff. exists (full, name). now split.
Qed.

Lemma get_url_placeholders_witness :
  doc_findall (get_url "shelf/<int:shelf_id>/book/<slug:title>/")
  = map snd (django_findall "shelf/<int:shelf_id>/book/<slug:title>/").
Proof. apply get_url_placeholders. reflexivity. Defined.

(** ** Texts that are made from a template *)

Lemma splitlines_join_trailing (lines : list string) :
  lines <> [] ->
  Forall (fun l => plain l = true) lines ->
  splitlines_from false (join NEWLINE lines ++ NEWLINE) = lines.
Proof.
  unfold join. induction lines as [|e rest IH]; intros Hne Hp; [contradiction|].
  inversion Hp as [|? ? He Hrest]; subst.
  destruct rest as [|e2 rest].
  - cbn [String.concat]. rewrite (splitlines_plain_prefix e NEWLINE He).
    change (splitlines_from false NEWLINE) with [EmptyString]. cbv iota.
    now rewrite string_append_nil.
  - change (String.concat NEWLINE (e :: e2 :: rest))
      with (e ++ NEWLINE ++ String.concat NEWLINE (e2 :: rest))%string.
    rewrite !string_app_assoc.
    rewrite (splitlines_plain_prefix e _ He).
    change (splitlines_from false
              (NEWLINE ++ String.concat NEWLINE (e2 :: rest) ++ NEWLINE))
      with (EmptyString
            :: splitlines_from false (String.concat NEWLINE (e2 :: rest) ++ NEWLINE)).
    rewrite (IH ltac:(discriminate) Hrest). now rewrite string_append_nil.
Qed.

Lemma map_trimmed (lines : list string) :
  Forall trimmed_line lines -> map (fun line => rstrip (drop 0 line)) lines = lines.
Proof.
  induction 1 as [|l r [_ Hl] _ IH]; [reflexivity|].
  cbn [map]. rewrite IH. cbn [drop]. now rewrite Hl.
Qed.

Lemma pop_trailing_blank_head (e : string) (rest : list string) :
  e <> EmptyString ->
  exists rest', pop_trailing_blank (e :: rest) = e :: rest'.
Proof.
  intro H. cbn [pop_trailing_blank]. destruct (pop_trailing_blank rest) as [|y r].
  - apply is_empty_false in H. rewrite H. now exists [].
  - now exists (y :: r).
Qed.

(** X14: [doc_trim] takes a text out of its wrapping: between a first line
    that is empty and a last line feed, lines that are not indented and have
    no white space at their ends come out as they are, without the empty lines
    at the end. *)
Theorem doc_trim_unwraps (first : string) (rest : list string) :
  Forall trimmed_line (first :: rest) ->
  blank first = false ->
  leading first = 0 ->
  doc_trim (NEWLINE ++ join NEWLINE (first :: rest) ++ NEWLINE)
  = join NEWLINE (pop_trailing_blank (first :: rest)).
Proof.
  intros Hlines Hblank Hlead.
  set (X := first :: rest) in *.
  assert (Hplain : Forall (fun l => plain l = true) X)
    by (eapply Forall_impl; [|exact Hlines]; now intros l [H _]).
  assert (Hne : first <> EmptyString) by (intro E; subst first; discriminate Hblank).
  unfold doc_trim. cbn [NEWLINE String.append is_empty].
  change (String LF (join (String LF "") X ++ String LF ""))
    with (NEWLINE ++ (join NEWLINE X ++ NEWLINE))%string.
  unfold expandtabs. rewrite expandtabs_plain.
  2:{ unfold no_tab. cbn [all_chars]. rewrite all_chars_append.
      pose proof (no_tab_join X Hplain) as Hj. unfold no_tab in Hj. now rewrite Hj. }
  unfold splitlines.
  assert (Hsplit : splitlines_from false (String LF (join NEWLINE X ++ NEWLINE))
                   = EmptyString :: X).
  { change (splitlines_from false (String LF (join NEWLINE X ++ NEWLINE)))
      with (EmptyString :: splitlines_from false (join NEWLINE X ++ NEWLINE)).
    now rewrite (splitlines_join_trailing X ltac:(discriminate) Hplain). }
  rewrite Hsplit.
  cbn [hd]. change (strip "") with EmptyString.
  destruct (min_indent ("" :: X)) as [i|] eqn:Hi.
  2:{ exfalso. apply (min_indent_exists ("" :: X) None first);
        [right; now left | exact Hblank | exact Hi]. }
  unfold min_indent in Hi. apply min_indent_bound in Hi. destruct Hi as [_ Hi].
  assert (i = 0).
  { specialize (Hi first ltac:(right; now left) Hblank). lia. }
  subst i. rewrite map_cons, (map_trimmed X Hlines).
  cbn [drop]. change (rstrip "") with EmptyString.
  destruct (pop_trailing_blank_head first rest Hne) as [rest' Hpop].
  fold X in Hpop.
  cbn [pop_trailing_blank]. fold (pop_trailing_blank X). rewrite Hpop.
  cbn [pop_leading_blank is_empty]. apply is_empty_false in Hne. now rewrite Hne.
Qed.

Lemma doc_trim_unwraps_witness :
  doc_trim (NEWLINE ++ join NEWLINE ["## Permissions"; "  Anyone who is signed in"; ""]
            ++ NEWLINE)
  = join NEWLINE (pop_trailing_blank ["## Permissions"; "  Anyone who is signed in"; ""]).
Proof.
  apply (doc_trim_unwraps "## Permissions" ["  Anyone who is signed in"; ""]).
  - repeat constructor.
  - reflexivity.
  - reflexivity.
Defined.

Lemma join_cons (sep e : string) (rest : list string) :
  rest <> [] -> join sep (e :: rest) = (e ++ sep ++ join sep rest)%string.
Proof. intro H. unfold join. destruct rest; [contradiction | reflexivity]. Qed.

Lemma last_cons_ne (e d : string) (rest : list string) :
  rest <> [] -> last (e :: rest) d = last rest d.
Proof. intro H. destruct rest; [contradiction | reflexivity]. Qed.

(** X15: The text [get_permission_details] returns for a permission method
    with a docstring: the heading and under it the trimmed docstring; or, when
    the trimmed docstring has a space and a hyphen in it, an error and no
    text. *)
Theorem permission_details_text (permission_method : string) (doc : string)
    (st : command) :
  get_permission_details (permission_method, Some doc) st
  = if contains " -" (doc_trim doc)
    then Ok (EmptyString, set_errors st)
    else Ok (("## Permissions"
              ++ if is_empty (doc_trim doc) then "" else NEWLINE ++ doc_trim doc)%string,
             st).
Proof.
  unfold get_permission_details, ensure_docstring. cbn [snd]. rewrite bind_ret.
  destruct (contains " -" (doc_trim doc)); [reflexivity|].
  unfold ret. f_equal. f_equal.
  destruct (doc_trim_lines doc) as (lines & Heq & Hlines & Hends).
  assert (Hh : trimmed_line "## Permissions") by (split; reflexivity).
  destruct lines as [|e rest].
  - rewrite Heq. change (join NEWLINE []) with EmptyString. cbn [is_empty].
    replace (join NEWLINE [""; "## Permissions"; ""; ""])
      with (NEWLINE ++ join NEWLINE ["## Permissions"; ""] ++ NEWLINE)%string
      by reflexivity.
    rewrite (doc_trim_unwraps "## Permissions" [""]);
      [reflexivity | | reflexivity | reflexivity].
    repeat constructor.
  - destruct (Hends ltac:(discriminate)) as [Hhd Hlast]. cbn [hd] in Hhd.
    assert (Hne : is_empty (doc_trim doc) = false)
      by (rewrite Heq; exact (join_head_text e rest Hhd)).
    rewrite Hne.
    replace (join NEWLINE [""; "## Permissions"; doc_trim doc; ""])
      with (NEWLINE ++ join NEWLINE ("## Permissions" :: e :: rest) ++ NEWLINE)%string.
    + rewrite doc_trim_unwraps; [| now constructor | reflexivity | reflexivity].
      rewrite pop_trailing_blank_keeps.
      * rewrite join_cons by discriminate. now rewrite Heq.
      * rewrite last_cons_ne by discriminate. exact Hlast.
    + rewrite join_cons by discriminate. rewrite <- Heq.
      unfold join. cbn [String.concat String.append].
      rewrite !string_app_assoc. cbn [String.append].
      now rewrite string_append_nil.
Qed.

(** ** The details of a list controller *)

Lemma rstrip_spaceless (w : string) :
  all_chars (fun c => negb (is_space c)) w = true -> rstrip w = w.
Proof.
  induction w as [|c w IH]; [reflexivity|]. cbn [all_chars rstrip].
  intro H. apply andb_prop in H. destruct H as [Hc Hw].
  apply negb_true_iff in Hc. rewrite Hc. cbn [andb]. now rewrite (IH Hw).
Qed.

Lemma is_empty_append (x w : string) : is_empty w = false -> is_empty (x ++ w) = false.
Proof. intro H. destruct x; [exact H | reflexivity]. Qed.

Lemma rstrip_ends (x w : string) :
  spaceless w = true -> rstrip (x ++ w) = (x ++ w)%string.
Proof.
  unfold spaceless. intro H. apply andb_prop in H. destruct H as [Hne Hw].
  apply negb_true_iff in Hne.
  induction x as [|c x IH]; [now apply rstrip_spaceless|].
  cbn [String.append rstrip]. rewrite IH, (is_empty_append x w Hne).
  now rewrite andb_false_r.
Qed.

Lemma spaceless_plain (w : string) : spaceless w = true -> plain w = true.
Proof.
  unfold spaceless, plain. intro H. apply andb_prop in H. destruct H as [_ H].
  apply (all_chars_impl (fun c => negb (is_space c))); [|exact H].
  intro c. destruct c as [[] [] [] [] [] [] [] []]; vm_compute; intro E;
    try discriminate E; reflexivity.
Qed.

Lemma plain_append (a b : string) : plain (a ++ b) = plain a && plain b.
Proof. apply all_chars_append. Qed.

Lemma plain_join (sep : string) (l : list string) :
  plain sep = true -> forallb plain l = true -> plain (join sep l) = true.
Proof. apply all_chars_join. Qed.

Lemma filter_lines_trimmed (c : controller) :
  forallb (fun fm : string * list string => spaceless (fst fm) && forallb plain (snd fm))
          (search_fields c) = true ->
  Forall trimmed_line (filter_lines c).
Proof.
  unfold filter_lines. induction (search_fields c) as [|[field mods] r IH];
    [constructor|].
  cbn [forallb map fst snd]. intro H. apply andb_prop in H. destruct H as [Hf Hr].
  apply andb_prop in Hf. destruct Hf as [Hfield Hmods].
  constructor; [|exact (IH Hr)].
  destruct (0 <? List.length mods).
  - split.
    + rewrite !plain_append, (spaceless_plain field Hfield), (plain_join ", " mods eq_refl Hmods).
      reflexivity.
    + rewrite <- !string_app_assoc. now apply rstrip_ends.
  - split.
    + now rewrite plain_append, (spaceless_plain field Hfield).
    + now apply rstrip_ends.
Qed.

Lemma order_lines_trimmed (c : controller) :
  forallb spaceless (allowed_ordering c) = true ->
  Forall trimmed_line (order_lines c).
Proof.
  unfold order_lines. destruct (allowed_ordering c) as [|field rest]; [constructor|].
  cbn [forallb]. intro H. apply andb_prop in H. destruct H as [Hf Hr].
  constructor.
  - split.
    + now rewrite !plain_append, (spaceless_plain field Hf).
    + change " (default)" with (" " ++ "(default)")%string.
      rewrite <- !string_app_assoc. now apply rstrip_ends.
  - induction rest as [|f r IH]; [constructor|].
    cbn [forallb] in Hr. apply andb_prop in Hr. destruct Hr as [Hf' Hr].
    constructor; [|exact (IH Hr)]. split.
    + now rewrite plain_append, (spaceless_plain f Hf').
    + now apply rstrip_ends.
Qed.

Lemma join_app (sep : string) (a b : list string) :
  a <> [] -> b <> [] ->
  join sep (a ++ b) = (join sep a ++ sep ++ join sep b)%string.
Proof.
  intros Ha Hb. induction a as [|x a IH]; [contradiction|].
  destruct a as [|y a].
  - cbn [List.app]. now apply join_cons.
  - change ((x :: y :: a) ++ b) with (x :: ((y :: a) ++ b)).
    rewrite join_cons by discriminate. rewrite (IH ltac:(discriminate)).
    rewrite (join_cons sep x (y :: a)) by discriminate.
    now rewrite !string_app_assoc.
Qed.

(** A text of several lines stands in a list of lines as its lines do. *)
Lemma join_nested (sep : string) (a m b : list string) :
  m <> [] -> b <> [] ->
  join sep (a ++ join sep m :: b) = join sep (a ++ m ++ b).
Proof.
  intros Hm Hb.
  assert (H : join sep (join sep m :: b) = join sep (m ++ b)).
  { rewrite join_cons by exact Hb. now rewrite join_app. }
  destruct a as [|x a]; [exact H|].
  rewrite !(join_app sep (x :: a)); try discriminate.
  - now rewrite H.
  - destruct m; [contradiction | discriminate].
Qed.

Lemma join_wrapped (l : list string) :
  l <> [] ->
  join NEWLINE (EmptyString :: l ++ [EmptyString])
  = (NEWLINE ++ join NEWLINE l ++ NEWLINE)%string.
Proof.
  intro H. rewrite join_cons by (destruct l; discriminate).
  rewrite (join_app NEWLINE l [EmptyString] H) by discriminate.
  reflexivity.
Qed.

(** The lines of a text of the template, an empty text standing for one
    empty line. *)
Lemma lines_or_blank (l : list string) :
  Forall trimmed_line l ->
  exists l', l' <> [] /\ join NEWLINE l' = join NEWLINE l /\ Forall trimmed_line l'.
Proof.
  intro H. destruct l as [|x r].
  - exists [EmptyString]. split; [discriminate|]. split; [reflexivity|].
    repeat constructor.
  - exists (x :: r). split; [discriminate|]. now split.
Qed.

Lemma last_app_ne (a b : list string) (d : string) :
  b <> [] -> last (a ++ b) d = last b d.
Proof.
  intro Hb. destruct b as [|x b]; [contradiction|]. apply last_app_cons.
Qed.

(** X16: For a list controller whose field names have no white space in them,
    [get_list_details] returns the text of its template as it stands: the two
    headings, the filters and the orders each on a line of its own, without
    the empty lines around the text. *)
Theorem list_details_text (controller_class : controller) :
  clean_controller controller_class = true ->
  get_list_details controller_class
  = join NEWLINE (list_details (join NEWLINE (filter_lines controller_class))
                               (join NEWLINE (order_lines controller_class))).
Proof.
  unfold clean_controller. intro H. apply andb_prop in H. destruct H as [HF HO].
  apply filter_lines_trimmed in HF. apply order_lines_trimmed in HO.
  destruct (lines_or_blank _ HF) as (F & HFne & HFj & HFt).
  destruct (lines_or_blank _ HO) as (O & HOne & HOj & HOt).
  change (get_list_details controller_class)
    with (doc_trim (join NEWLINE
                      (EmptyString
                       :: list_details (join NEWLINE (filter_lines controller_class))
                                       (join NEWLINE (order_lines controller_class))
                       ++ [EmptyString]))).
  rewrite <- HFj, <- HOj. unfold list_details.
  set (h1 := "## Filtering").
  set (l1 := "The following fields and modifiers can be used to filter records from the list;").
  set (l2 := "To search, simply add `?search[field]=value` to include records that match the request, or `?exclude[field]=value` to").
  set (l3 := "exclude them. To use modifiers, simply add `?search[field__modifier]` and `?exclude[field__modifier]`").
  set (h2 := "## Ordering").
  set (l4 := "The following fields can be used to order the results of the list;").
  set (l5 := "To reverse the ordering, simply prepend a `-` character to the request. So `?order=field` orders by `field` in ascending").
  set (l6 := "order, while `?order=-field` orders in descending order instead.").
  set (X := [h1; l1; ""] ++ F ++ [""; l2; l3; ""; h2; l4; ""] ++ O ++ [""; l5; l6]).
  assert (Hflat : join NEWLINE [h1; l1; ""; join NEWLINE F; ""; l2; l3; ""; h2; l4; "";
                                join NEWLINE O; ""; l5; l6]
                  = join NEWLINE X).
  { unfold X.
    etransitivity;
      [exact (join_nested NEWLINE [h1; l1; ""] F
                [""; l2; l3; ""; h2; l4; ""; join NEWLINE O; ""; l5; l6]
                HFne ltac:(discriminate))|].
    replace ([h1; l1; ""] ++ F
             ++ [""; l2; l3; ""; h2; l4; ""; join NEWLINE O; ""; l5; l6])
      with (([h1; l1; ""] ++ F ++ [""; l2; l3; ""; h2; l4; ""])
            ++ join NEWLINE O :: [""; l5; l6])
      by (rewrite <- !app_assoc; reflexivity).
    rewrite (join_nested NEWLINE _ O [""; l5; l6] HOne ltac:(discriminate)).
    now rewrite <- !app_assoc. }
  rewrite Hflat.
  replace (join NEWLINE (EmptyString
                         :: [h1; l1; ""; join NEWLINE F; ""; l2; l3; ""; h2; l4; "";
                             join NEWLINE O; ""; l5; l6] ++ [EmptyString]))
    with (NEWLINE ++ join NEWLINE X ++ NEWLINE)%string.
  - assert (Hlast : last X EmptyString <> EmptyString).
    { unfold X. rewrite !app_assoc. rewrite last_app_ne by discriminate. discriminate. }
    assert (Hall : Forall trimmed_line X).
    { unfold X. repeat (apply Forall_app; split); try assumption; repeat constructor. }
    set (R := [l1; ""] ++ F ++ [""; l2; l3; ""; h2; l4; ""] ++ O ++ [""; l5; l6]).
    change X with (h1 :: R) in *.
    rewrite (doc_trim_unwraps h1 R Hall eq_refl eq_refl).
    now rewrite pop_trailing_blank_keeps.
  - rewrite join_wrapped by discriminate. now rewrite Hflat.
Qed.

Lemma list_details_text_witness :
  get_list_details widget_list_controller
  = join NEWLINE (list_details (join NEWLINE (filter_lines widget_list_controller))
                               (join NEWLINE (order_lines widget_list_controller))).
Proof. apply (list_details_text widget_list_controller). reflexivity. Defined.

(** ** Response normalisation: the other codes *)

Lemma normalize_responses_keys (mn : string) (gl : bool) (model : string)
    (responses responses' : dict) :
  normalize_responses mn gl model responses = Ok responses' ->
  dkeys responses' = dkeys responses.
Proof.
  revert responses'.
  induction responses as [|[k v] rest IH]; intros responses' H.
  - inversion H. reflexivity.
  - simpl in H. unfold rbind in H.
    destruct (normalize_response mn gl model k v) as [v'|]; [|discriminate].
    destruct (normalize_responses mn gl model rest) as [rest'|]; [|discriminate].
    inversion H; subst responses'. cbn [dkeys map fst]. f_equal. now apply IH.
Qed.

Lemma dkeys_dset (k : key) (v : pyval) (d : dict) :
  dkeys (dset k v d) = if dmem k d then dkeys d else dkeys d ++ [k].
Proof.
  unfold dmem, dkeys. induction d as [|[k' v'] r IH]; [reflexivity|].
  cbn [dset dget]. destruct (key_eqb k k') eqn:E; [reflexivity|].
  cbn [map fst]. rewrite IH. now destruct (dget k r).
Qed.

Lemma declared_responses (st : command) (responses : dict) :
  dget (KStr "responses") (method_spec st) = Some (VDict responses) ->
  dget (KStr "responses") (dsetdefault (KStr "responses") (VDict []) (method_spec st))
  = Some (VDict responses).
Proof. intro H. unfold dsetdefault, dmem. now rewrite H. Qed.

(** X17: Response normalisation keeps every declared code, in the declared
    order, and puts the integer 401 last when it was not declared. *)
Theorem response_codes_are_kept (st st' : command) (responses : dict) :
  dget (KStr "responses") (method_spec st) = Some (VDict responses) ->
  install_default_response_data st = Ok (tt, st') ->
  exists responses',
    dget (KStr "responses") (method_spec st') = Some (VDict responses')
    /\ dkeys responses'
       = if dmem (KInt 401) responses then dkeys responses
         else dkeys responses ++ [KInt 401].
Proof.
  intros Hresp Hrun.
  apply install_default_response_data_result in Hrun.
  destruct Hrun as (rs & rs' & Hrs & Hnorm & Hfinal).
  rewrite (declared_responses st responses Hresp) in Hrs.
  inversion Hrs; subst rs; clear Hrs.
  eexists. split; [exact Hfinal|].
  rewrite dkeys_dset. unfold dmem at 1.
  apply normalize_responses_keys in Hnorm.
  assert (Hmem : forall d1 d2 : dict, dkeys d1 = dkeys d2 ->
                 forall k, dmem k d1 = dmem k d2).
  { unfold dmem, dkeys. induction d1 as [|[k1 v1] d1 IH]; intros [|[k2 v2] d2] E k;
      try discriminate; [reflexivity|].
    cbn [map fst] in E. inversion E; subst k2. cbn [dget].
    destruct (key_eqb k k1); [reflexivity|]. now apply IH. }
  fold (dmem (KInt 401) rs'). rewrite (Hmem _ _ Hnorm), Hnorm. reflexivity.
Qed.

Lemma response_codes_are_kept_witness :
  exists responses',
    dget (KStr "responses")
         (method_spec (final_state (install_default_response_data widget_list_get)))
    = Some (VDict responses')
    /\ dkeys responses' = [KInt 200; KInt 400; KInt 401].
Proof.
  exact (response_codes_are_kept widget_list_get
           (final_state (install_default_response_data widget_list_get))
           [(KInt 200, VDict []); (KInt 400, VDict [])] eq_refl eq_refl).
Defined.

Lemma Forall_filter {A : Type} (P : A -> Prop) (f : A -> bool) (l : list A) :
  (forall x, f x = true -> P x) -> Forall P (filter f l).
Proof.
  intro H. induction l as [|x l IH]; [constructor|]. cbn [filter].
  destruct (f x) eqn:E; [constructor; auto | exact IH].
Qed.

Lemma normalize_response_clean (mn : string) (gl : bool) (model : string)
    (code : key) (details details' : pyval) :
  normalize_response mn gl model code details = Ok details' ->
  without_none details'.
Proof.
  unfold normalize_response, rbind, without_none.
  destruct (first_char_is "4" (str_of_key code)) as [four|]; [|discriminate].
  destruct (if four then _ else _) as [reuse|]; [|discriminate].
  destruct reuse.
  - intro H. inversion H. eexists. split; [reflexivity|].
    constructor; [discriminate | constructor].
  - destruct (py_contains "description" details) as [hd|]; [|discriminate].
    destruct (if hd then _ else _) as [d1|]; [|discriminate].
    destruct (py_contains "content" d1) as [hc|]; [|discriminate].
    destruct (if hc then _ else _) as [d2|]; [|discriminate].
    unfold drop_none. destruct d2; try discriminate.
    intro H. inversion H. eexists. split; [reflexivity|].
    apply Forall_filter. intros [k v] Hf E. cbn [snd] in *. subst v. discriminate Hf.
Qed.

Lemma normalize_responses_clean (mn : string) (gl : bool) (model : string)
    (responses responses' : dict) :
  normalize_responses mn gl model responses = Ok responses' ->
  Forall (fun cd => without_none (snd cd)) responses'.
Proof.
  revert responses'.
  induction responses as [|[k v] rest IH]; intros responses' H.
  - inversion H; subst. constructor.
  - simpl in H. unfold rbind in H.
    destruct (normalize_response mn gl model k v) as [v'|] eqn:Hv; [|discriminate].
    destruct (normalize_responses mn gl model rest) as [rest'|]; [|discriminate].
    inversion H; subst responses'. constructor.
    + eapply normalize_response_clean. exact Hv.
    + now apply IH.
Qed.

Lemma Forall_dset (P : key * pyval -> Prop) (k : key) (v : pyval) (d : dict) :
  (forall k', P (k', v)) -> Forall P d -> Forall P (dset k v d).
Proof.
  intros Hv. induction d as [|[k0 v0] r IH]; intro H; cbn [dset].
  - constructor; [apply Hv | constructor].
  - inversion H; subst. destruct (key_eqb k k0); constructor; auto.
Qed.

(** X18: After response normalisation every response is a mapping, and the
    text [none] is the value of no key in it: a key declared as [none], and
    the description of a code for which there is no default, are taken out. *)
Theorem no_response_value_is_none (st st' : command) :
  install_default_response_data st = Ok (tt, st') ->
  exists responses',
    dget (KStr "responses") (method_spec st') = Some (VDict responses')
    /\ Forall (fun cd => without_none (snd cd)) responses'.
Proof.
  intros Hrun.
  apply install_default_response_data_result in Hrun.
  destruct Hrun as (rs & rs' & Hrs & Hnorm & Hfinal).
  eexists. split; [exact Hfinal|].
  apply Forall_dset.
  - intros k'. eexists. split; [reflexivity|]. constructor; [discriminate | constructor].
  - eapply normalize_responses_clean. exact Hnorm.
Qed.

Lemma no_response_value_is_none_witness :
  exists responses',
    dget (KStr "responses")
         (method_spec (final_state (install_default_response_data declared_401)))
    = Some (VDict responses')
    /\ Forall (fun cd => without_none (snd cd)) responses'.
Proof.
  exact (no_response_value_is_none declared_401
           (final_state (install_default_response_data declared_401)) eq_refl).
Defined.









(** ** Input schemas: what is registered *)

Lemma dmem_ddel (k : key) (d : dict) : dmem k (ddel k d) = false.
Proof.
  unfold dmem, ddel. induction d as [|[k' v] r IH]; [reflexivity|].
  cbn [filter fst]. destruct (key_eqb k k') eqn:E; cbn [negb]; [exact IH|].
  cbn [dget]. rewrite E. exact IH.
Qed.

Lemma Forall_dset_entry (P : key * pyval -> Prop) (k : key) (v : pyval) (d : dict) :
  P (k, v) -> Forall P d -> Forall P (dset k v d).
Proof.
  intros Hv. induction d as [|[k0 v0] r IH]; intro H; cbn [dset].
  - constructor; [exact Hv | constructor].
  - inversion H; subst. destruct (key_eqb k k0) eqn:E.
    + apply key_eqb_eq in E. subst k0. constructor; assumption.
    + constructor; auto.
Qed.

Lemma sound_input_schema_step (order : list string) (required : list pyval)
    (properties : dict) (field : string) (fd : dict) (is_required : bool) :
  In field order ->
  documented_property (VDict fd) ->
  sound_input_schema order required properties ->
  sound_input_schema order
    (if is_required then required ++ [VStr field] else required)
    (dset (KStr field) (VDict fd) properties).
Proof.
  intros Hin Hdoc [Hreq Hprop]. split.
  - assert (Hold : Forall (fun r => exists f, r = VStr f /\ In f order
                      /\ dmem (KStr f) (dset (KStr field) (VDict fd) properties) = true)
                     required).
    { eapply Forall_impl; [|exact Hreq]. intros r (f & Hr & Hf & Hm).
      exists f. repeat split; auto. now apply dmem_dset_mono. }
    destruct is_required; [|exact Hold].
    apply Forall_app. split; [exact Hold|].
    constructor; [|constructor].
    exists field. repeat split; auto. apply dmem_dset_eq.
  - apply Forall_dset_entry; [|exact Hprop].
    split; [now exists field | exact Hdoc].
Qed.

(** The loop over the validation order keeps the registry of schemas, sets
    the error flag when it gives up, and hands back required names and
    properties that agree. *)
Lemma input_schema_loop_sound (cc : controller) (order : list string)
    (fields : list string) :
  (forall f, In f fields -> In f order) ->
  forall (required : list pyval) (properties : dict) (st : command),
  sound_input_schema order required properties ->
  post (input_schema_loop cc fields required properties) st
       (fun r s =>
          schemas s = schemas st
          /\ match r with
             | None => errors s = true
             | Some (required', properties') =>
                 sound_input_schema order required' properties'
             end).
Proof.
  induction fields as [|field rest IH]; intros Hsub required properties st Hsound.
  - apply post_ret. now split.
  - assert (Hrest : forall f, In f rest -> In f order)
      by (intros f Hf; apply Hsub; now right).
    assert (Hfield : In field order) by (apply Hsub; now left).
    assert (Hnext : forall req props s, schemas s = schemas st ->
              sound_input_schema order req props ->
              post (input_schema_loop cc rest req props) s
                   (fun r s' =>
                      schemas s' = schemas st
                      /\ match r with
                         | None => errors s' = true
                         | Some (required', properties') =>
                             sound_input_schema order required' properties'
                         end)).
    { intros req props s Hs Hsd. eapply post_weaken; [apply (IH Hrest); exact Hsd|].
      intros r s' [H1 H2]. split; [congruence | exact H2]. }
    cbn [input_schema_loop].
    destruct (getattr (ctl_attrs cc) ("validate_" ++ field)) as [validator|].
    + apply post_bind. unfold load_docstring.
      destruct validator as [| | |v].
      * apply post_bind, post_modify, post_ret, post_bind, post_lift.
        intros g Hg. discriminate Hg.
      * apply post_ret, post_bind, post_modify. now apply Hnext.
      * apply post_raise.
      * apply post_ret, post_bind, post_lift. intros g Hg.
        destruct (py_truth g); [now apply Hnext|].
        destruct (py_pop v "required" (VBool true)) as [[ir fd]|e] eqn:Ep.
        -- destruct v; try discriminate Ep. cbn [py_pop] in Ep. inversion Ep; subst ir fd.
           apply post_bind, post_get.
           match goal with
           | |- post (if ?b then _ else _) _ _ => destruct b eqn:Echeck
           end.
           ++ apply post_bind, post_modify, post_ret. now split.
           ++ apply Hnext; [reflexivity|].
              apply sound_input_schema_step; [exact Hfield | | exact Hsound].
              exists (ddel (KStr "required") d). split; [reflexivity|].
              split; [apply dmem_ddel|].
              apply andb_false_iff in Echeck. destruct Echeck as [E|E].
              ** apply negb_false_iff in E. apply andb_prop in E. now left.
              ** apply negb_false_iff in E. now right.
        -- destruct e; try apply post_raise.
           apply post_bind, post_modify, post_ret. now split.
    + apply post_bind, post_modify. now apply Hnext.
Qed.

(** X22: When [parse_input_schema] returns, it has either given up, with the
    error flag set and the registry as it was, or registered one schema in
    which every required name is a property, every property is a field of the
    validation order with a description and a type or with a reference, and no
    property has kept its [required] marker. *)
Theorem registered_input_schema_is_sound (cc : controller) (st st' : command) :
  controller_class st = Some cc ->
  parse_input_schema st = Ok (tt, st') ->
  (errors st' = true /\ schemas st' = schemas st)
  \/ exists required properties,
       schemas st'
       = dset (KStr (replace "Controller" "" (ctl_name cc)))
              (input_schema required properties) (schemas st)
       /\ sound_input_schema (validation_order cc) required properties.
Proof.
  intros Hcc Hrun.
  rewrite (parse_input_schema_run cc st Hcc) in Hrun. cbv zeta in Hrun.
  match type of Hrun with
  | context [input_schema_loop cc ?fields [] [] ?s] =>
      pose proof (input_schema_loop_sound cc (validation_order cc) fields
                    (fun f H => H) [] [] s
                    (conj (Forall_nil _) (Forall_nil _))) as Hpost;
      unfold post in Hpost;
      destruct (input_schema_loop cc fields [] [] s)
        as [[[[required properties]|] s']|e]; [| |discriminate Hrun]
  end; inversion Hrun; subst st'; clear Hrun;
    destruct Hpost as [Hs Hr]; cbn [schemas with_method_spec] in Hs.
  - right. exists required, properties. cbn [schemas with_schemas]. now rewrite Hs.
  - left. now split.
Qed.

Lemma registered_input_schema_is_sound_witness :
  (errors (final_state (parse_input_schema widget_post_state)) = true
   /\ schemas (final_state (parse_input_schema widget_post_state))
      = schemas widget_post_state)
  \/ exists required properties,
       schemas (final_state (parse_input_schema widget_post_state))
       = dset (KStr (replace "Controller" "" (ctl_name widget_create)))
              (input_schema required properties) (schemas widget_post_state)
       /\ sound_input_schema (validation_order widget_create) required properties.
Proof.
  exact (registered_input_schema_is_sound widget_create widget_post_state
           (final_state (parse_input_schema widget_post_state)) eq_refl eq_refl).
Defined.

Lemma input_schema_loop_generative (cc : controller) (field : string)
    (after : list string) :
  generative_field cc field = true ->
  forall (before : list string) (required : list pyval) (properties : dict)
         (st : command),
  input_schema_loop cc (before ++ field :: after) required properties st
  = input_schema_loop cc (before ++ after) required properties st.
Proof.
  intros Hgen before.
  induction before as [|x rest IH]; intros required properties st.
  - cbn [List.app input_schema_loop]. unfold generative_field in Hgen.
    destruct (getattr (ctl_attrs cc) ("validate_" ++ field)) as [validator|];
      [|discriminate].
    destruct validator as [| | |v]; try discriminate.
    destruct v; try discriminate.
    unfold bind, load_docstring, ret, lift. cbn [py_get]. now rewrite Hgen.
  - cbn [List.app input_schema_loop].
    destruct (getattr (ctl_attrs cc) ("validate_" ++ x)) as [validator|].
    + destruct validator as [| | |v].
      * reflexivity.
      * unfold bind, load_docstring, ret, log_error, modify. apply IH.
      * reflexivity.
      * destruct v; try reflexivity.
        unfold bind, load_docstring, ret, lift, get, log_error, modify.
        cbn [py_get py_pop].
        destruct (py_truth _); [apply IH|].
        match goal with |- context [if ?b then _ else _] => destruct b end.
        -- reflexivity.
        -- apply IH.
    + unfold bind, log_error, modify. apply IH.
Qed.

(** X23: A field whose validator is documented as generative is passed over in
    silence: the error flag, the request body and the registered schema are
    those of the validation order without the field, and an exception of the
    other fields is the same one. *)
Theorem generative_field_is_passed_over (cc : controller) (field : string)
    (before after : list string) (st : command) :
  generative_field cc field = true ->
  match
    parse_input_schema
      (with_controller_class
         (Some (with_validation_order (before ++ field :: after) cc)) st),
    parse_input_schema
      (with_controller_class
         (Some (with_validation_order (before ++ after) cc)) st)
  with
  | Ok (_, st1), Ok (_, st2) =>
      errors st1 = errors st2
      /\ schemas st1 = schemas st2
      /\ method_spec st1 = method_spec st2
  | Raise e1, Raise e2 => e1 = e2
  | _, _ => False
  end.
Proof.
  intro Hgen.
  rewrite (parse_input_schema_run
             (with_validation_order (before ++ field :: after) cc)) by reflexivity.
  rewrite (parse_input_schema_run
             (with_validation_order (before ++ after) cc)) by reflexivity.
  cbv zeta.
  cbn [controller_class with_controller_class with_validation_order ctl_name
       validation_order method_spec].
  rewrite (input_schema_loop_attrs
             (with_validation_order (before ++ field :: after) cc) cc
             (before ++ field :: after) eq_refl).
  rewrite (input_schema_loop_attrs
             (with_validation_order (before ++ after) cc) cc
             (before ++ after) eq_refl).
  rewrite (input_schema_loop_generative cc field after Hgen).
  repeat match goal with
  | |- context [input_schema_loop cc (before ++ after) [] []
                  (with_method_spec ?ms (with_controller_class ?c st))] =>
      change (with_method_spec ms (with_controller_class c st))
        with (with_controller_class c (with_method_spec ms st))
  end.
  rewrite !(input_schema_loop_frame cc (with_controller_class _))
    by (intros; reflexivity).
  match goal with
  | |- context [map_state _ ?r] =>
      destruct r as [[[[required properties]|] st2]|e]
  end; cbn; auto.
Qed.

Lemma generative_field_is_passed_over_witness :
  let run order :=
    final_state
      (parse_input_schema
         (with_controller_class (Some (with_validation_order order widget_create))
            widget_post_state)) in
  errors (run ["name"; "slug"; "size"]) = errors (run ["name"; "size"])
  /\ schemas (run ["name"; "slug"; "size"]) = schemas (run ["name"; "size"])
  /\ method_spec (run ["name"; "slug"; "size"]) = method_spec (run ["name"; "size"]).
Proof.
  exact (generative_field_is_passed_over widget_create "slug"
           ["name"] ["size"] widget_post_state eq_refl).
Defined.

(** ** View methods *)

Lemma parse_view_method_start (a : application) (m : method) (st : command)
    (url_spec : list (string * dict)) :
  getattr (paths st) (url st) = Some url_spec ->
  String.eqb (method_name st) "patch" = false ->
  let tags_only := ["tags" =: VList [VStr (tag st)]] in
  let entered :=
    with_paths
      (setitem (url st) (setitem (method_name st) tags_only url_spec) (paths st))
      (with_method_spec tags_only st) in
  parse_view_method a m st = (analyse_method a m ;; store_method_spec) entered.
Proof.
  intros Hurl Hverb. cbv zeta.
  unfold parse_view_method. rewrite bind_get.
  unfold set_operation at 1. rewrite bind_run, bind_get, Hurl.
  unfold modify at 1. cbv beta iota.
  unfold set_method_spec at 1. rewrite bind_modify.
  unfold store_method_spec at 1. rewrite bind_run, bind_get.
  unfold set_operation at 1. rewrite bind_get.
  cbn [paths url with_method_spec with_paths method_name method_spec].
  rewrite getattr_setitem_eq. unfold modify at 1. cbv beta iota.
  rewrite Hverb.
  cbn [paths url with_method_spec with_paths method_name method_spec].
  rewrite !setitem_setitem. reflexivity.
Qed.

(** X24: A view method whose docstring is missing, or loads to something that
    is not a mapping, ends the run: the [AttributeError] of [keys] is none of
    the exceptions [parse_view_method] handles. *)
Theorem method_without_mapping_raises (a : application) (m : method) (st : command)
    (url_spec : list (string * dict)) :
  getattr (paths st) (url st) = Some url_spec ->
  String.eqb (method_name st) "patch" = false ->
  not_a_mapping (meth_doc m) = true ->
  parse_view_method a m st = Raise AttributeError.
Proof.
  intros Hurl Hverb Hdoc.
  rewrite (parse_view_method_start a m st url_spec Hurl Hverb). cbv zeta.
  rewrite bind_run. unfold analyse_method, load_docstring.
  destruct (meth_doc m) as [| | |v]; [reflexivity | discriminate | discriminate |].
  destruct v; try discriminate; reflexivity.
Qed.

Lemma method_without_mapping_raises_witness :
  parse_view_method widget_controllers
    {| meth_name := "get"; meth_doc := Block (VStr "List the widgets") |}
    (widget_route "get")
  = Raise AttributeError.
Proof.
  apply (method_without_mapping_raises widget_controllers _ (widget_route "get") []);
    reflexivity.
Defined.

(** X25: A method block without [summary], [description] or [responses]
    records an error, and nothing of the block gets into the operation: it is
    left with its tag. *)
Theorem missing_necessary_key_leaves_tags (a : application) (m : method) (st : command)
    (url_spec : list (string * dict)) (method_doc : dict) :
  getattr (paths st) (url st) = Some url_spec ->
  String.eqb (method_name st) "patch" = false ->
  meth_doc m = Block (VDict method_doc) ->
  has_necessary_keys method_doc = false ->
  exists st' url_spec',
    parse_view_method a m st = Ok (tt, st')
    /\ errors st' = true
    /\ getattr (paths st') (url st) = Some url_spec'
    /\ getattr url_spec' (method_name st) = Some ["tags" =: VList [VStr (tag st)]].
Proof.
  intros Hurl Hverb Hdoc Hkeys.
  rewrite (parse_view_method_start a m st url_spec Hurl Hverb). cbv zeta.
  rewrite bind_run. unfold analyse_method, load_docstring. rewrite Hdoc.
  rewrite bind_ret. unfold has_necessary_keys in Hkeys. rewrite Hkeys.
  cbn [negb]. unfold log_error, modify. cbv beta iota.
  unfold store_method_spec. rewrite bind_get. unfold set_operation. rewrite bind_get.
  cbn [paths url set_errors with_errors with_method_spec with_paths method_name
       method_spec].
  rewrite getattr_setitem_eq. unfold modify.
  eexists. eexists. split; [reflexivity|].
  cbn [errors paths with_paths]. split; [reflexivity|].
  rewrite getattr_setitem_eq. split; [reflexivity|].
  rewrite !setitem_setitem. apply getattr_setitem_eq.
Qed.

Lemma missing_necessary_key_leaves_tags_witness :
  exists st' url_spec',
    parse_view_method widget_controllers
      {| meth_name := "get";
         meth_doc := Block (VDict [ "summary" =: VStr "List the widgets";
                                    "responses" =: VDict [(KInt 200, VDict [])] ]) |}
      (widget_route "get") = Ok (tt, st')
    /\ errors st' = true
    /\ getattr (paths st') (url (widget_route "get")) = Some url_spec'
    /\ getattr url_spec' (method_name (widget_route "get"))
       = Some ["tags" =: VList [VStr (tag (widget_route "get"))]].
Proof.
  apply (missing_necessary_key_leaves_tags widget_controllers _ (widget_route "get") []
           [ "summary" =: VStr "List the widgets";
             "responses" =: VDict [(KInt 200, VDict [])] ]);
    reflexivity.
Defined.

(** X26: The fetch of a collection gets the default list parameters after the
    parameters it has, whether a list controller is found or not; when one is
    found, its filters and orders are put after the description. *)
Theorem list_parameters_are_appended (a : application) (name : pyval) (st : command)
    (cc : option controller) (parameters : list pyval) (description : string) :
  String.eqb (method_name st) "get" = true ->
  get_is_list st = true ->
  find_controller a name (model_name st ++ "ListController") = Ok cc ->
  declared_parameters (method_spec st) = Some parameters ->
  dget (KStr "description") (method_spec st) = Some (VStr description) ->
  exists st',
    parse_controller a name st = Ok (tt, st')
    /\ errors st' = errors st
    /\ dget (KStr "parameters") (method_spec st')
       = Some (VList (parameters ++ DEFAULT_LIST_PARAMETERS))
    /\ dget (KStr "description") (method_spec st')
       = Some (VStr (match cc with
                     | Some c => description ++ NEWLINE ++ NEWLINE ++ get_list_details c
                     | None => description
                     end)).
Proof.
  intros Hget Hlist Hfind Hparams Hdesc.
  unfold parse_controller. rewrite bind_get, Hget, Hlist. cbn [andb].
  rewrite bind_lift, Hfind, bind_modify.
  assert (Hadd : forall ms s,
            declared_parameters ms = Some parameters ->
            method_spec s = ms ->
            exists st',
              (st0 <- get ;;
               let ms0 := dsetdefault (KStr "parameters") (VList []) (method_spec st0) in
               parameters0 <- lift (py_getitem (VDict ms0) "parameters") ;;
               parameters' <- lift (py_iadd_list parameters0 DEFAULT_LIST_PARAMETERS) ;;
               set_method_spec (dset (KStr "parameters") parameters' ms0)) s
              = Ok (tt, st')
              /\ errors st' = errors s
              /\ dget (KStr "parameters") (method_spec st')
                 = Some (VList (parameters ++ DEFAULT_LIST_PARAMETERS))
              /\ dget (KStr "description") (method_spec st')
                 = dget (KStr "description") ms).
  { intros ms s Hp Hms. rewrite bind_get. cbv zeta. rewrite Hms.
    unfold declared_parameters in Hp. unfold dsetdefault, dmem.
    destruct (dget (KStr "parameters") ms) as [v|] eqn:E.
    - destruct v; try discriminate. inversion Hp; subst l.
      cbn [py_getitem]. rewrite E. rewrite bind_lift. cbn [py_iadd_list].
      rewrite bind_lift. unfold set_method_spec, modify.
      eexists. split; [reflexivity|]. cbn [errors method_spec with_method_spec].
      split; [reflexivity|]. split; [apply dget_dset_eq|].
      now rewrite dget_dset_ne.
    - inversion Hp; subst parameters.
      cbn [py_getitem]. rewrite dget_dset_eq. rewrite bind_lift. cbn [py_iadd_list].
      rewrite bind_lift. unfold set_method_spec, modify.
      eexists. split; [reflexivity|]. cbn [errors method_spec with_method_spec].
      split; [reflexivity|]. split; [apply dget_dset_eq|].
      now rewrite !dget_dset_ne. }
  destruct cc as [c|].
  - cbn [method_spec with_controller_class]. rewrite Hdesc.
    rewrite bind_run, bind_lift. cbn [py_iadd_str]. unfold set_method_spec at 1.
    rewrite bind_modify. unfold ret at 1. cbv beta iota.
    match goal with
    | |- context [with_method_spec ?ms ?s] =>
        destruct (Hadd ms (with_method_spec ms s)) as (st' & Hrun & He & Hp & Hd);
          [|reflexivity|]
    end.
    + unfold declared_parameters in *. rewrite dget_dset_ne by reflexivity.
      exact Hparams.
    + exists st'. split; [exact Hrun|]. split; [exact He|]. split; [exact Hp|].
      rewrite Hd. apply dget_dset_eq.
  - rewrite bind_ret.
    destruct (Hadd (method_spec st) (with_controller_class None st) Hparams eq_refl)
      as (st' & Hrun & He & Hp & Hd).
    exists st'. split; [exact Hrun|]. split; [exact He|]. split; [exact Hp|].
    now rewrite Hd.
Qed.

Lemma list_parameters_are_appended_witness :
  exists st',
    parse_controller widget_controllers VNone widget_list_state = Ok (tt, st')
    /\ errors st' = errors widget_list_state
    /\ dget (KStr "parameters") (method_spec st')
       = Some (VList ([] ++ DEFAULT_LIST_PARAMETERS))
    /\ dget (KStr "description") (method_spec st')
       = Some (VStr (match Some widget_list_controller with
                     | Some c => "Every widget, page by page." ++ NEWLINE ++ NEWLINE
                                 ++ get_list_details c
                     | None => "Every widget, page by page."
                     end)).
Proof.
  apply (list_parameters_are_appended widget_controllers VNone widget_list_state
           (Some widget_list_controller) [] "Every widget, page by page.");
    reflexivity.
Defined.

(** ** Permissions and routes *)

(** X27: When the permission module of the model has the method that goes with
    the view method, [parse_permissions] puts the permission text after the
    description, two line feeds between them; a docstring with a space and a
    hyphen in it puts the two line feeds there and nothing else, and records
    an error. *)
Theorem permissions_are_described (a : application) (st : command)
    (permission_file : permission_file) (methods : list (string * (string * option string)))
    (name fname doc description : string) :
  getattr (permission_files a)
          (module_name a ++ ".permissions." ++ lower (model_name st))
  = Some permission_file ->
  Permissions permission_file = Some methods ->
  permission_method_name st = Some name ->
  getattr methods name = Some (fname, Some doc) ->
  dget (KStr "description") (method_spec st) = Some (VStr description) ->
  parse_permissions a st
  = if contains " -" (doc_trim doc)
    then Ok (tt, with_method_spec
                   (dset (KStr "description")
                         (VStr (description ++ NEWLINE ++ NEWLINE)) (method_spec st))
                   (set_errors st))
    else Ok (tt, with_method_spec
                   (dset (KStr "description")
                         (VStr (description ++ NEWLINE ++ NEWLINE ++ "## Permissions"
                                ++ if is_empty (doc_trim doc) then ""
                                   else NEWLINE ++ doc_trim doc))
                         (method_spec st))
                   st).
Proof.
  intros Hfile Hclass Hname Hmethod Hdesc.
  unfold parse_permissions. rewrite bind_get, Hfile.
  assert (Hn : (if String.eqb (method_name st) "get"
                then ret (if get_is_list st then "list" else "read")
                else match getattr METHOD_NAME_MAP (method_name st) with
                     | Some n => ret n
                     | None => raise KeyError
                     end) = ret name).
  { unfold permission_method_name in Hname.
    destruct (String.eqb (method_name st) "get").
    - now inversion Hname.
    - now rewrite Hname. }
  rewrite Hn, bind_ret, Hclass, Hmethod.
  rewrite bind_lift. cbn [py_getitem]. rewrite Hdesc.
  rewrite bind_run, permission_details_text.
  destruct (contains " -" (doc_trim doc)).
  - rewrite bind_lift. cbn [py_iadd_str]. unfold set_method_spec, modify.
    now rewrite string_append_nil.
  - rewrite bind_lift. cbn [py_iadd_str]. unfold set_method_spec, modify.
    reflexivity.
Qed.

Lemma permissions_are_described_witness :
  parse_permissions widget_permissions (widget_list_state)
  = if contains " -" (doc_trim widget_list_permission)
    then Ok (tt, with_method_spec
                   (dset (KStr "description")
                         (VStr ("Every widget, page by page." ++ NEWLINE ++ NEWLINE))
                         (method_spec widget_list_state))
                   (set_errors widget_list_state))
    else Ok (tt, with_method_spec
                   (dset (KStr "description")
                         (VStr ("Every widget, page by page." ++ NEWLINE ++ NEWLINE
                                ++ "## Permissions"
                                ++ if is_empty (doc_trim widget_list_permission) then ""
                                   else NEWLINE ++ doc_trim widget_list_permission))
                         (method_spec widget_list_state))
                   widget_list_state).
Proof.
  apply (permissions_are_described widget_permissions widget_list_state
           {| Permissions := Some [("list", ("list", Some widget_list_permission))] |}
           [("list", ("list", Some widget_list_permission))]
           "list" "list" widget_list_permission "Every widget, page by page.");
    reflexivity.
Defined.

Lemma join_split_on (sep : ascii) (s : string) :
  join (String sep EmptyString) (split_on sep s) = s.
Proof.
  unfold join. induction s as [|c s IH]; [reflexivity|]. cbn [split_on].
  pose proof (split_on_not_nil sep s) as Hne.
  destruct (Ascii.eqb c sep) eqn:E.
  - apply Ascii.eqb_eq in E. subst c.
    destruct (split_on sep s) as [|p ps]; [contradiction|].
    change (String.concat (String sep "") ("" :: p :: ps))
      with (String sep (String.concat (String sep "") (p :: ps))).
    now rewrite IH.
  - destruct (split_on sep s) as [|p ps]; [contradiction|].
    destruct ps as [|q ps].
    + cbn [String.concat] in IH |- *. now rewrite IH.
    + change (String.concat (String sep "") (String c p :: q :: ps))
        with (String c (String.concat (String sep "") (p :: q :: ps))).
      now rewrite IH.
Qed.

(** X28: A route is resolved by the dotted name of its view: what stands
    before the last dot is imported as the module of the view file, and what
    stands after it is looked up in the views module. When both are there the
    path of the route is opened, empty, the tag of the view file is the
    current one, and the view class is parsed; when one of them is missing an
    exception ends the run. *)
Theorem route_is_resolved (a : application) (fuel : nat) (up : urlpattern)
    (module_path class_name : string) (st : command) :
  lookup_str up = (module_path ++ String "." class_name)%string ->
  all_chars (fun c => negb (Ascii.eqb c ".")) class_name = true ->
  match getattr (importable a) module_path, getattr (view_module a) class_name with
  | Some service_file, Some view_class =>
      parse_urlpattern a fuel up st
      = parse_view_class a fuel view_class (route_entered up service_file st)
  | _, _ => exists e, parse_urlpattern a fuel up st = Raise e
  end.
Proof.
  intros Hlookup Hclass. unfold parse_urlpattern.
  rewrite Hlookup, split_on_append, (split_on_none _ _ Hclass).
  unfold last_or. rewrite last_app_cons. cbn [last].
  rewrite removelast_last, join_split_on.
  rewrite bind_modify, bind_get, bind_modify.
  cbn [url paths with_url].
  destruct (getattr (importable a) module_path) as [service_file|].
  - rewrite bind_modify.
    destruct (getattr (view_module a) class_name); [reflexivity|].
    eexists. reflexivity.
  - destruct (getattr (view_module a) class_name); eexists; reflexivity.
Qed.

Lemma route_is_resolved_witness :
  match getattr (importable widget_permissions) "widgets.views.widget",
        getattr (view_module widget_permissions) "WidgetCollection" with
  | Some service_file, Some view_class =>
      parse_urlpattern widget_permissions 5
        {| lookup_str := "widgets.views.widget.WidgetCollection"; pattern := "widget/" |}
        initial
      = parse_view_class widget_permissions 5 view_class
          (route_entered
             {| lookup_str := "widgets.views.widget.WidgetCollection";
                pattern := "widget/" |} service_file initial)
  | _, _ =>
      exists e,
        parse_urlpattern widget_permissions 5
          {| lookup_str := "widgets.views.widget.WidgetCollection"; pattern := "widget/" |}
          initial = Raise e
  end.
Proof.
  apply (route_is_resolved widget_permissions 5
           {| lookup_str := "widgets.views.widget.WidgetCollection"; pattern := "widget/" |}
           "widgets.views.widget" "WidgetCollection" initial); reflexivity.
Defined.

(** ** C3: the references of a written document *)

Lemma In_setitem {A : Type} (n n' : string) (x y : A) (l : list (string * A)) :
  In (n', y) (setitem n x l) -> (n' = n /\ y = x) \/ In (n', y) l.
Proof.
  induction l as [|[m z] r IH]; simpl.
  - intros [H|[]]. inversion H. now left.
  - destruct (String.eqb n m) eqn:E; simpl.
    + apply String.eqb_eq in E. subst m.
      intros [H|H]; [inversion H; now left | right; now right].
    + intros [H|H]; [right; now left|].
      destruct (IH H) as [H'|H']; [now left | right; now right].
Qed.



Lemma body_ok_same (a : application) (r : dict) (op op' : dict) :
  (forall rb, dget (KStr "requestBody") op' = Some rb ->
              dget (KStr "requestBody") op = Some rb) ->
  body_ok a r op -> body_ok a r op'.
Proof. intros Hsame H rb Hrb. apply H. now apply Hsame. Qed.


(** The invariant looks at the error flag, the paths, the registry and the
    operation under construction only. *)
Lemma inv_frame (a : application) (st s : command) :
  errors s = errors st -> paths s = paths st -> schemas s = schemas st ->
  method_spec s = method_spec st ->
  inv a st -> inv a s.
Proof.
  unfold inv, sound, triples. intros He Hp Hs Hm [H1 H2].
  rewrite He, Hp, Hs, Hm. now split.
Qed.

Lemma inv_set_errors (a : application) (st : command) : inv a st -> inv a (set_errors st).
Proof.
  unfold inv, sound, triples. intros [H1 H2]. split; [discriminate | exact H2].
Qed.

Lemma inv_method_spec (a : application) (st : command) (ms : dict) :
  (forall rb, dget (KStr "requestBody") ms = Some rb ->
              dget (KStr "requestBody") (method_spec st) = Some rb) ->
  inv a st -> inv a (with_method_spec ms st).
Proof.
  unfold inv, sound, triples. intros Hsame [H1 H2]. split; [|exact H2].
  cbn. intro He. destruct (H1 He) as [Hp Hm]. split; [exact Hp|].
  now apply (body_ok_same a _ (method_spec st)).
Qed.


Lemma inv_open_path (a : application) (st : command) (u : string) :
  inv a st -> inv a (with_paths (setitem u [] (paths st)) st).
Proof.
  unfold inv, sound, triples. intros [H1 H2]. split; [|exact H2].
  cbn. intro He. destruct (H1 He) as [Hp Hm]. split; [|exact Hm].
  intros u' ops verb' op' Hin Hin'.
  apply In_setitem in Hin. destruct Hin as [[-> ->]|Hin]; [contradiction|].
  now apply (Hp u' ops verb' op').
Qed.

Ltac same_body :=
  let rb := fresh "rb" in
  let H := fresh "H" in
  intros rb H; cbn in H |- *;
  try unfold dsetdefault in H;
  repeat match type of H with
         | context [if ?b then _ else _] => destruct b
         end;
  rewrite ?dget_dset_ne, ?dget_ddel_ne in H by reflexivity;
  rewrite ?dget_dset_ne, ?dget_ddel_ne by reflexivity;
  first [discriminate H | exact H].

Ltac inv_auto :=
  repeat first
    [ eassumption
    | apply inv_set_errors
    | apply inv_method_spec; [same_body|]
    | apply inv_open_path
    | match goal with
      | |- inv _ (with_errors true ?st) => change (with_errors true st) with (set_errors st)
      | |- inv ?a (with_controller_class ?x ?st) =>
          apply (inv_frame a st); [reflexivity | reflexivity | reflexivity | reflexivity |]
      | |- inv ?a (with_get_is_list ?x ?st) =>
          apply (inv_frame a st); [reflexivity | reflexivity | reflexivity | reflexivity |]
      | |- inv ?a (with_method_name ?x ?st) =>
          apply (inv_frame a st); [reflexivity | reflexivity | reflexivity | reflexivity |]
      | |- inv ?a (with_model_name ?x ?st) =>
          apply (inv_frame a st); [reflexivity | reflexivity | reflexivity | reflexivity |]
      | |- inv ?a (with_tag ?x ?st) =>
          apply (inv_frame a st); [reflexivity | reflexivity | reflexivity | reflexivity |]
      | |- inv ?a (with_url ?x ?st) =>
          apply (inv_frame a st); [reflexivity | reflexivity | reflexivity | reflexivity |]
      | |- inv ?a (with_info ?x ?st) =>
          apply (inv_frame a st); [reflexivity | reflexivity | reflexivity | reflexivity |]
      | |- inv ?a (with_tags ?x ?st) =>
          apply (inv_frame a st); [reflexivity | reflexivity | reflexivity | reflexivity |]
      | |- inv ?a (with_servers ?x ?st) =>
          apply (inv_frame a st); [reflexivity | reflexivity | reflexivity | reflexivity |]
      | |- inv ?a (with_externalDocs ?x ?st) =>
          apply (inv_frame a st); [reflexivity | reflexivity | reflexivity | reflexivity |]
      end ].

(** One step through a computation whose every part keeps the invariant. *)
Ltac keep_step :=
  match goal with
  | |- post (bind _ _) _ _ => apply post_bind
  | |- post (ret _) _ _ => apply post_ret
  | |- post get _ _ => apply post_get
  | |- post (modify _) _ _ => apply post_modify
  | |- post log_error _ _ => apply post_modify
  | |- post (set_method_spec _) _ _ => apply post_modify
  | |- post (lift _) _ _ => apply post_lift; intros ? ?
  | |- post (raise _) _ _ => apply post_raise
  | |- post (match ?x with _ => _ end) _ _ => destruct x eqn:?
  | |- inv _ _ => solve [inv_auto]
  end; cbv beta.

Ltac keep := repeat keep_step.

(** A call of a computation that is known to keep the invariant. *)
Ltac keep_call L :=
  lazymatch goal with
  | |- post (bind _ _) _ _ => apply post_bind
  | _ => idtac
  end;
  eapply post_weaken;
  [ eapply L; first [eassumption | solve [inv_auto]]
  | let H := fresh "H" in intros ? ? H; cbv beta in H |- *; try assumption ].


Lemma ensure_docstring_inv (a : application) (d : option string) (st : command) :
  inv a st -> post (ensure_docstring d) st (fun _ s => inv a s).
Proof. intro H. unfold ensure_docstring. keep. Qed.














Lemma get_permission_details_inv (a : application) (pm : string * option string)
    (st : command) :
  inv a st -> post (get_permission_details pm) st (fun _ s => inv a s).
Proof.
  intro H. unfold get_permission_details. keep.
  keep_call ensure_docstring_inv; keep.
Qed.

































